(** * Memory Lab allocator (memmgr): a shallow embedding and its properties

    The dynamic memory manager keeps an implicit list of boundary-tagged
    blocks inside a data segment.  A word is eight bytes ([unsigned long]);
    every C integer is a [Z] whose 64-bit wrap-around is written out, the
    heap is a byte-addressed memory, and the module's global variables are
    the fields of one record that every operation threads through.

    A call ends in an [outcome]: it returns a value and a state, or the
    process stops at an [assert] or a [PANIC].  The loops of the C code take
    a number of steps ([fuel]) and answer [OutOfFuel] when it does not
    suffice.  Assertions are compiled in (no NDEBUG); the [LOG] macro is
    compiled out (no DEBUG) and is left out. *)

From Stdlib Require Import String ZArith List Lia Bool.
From coqutil Require Import Byte Word.LittleEndianList Z.bitblast.
Import ListNotations.
Local Open Scope Z_scope.

(** ** Machine integers *)

Module Word64.

Definition modulus : Z := 2 ^ 64.

(** Unsigned 64-bit wrap-around ([size_t], [TYPE], pointers as integers). *)
Definition wrap (x : Z) : Z := x mod modulus.

(** Reading an unsigned word as [intptr_t]. *)
Definition to_signed (x : Z) : Z :=
  if x <? 2 ^ 63 then x else x - modulus.

(** [~x] on 64 bits. *)
Definition lnot (x : Z) : Z := modulus - 1 - x.

(** The value of [(double)x] for an unsigned 64-bit [x]: exact below
    [2^53], otherwise rounded to 53 significant bits, ties to even.  The
    result is always an integer. *)
Definition to_double (x : Z) : Z :=
  if x <? 2 ^ 53 then x
  else
    let e := Z.log2 x - 52 in
    let q := x / 2 ^ e in
    let r := x mod 2 ^ e in
    let h := 2 ^ (e - 1) in
    if r <? h then q * 2 ^ e
    else if h <? r then (q + 1) * 2 ^ e
         else if Z.even q then q * 2 ^ e else (q + 1) * 2 ^ e.

(** [ceil((double)x / K) * K] converted back to [size_t], for [K] a power
    of two: division, [ceil] and the product are exact in double
    precision; the conversion is undefined when the product does not fit
    64 bits. *)
Definition ceil_mul (K x : Z) : option Z :=
  let d := to_double x in
  let v := ((d + K - 1) / K) * K in
  if v <? modulus then Some v else None.

End Word64.
Import Word64.

(** ** Macro definitions *)

Definition TYPE_SIZE : Z := 8.
Definition ALLOC : Z := 1.
Definition FREE : Z := 0.
Definition STATUS_MASK : Z := 7.
Definition SIZE_MASK : Z := lnot STATUS_MASK.
Definition CHUNKSIZE : Z := 1 * Z.shiftl 1 12.
Definition BS : Z := 32.
Definition INITCHUNK : Z := Z.shiftl CHUNKSIZE 4.
Definition NULL : Z := 0.
(** [(void* )-1], the provider's error value. *)
Definition SBRK_FAILED : Z := modulus - 1.

Definition PREV_PTR (p : Z) : Z := wrap (p - TYPE_SIZE).
Definition NEXT_PTR (p : Z) : Z := wrap (p + TYPE_SIZE).
Definition PACK (size status : Z) : Z := Z.lor size status.
Definition SIZE (v : Z) : Z := Z.land v SIZE_MASK.
Definition STATUS (v : Z) : Z := Z.land v STATUS_MASK.

(** ** Byte-addressed memory *)

(** The address space is flat: a read or write outside the data segment is
    a read or write like any other, not a fault. *)

Definition mem : Type := Z -> byte.

Definition load_bytes (m : mem) (p : Z) (n : nat) : list byte :=
  map (fun i => m (p + Z.of_nat i)) (seq 0 n).

Definition store_bytes (m : mem) (p : Z) (bs : list byte) : mem :=
  fun a =>
    if (p <=? a) && (a <? p + Z.of_nat (List.length bs))
    then nth (Z.to_nat (a - p)) bs (m a)
    else m a.

(** [GET]: the little-endian word at [p]. *)
Definition GET (m : mem) (p : Z) : Z := le_combine (load_bytes m p 8).
(** [PUT]: write the word [v] at [p]. *)
Definition PUT (m : mem) (p v : Z) : mem := store_bytes m p (le_split 8 v).

Definition GET_SIZE (m : mem) (p : Z) : Z := SIZE (GET m p).
Definition GET_STATUS (m : mem) (p : Z) : Z := STATUS (GET m p).
Definition END (m : mem) (p : Z) : Z := PREV_PTR (wrap (p + GET_SIZE m p)).
Definition START (m : mem) (p : Z) : Z := NEXT_PTR (wrap (p - GET_SIZE m p)).

(** [memcpy(dst, src, n)] and [memset(dst, c, n)]. *)
Definition memcpy (m : mem) (dst src n : Z) : mem :=
  fun a => if (dst <=? a) && (a <? dst + n) then m (src + (a - dst)) else m a.
Definition memset (m : mem) (dst c n : Z) : mem :=
  fun a => if (dst <=? a) && (a <? dst + n) then byte.of_Z c else m a.

(** ** The data segment provider (dataseg) *)

(** Modelled from the spec: the dataseg module ([ds_heap_stat],
    [ds_getpagesize], [ds_sbrk]) is not part of the sources.  The provider
    owns a contiguous region [ds_base .. ds_cur) that may extend up to
    [ds_max]; it reports its bounds and page size, and adjusts the break by a
    signed number of bytes, answering the new break or the error value. *)
Record dataseg : Type := mkDataseg {
  ds_base : Z;
  ds_cur : Z;
  ds_max : Z;
  ds_pagesize : Z
}.

Definition ds_sbrk (d : dataseg) (delta : Z) : dataseg * Z :=
  let nb := ds_cur d + delta in
  if (ds_base d <=? nb) && (nb <=? ds_max d)
  then (mkDataseg (ds_base d) nb (ds_max d) (ds_pagesize d), nb)
  else (d, SBRK_FAILED).

Definition ds_heap_stat (d : dataseg) : Z * Z := (ds_base d, ds_cur d).
Definition ds_getpagesize (d : dataseg) : Z := ds_pagesize d.

(** ** Global variables *)

(** The three block-selection functions a [get_free_block] pointer can hold. *)
Inductive locator : Type := first_fit | next_fit | best_fit.

(** [AllocationPolicy] of memmgr.h; an [enum] can carry any other integer. *)
Inductive AllocationPolicy : Type :=
| ap_FirstFit
| ap_NextFit
| ap_BestFit
| ap_invalid (n : Z).

(** Calls that leave the module: the provider and the C library. *)
Inductive event : Type :=
| EvSbrk (increment result : Z)
| EvMemcpy (dst src n : Z)
| EvMemset (dst c n : Z).

Record state : Type := mkState {
  memory : mem;                       (* the address space *)
  dseg : dataseg;                     (* the provider's own state *)
  ds_heap_start : Z;
  ds_heap_brk : Z;
  heap_start : Z;
  heap_end : Z;
  next_block : Z;
  PAGESIZE : Z;
  get_free_block : option locator;    (* [None] is the NULL function pointer *)
  mm_initialized : Z;
  mm_loglevel : Z;
  calls : list event                  (* most recent call first *)
}.

Definition set_memory (m : mem) (s : state) : state :=
  mkState m (dseg s) (ds_heap_start s) (ds_heap_brk s) (heap_start s) (heap_end s)
          (next_block s) (PAGESIZE s) (get_free_block s) (mm_initialized s)
          (mm_loglevel s) (calls s).
Definition set_next_block (p : Z) (s : state) : state :=
  mkState (memory s) (dseg s) (ds_heap_start s) (ds_heap_brk s) (heap_start s) (heap_end s)
          p (PAGESIZE s) (get_free_block s) (mm_initialized s)
          (mm_loglevel s) (calls s).
Definition set_heap_end (p : Z) (s : state) : state :=
  mkState (memory s) (dseg s) (ds_heap_start s) (ds_heap_brk s) (heap_start s) p
          (next_block s) (PAGESIZE s) (get_free_block s) (mm_initialized s)
          (mm_loglevel s) (calls s).
Definition set_ds_heap_brk (p : Z) (s : state) : state :=
  mkState (memory s) (dseg s) (ds_heap_start s) p (heap_start s) (heap_end s)
          (next_block s) (PAGESIZE s) (get_free_block s) (mm_initialized s)
          (mm_loglevel s) (calls s).
Definition set_get_free_block (f : option locator) (s : state) : state :=
  mkState (memory s) (dseg s) (ds_heap_start s) (ds_heap_brk s) (heap_start s) (heap_end s)
          (next_block s) (PAGESIZE s) f (mm_initialized s)
          (mm_loglevel s) (calls s).
Definition set_mm_loglevel (l : Z) (s : state) : state :=
  mkState (memory s) (dseg s) (ds_heap_start s) (ds_heap_brk s) (heap_start s) (heap_end s)
          (next_block s) (PAGESIZE s) (get_free_block s) (mm_initialized s)
          l (calls s).
Definition log_call (e : event) (s : state) : state :=
  mkState (memory s) (dseg s) (ds_heap_start s) (ds_heap_brk s) (heap_start s) (heap_end s)
          (next_block s) (PAGESIZE s) (get_free_block s) (mm_initialized s)
          (mm_loglevel s) (e :: calls s).

(** [ds_sbrk(increment)] as the allocator calls it: the argument is read as
    [intptr_t], the provider's state changes, the call is recorded. *)
Definition call_ds_sbrk (increment : Z) (s : state) : Z * state :=
  let '(d, r) := ds_sbrk (dseg s) (to_signed increment) in
  (r, log_call (EvSbrk (to_signed increment) r)
        (mkState (memory s) d (ds_heap_start s) (ds_heap_brk s) (heap_start s)
                 (heap_end s) (next_block s) (PAGESIZE s) (get_free_block s)
                 (mm_initialized s) (mm_loglevel s) (calls s))).

(** [ds_sbrk(increment); brk = ds_sbrk(0);]: the way the allocator moves the
    break and learns where it is.  Only the second result is kept. *)
Definition move_break (increment : Z) (s : state) : Z * state :=
  let '(_, s) := call_ds_sbrk increment s in
  call_ds_sbrk 0 s.

(** The process before [mm_init]: every global at its initialiser. *)
Definition boot (m : mem) (d : dataseg) : state :=
  mkState m d NULL NULL NULL NULL NULL 0 None 0 0 [].

(** ** Outcomes of a call *)

Inductive outcome (A : Type) : Type :=
| Ret (a : A) (s : state)            (* the call returns *)
| AssertionFailed                     (* [assert] aborts the process *)
| Panicked (func msg : string)        (* [PANIC]: message, then [exit] *)
| Undefined                           (* no defined C behaviour *)
| OutOfFuel.                          (* a loop did not finish in the given steps *)
Arguments Ret {A} a s.
Arguments AssertionFailed {A}.
Arguments Panicked {A} func msg.
Arguments Undefined {A}.
Arguments OutOfFuel {A}.

Definition bind {A B : Type} (c : outcome A) (k : A -> state -> outcome B) : outcome B :=
  match c with
  | Ret a s => k a s
  | AssertionFailed => AssertionFailed
  | Panicked f msg => Panicked f msg
  | Undefined => Undefined
  | OutOfFuel => OutOfFuel
  end.

Notation "'call' ( x , s ) <- c ;; k" := (bind c (fun x s => k))
  (at level 10, x name, s name, c at level 100, k at level 200).

(** ** Block allocation policies *)

(** The [while (p < heap_end)] loop of [ff_get_free_block]; the result is
    the value of [p] when the loop is left. *)
Fixpoint ff_scan (fuel : nat) (m : mem) (he size p : Z) : option Z :=
  match fuel with
  | O => None
  | S fuel' =>
      if p <? he then
        if (GET_STATUS m p =? FREE) && (size <=? GET_SIZE m p) then Some p
        else ff_scan fuel' m he size (wrap (p + GET_SIZE m p))
      else Some p
  end.

Definition ff_get_free_block (fuel : nat) (size : Z) (s : state) : outcome Z :=
  if mm_initialized s =? 0 then AssertionFailed
  else
    match ff_scan fuel (memory s) (heap_end s) size (heap_start s) with
    | None => OutOfFuel
    | Some p =>
        if (heap_end s <=? p) || (GET_STATUS (memory s) p =? ALLOC)
        then Ret NULL s
        else Ret p s
    end.

(** The [do ... while (p != next_block)] loop of [nf_get_free_block], entered
    at [p]; the result is the value of [p] when the loop is left. *)
Fixpoint nf_scan (fuel : nat) (m : mem) (hs nb size p : Z) : option Z :=
  match fuel with
  | O => None
  | S fuel' =>
      if (GET_STATUS m p =? FREE) && (size <=? GET_SIZE m p) then Some p
      else
        let p' := if 0 <? GET_SIZE m p then wrap (p + GET_SIZE m p) else hs in
        if p' =? nb then Some p' else nf_scan fuel' m hs nb size p'
  end.

Definition nf_get_free_block (fuel : nat) (size : Z) (s : state) : outcome Z :=
  if mm_initialized s =? 0 then AssertionFailed
  else
    match nf_scan fuel (memory s) (heap_start s) (next_block s) size (next_block s) with
    | None => OutOfFuel
    | Some p =>
        if (p =? next_block s)
           && ((GET_STATUS (memory s) p =? ALLOC) || (GET_SIZE (memory s) p <? size))
        then Ret NULL s
        else Ret p (set_next_block p s)
    end.

(** The [while (p < heap_end)] loop of [bf_get_free_block]; the result is
    the value of [best] when the loop is left. *)
Fixpoint bf_scan (fuel : nat) (m : mem) (he size p best : Z) : option Z :=
  match fuel with
  | O => None
  | S fuel' =>
      if p <? he then
        let best' :=
          if (GET_STATUS m p =? FREE) && (size <=? GET_SIZE m p) then
            if (best =? NULL) || (GET_SIZE m p <? GET_SIZE m best) then p else best
          else best in
        bf_scan fuel' m he size (wrap (p + GET_SIZE m p)) best'
      else Some best
  end.

Definition bf_get_free_block (fuel : nat) (size : Z) (s : state) : outcome Z :=
  if mm_initialized s =? 0 then AssertionFailed
  else
    match bf_scan fuel (memory s) (heap_end s) size (heap_start s) NULL with
    | None => OutOfFuel
    | Some best => Ret best s
    end.

(** A call through the [get_free_block] pointer. *)
Definition call_get_free_block (fuel : nat) (size : Z) (s : state) : outcome Z :=
  match get_free_block s with
  | Some first_fit => ff_get_free_block fuel size s
  | Some next_fit => nf_get_free_block fuel size s
  | Some best_fit => bf_get_free_block fuel size s
  | None => Undefined
  end.

(** ** Initialisation *)

Definition mm_init (ap : AllocationPolicy) (s : state) : outcome unit :=
  match
    match ap with
    | ap_FirstFit => Some first_fit
    | ap_NextFit => Some next_fit
    | ap_BestFit => Some best_fit
    | ap_invalid _ => None
    end
  with
  | None => Panicked "mm_init" "Invalid allocation policy."
  | Some f =>
      let s := set_get_free_block (Some f) s in
      let '(start, brk) := ds_heap_stat (dseg s) in
      let pagesize := ds_getpagesize (dseg s) in
      if start =? NULL then Panicked "mm_init" "Data segment not initialized."
      else if negb (start =? brk) then Panicked "mm_init" "Heap not clean."
      else if pagesize =? 0 then Panicked "mm_init" "Reported pagesize == 0."
      else
        let '(brk, s) := move_break INITCHUNK s in
        if brk =? SBRK_FAILED then Panicked "mm_init" "Cannot extend heap."
        else
          let hs := wrap (start + BS) / BS * BS in
          let m := PUT (memory s) (PREV_PTR hs) (PACK 0 ALLOC) in
          let he := wrap (brk - 1) / BS * BS in
          let m := PUT m he (PACK 0 ALLOC) in
          let size := wrap (he - hs) in
          let bdrtag := PACK size FREE in
          let m := PUT m hs bdrtag in
          let m := PUT m (PREV_PTR he) bdrtag in
          Ret tt (mkState m (dseg s) start brk hs he hs pagesize (Some f) 1
                          (mm_loglevel s) (calls s))
  end.

(** ** Allocation *)

(** The [if (start_alloc == NULL)] branch of [mm_malloc]: extend the data
    segment and build the new last block.  The results of [ds_sbrk] are used
    as they come; nothing compares them with the error value. *)
Definition expand_heap (req_size : Z) (s : state) : outcome Z :=
  let p := heap_end s in
  let size :=
    if GET_STATUS (memory s) (PREV_PTR p) =? FREE
    then GET_SIZE (memory s) (PREV_PTR p) else 0 in
  match ceil_mul CHUNKSIZE (wrap (req_size - size + 1)) with
  | None => Undefined
  | Some chunk_size =>
      let chunk_size := if chunk_size <? INITCHUNK then INITCHUNK else chunk_size in
      let '(brk, s) := move_break chunk_size s in
      let s := set_ds_heap_brk brk s in
      let he := wrap (brk - 1) / BS * BS in
      let s := set_heap_end he s in
      let size := wrap (size + wrap (he - p)) in
      let start_alloc := wrap (he - size) in
      let bdrtag := PACK size FREE in
      let m := PUT (memory s) start_alloc bdrtag in
      let m := PUT m (PREV_PTR he) bdrtag in
      let m := PUT m he (PACK 0 ALLOC) in
      Ret start_alloc (set_next_block start_alloc (set_memory m s))
  end.

(** [req_size] of [mm_malloc]: [ceil((double)(size + 2*TYPE_SIZE) / BS) * BS]. *)
Definition req_size_of (size : Z) : option Z :=
  ceil_mul BS (wrap (size + 2 * TYPE_SIZE)).

(** The end of [mm_malloc]: the first [req_size] bytes of the block at
    [start_alloc] become an allocated block, what is left of it, if anything,
    a free block; answers the payload address. *)
Definition place (start_alloc req_size : Z) (s : state) : outcome Z :=
  let m := memory s in
  let prev_size := GET_SIZE m start_alloc in
  let end_alloc := PREV_PTR (wrap (start_alloc + req_size)) in
  let bdrtag_alloc := PACK req_size ALLOC in
  let m := PUT m start_alloc bdrtag_alloc in
  let m := PUT m end_alloc bdrtag_alloc in
  let cur_size := wrap (prev_size - req_size) in
  let m :=
    if cur_size =? 0 then m
    else
      let start_free := wrap (start_alloc + req_size) in
      let end_free := PREV_PTR (wrap (start_free + cur_size)) in
      let bdrtag_free := PACK cur_size FREE in
      let m := PUT m start_free bdrtag_free in
      PUT m end_free bdrtag_free in
  Ret (wrap (start_alloc + TYPE_SIZE)) (set_memory m s).

Definition mm_malloc (fuel : nat) (size : Z) (s : state) : outcome Z :=
  if mm_initialized s =? 0 then AssertionFailed
  else
    match req_size_of size with
    | None => Undefined
    | Some req_size =>
        call (start_alloc, s) <- call_get_free_block fuel req_size s ;;
        call (start_alloc, s) <-
          (if start_alloc =? NULL then expand_heap req_size s else Ret start_alloc s) ;;
        place start_alloc req_size s
    end.

Definition mm_calloc (fuel : nat) (nmemb size : Z) (s : state) : outcome Z :=
  if mm_initialized s =? 0 then AssertionFailed
  else
    call (payload, s) <- mm_malloc fuel (wrap (nmemb * size)) s ;;
    if payload =? NULL then Ret payload s
    else
      let n := wrap (nmemb * size) in
      Ret payload (log_call (EvMemset payload 0 n)
                     (set_memory (memset (memory s) payload 0 n) s)).

(** ** Release *)

(** The heap-shrinking part of [mm_free], reached when the block merged with
    its successor ends at the end sentinel. *)
Definition shrink_heap (s : state) : state :=
  let m := memory s in
  let p := PREV_PTR (heap_end s) in
  let size := if GET_STATUS m p =? FREE then GET_SIZE m p else 0 in
  let s := set_next_block (START m p) s in
  let chunk_size :=
    if INITCHUNK <? size then wrap ((wrap (size - INITCHUNK) / CHUNKSIZE) * CHUNKSIZE)
    else 0 in
  if chunk_size =? 0 then s
  else
    let last_block := START m (PREV_PTR (heap_end s)) in
    let '(brk, s) := move_break (wrap (- chunk_size)) s in
    let s := set_ds_heap_brk brk s in
    let he := wrap (brk - 1) / BS * BS in
    let s := set_heap_end he s in
    let size := wrap (he - last_block) in
    let bdrtag := PACK size FREE in
    let m := PUT (memory s) last_block bdrtag in
    let m := PUT m (PREV_PTR he) bdrtag in
    let m := PUT m he (PACK 0 ALLOC) in
    set_next_block last_block (set_memory m s).

(** The start of [mm_free]: the block at [ptr] gets a FREE tag in its
    header and footer. *)
Definition mark_free (ptr : Z) (s : state) : state :=
  let m := memory s in
  let bdrtag := PACK (GET_SIZE m ptr) FREE in
  let m := PUT m ptr bdrtag in
  let m := PUT m (END m ptr) bdrtag in
  set_memory m s.

(** "preceeding free block": merge with the block before [ptr] when it is
    FREE; answers the header the release goes on with. *)
Definition merge_preceding (ptr : Z) (s : state) : Z * state :=
  let m := memory s in
  if negb (ptr =? heap_start s) && (GET_STATUS m (PREV_PTR ptr) =? FREE) then
    let prev_ptr := START m (PREV_PTR ptr) in
    let size := wrap (GET_SIZE m prev_ptr + GET_SIZE m ptr) in
    let bdrtag := PACK size FREE in
    let m := PUT m prev_ptr bdrtag in
    let m := PUT m (END m prev_ptr) bdrtag in
    (prev_ptr, set_next_block prev_ptr (set_memory m s))
  else (ptr, s).

(** "succeeding free block": merge with the block after [ptr] when it is
    FREE, and shrink the heap when the merged block ends at the end
    sentinel. *)
Definition merge_succeeding (ptr : Z) (s : state) : state :=
  let m := memory s in
  if negb (NEXT_PTR (END m ptr) =? heap_end s)
     && (GET_STATUS m (NEXT_PTR (END m ptr)) =? FREE) then
    let next_ptr := NEXT_PTR (END m ptr) in
    let bdrtag := PACK (wrap (GET_SIZE m next_ptr + GET_SIZE m ptr)) FREE in
    let m := PUT m ptr bdrtag in
    let m := PUT m (END m ptr) bdrtag in
    let s := set_next_block next_ptr (set_memory m s) in
    if END m ptr =? PREV_PTR (heap_end s) then shrink_heap s else s
  else s.

Definition mm_free (ptr : Z) (s : state) : outcome unit :=
  if ptr =? NULL then Ret tt s
  else if mm_initialized s =? 0 then AssertionFailed
  else
    let ptr := PREV_PTR ptr in
    let s := mark_free ptr s in
    let '(ptr, s) := merge_preceding ptr s in
    Ret tt (merge_succeeding ptr s).

(** ** Reallocation *)

Definition mm_realloc (fuel : nat) (ptr size : Z) (s : state) : outcome Z :=
  if mm_initialized s =? 0 then AssertionFailed
  else if ptr =? NULL then mm_malloc fuel size s
  else
    call (_, s) <- mm_free ptr s ;;
    let prev_get_free_block := get_free_block s in
    let prev_next_block := next_block s in
    let s := set_next_block (PREV_PTR ptr) (set_get_free_block (Some next_fit) s) in
    call (new_ptr, s) <- mm_malloc fuel size s ;;
    let s :=
      if new_ptr =? ptr then s
      else
        let n := wrap (GET_SIZE (memory s) (next_block s) - 2 * TYPE_SIZE) in
        log_call (EvMemcpy new_ptr ptr n)
          (set_memory (memcpy (memory s) new_ptr ptr n) s) in
    Ret new_ptr (set_next_block prev_next_block (set_get_free_block prev_get_free_block s)).

(** ** Log level and consistency report *)

Definition mm_setloglevel (level : Z) (s : state) : outcome unit :=
  Ret tt (set_mm_loglevel level s).

(** One line of the block listing of [mm_check]: the block's address, size
    and status, and the footer's size and status when they differ. *)
Record check_line : Type := mkLine {
  line_addr : Z;
  line_size : Z;
  line_status : Z;
  line_error : option (Z * Z * Z)
}.

Record check_report : Type := mkReport {
  report_lines : list check_line;
  report_aborted : bool;      (* the size-0 warning was printed *)
  report_coherent : bool      (* "Block structure coherent." was printed *)
}.

(** The block walk of [mm_check]: lines printed so far (latest first), the
    error count, the final [p], and whether the walk was aborted. *)
Fixpoint check_walk (fuel : nat) (m : mem) (he p errors : Z) (acc : list check_line)
  : option (list check_line * Z * Z * bool) :=
  match fuel with
  | O => None
  | S fuel' =>
      if p <? he then
        let hdr := GET m p in
        let size := SIZE hdr in
        let status := STATUS hdr in
        let fp := wrap (wrap (p + size) - TYPE_SIZE) in
        let ftr := GET m fp in
        let fsize := SIZE ftr in
        let fstatus := STATUS ftr in
        let bad := negb (size =? fsize) || negb (status =? fstatus) in
        let errors := if bad then errors + 1 else errors in
        let line := mkLine p size status (if bad then Some (fp, fsize, fstatus) else None) in
        let p := wrap (p + size) in
        if size =? 0 then Some (line :: acc, errors, p, true)
        else check_walk fuel' m he p errors (line :: acc)
      else Some (acc, errors, p, false)
  end.

Definition mm_check (fuel : nat) (s : state) : outcome check_report :=
  if mm_initialized s =? 0 then AssertionFailed
  else
    match check_walk fuel (memory s) (heap_end s) (heap_start s) 0 [] with
    | None => OutOfFuel
    | Some (acc, errors, p, aborted) =>
        Ret (mkReport (rev acc) aborted ((p =? heap_end s) && (errors =? 0))) s
    end.

(** ** Reading a heap: blocks, well-formedness *)

Record block : Type := mkBlock {
  b_addr : Z;      (* address of the header *)
  b_size : Z;
  b_status : Z
}.

(** The blocks met by following headers from [p] until [e] is reached or
    passed; [None] when a header of size 0 is met, an address leaves the 64-bit
    range, or the steps run out. *)
Fixpoint heap_walk (fuel : nat) (m : mem) (p e : Z) : option (list block) :=
  match fuel with
  | O => None
  | S fuel' =>
      if p <? e then
        let sz := GET_SIZE m p in
        if (0 <? sz) && (p + sz <? modulus) then
          match heap_walk fuel' m (p + sz) e with
          | Some bl => Some (mkBlock p sz (GET_STATUS m p) :: bl)
          | None => None
          end
        else None
      else Some []
  end.

Definition heap_blocks (fuel : nat) (s : state) : option (list block) :=
  heap_walk fuel (memory s) (heap_start s) (heap_end s).

(** Two neighbours in the list are both FREE. *)
Fixpoint adjacent_free (bl : list block) : bool :=
  match bl with
  | b1 :: (b2 :: _) as tl =>
      ((b_status b1 =? FREE) && (b_status b2 =? FREE)) || adjacent_free tl
  | _ => false
  end.

(** A block as the data model wants it: size a multiple of 32 and at least
    32, status FREE or ALLOC, footer equal to header, inside the heap. *)
Definition block_ok (m : mem) (he : Z) (b : block) : bool :=
  (BS <=? b_size b) && (b_size b mod BS =? 0)
  && ((b_status b =? FREE) || (b_status b =? ALLOC))
  && (GET m (b_addr b + b_size b - TYPE_SIZE) =? GET m (b_addr b))
  && (b_addr b + b_size b <=? he).

(** [b] is FREE and has room for [size] bytes. *)
Definition fits (size : Z) (b : block) : Prop :=
  b_status b = FREE /\ size <= b_size b.

(** What the best-fit policy is to answer on the blocks [bl]: NULL when no
    block fits; otherwise the header of a fitting block that is strictly
    smaller than every fitting block before it and no larger than any
    fitting block after it. *)
Definition best_fit_answer (bl : list block) (size r : Z) : Prop :=
  (r = NULL /\ forall b, In b bl -> ~ fits size b)
  \/ (exists pre b post,
        bl = pre ++ b :: post /\ r = b_addr b /\ fits size b
        /\ (forall b', In b' pre -> fits size b' -> b_size b < b_size b')
        /\ (forall b', In b' post -> fits size b' -> b_size b <= b_size b')).

(** [round_up(x, 32)]. *)
Definition round_up_BS (x : Z) : Z := (x + BS - 1) / BS * BS.

(** What a call returned, and the state it left. *)
Definition returned {A : Type} (o : outcome A) : option A :=
  match o with Ret a _ => Some a | _ => None end.
Definition final {A : Type} (o : outcome A) : option state :=
  match o with Ret _ s => Some s | _ => None end.

(** ** Sample runs *)

Definition zero_memory : mem := fun _ => Byte.x00.

(** A clean data segment at address 65536 with [room] bytes to grow into. *)
Definition sample_dataseg (room : Z) : dataseg :=
  mkDataseg 65536 65536 (65536 + room) 4096.

Definition fresh_heap (ap : AllocationPolicy) (room : Z) : outcome unit :=
  mm_init ap (boot zero_memory (sample_dataseg room)).

(** Two 16-byte allocations on a fresh first-fit heap; answers the first. *)
Definition two_small_blocks : outcome Z :=
  call (_, s) <- fresh_heap ap_FirstFit (2 ^ 30) ;;
  call (a, s) <- mm_malloc 8 16 s ;;
  call (_, s) <- mm_malloc 8 16 s ;;
  Ret a s.

(** Three 16-byte allocations on a fresh heap; answers the three pointers. *)
Definition three_small_blocks (ap : AllocationPolicy) : outcome (Z * Z * Z) :=
  call (_, s) <- fresh_heap ap (2 ^ 30) ;;
  call (a, s) <- mm_malloc 8 16 s ;;
  call (b, s) <- mm_malloc 8 16 s ;;
  call (c, s) <- mm_malloc 8 16 s ;;
  Ret (a, b, c) s.

(** Next fit: release the second block, then the first, allocate 16 bytes
    again; answers the third block of [three_small_blocks]. *)
Definition stale_cursor_run : outcome Z :=
  call (abc, s) <- three_small_blocks ap_NextFit ;;
  let '(a, b, c) := abc in
  call (_, s) <- mm_free b s ;;
  call (_, s) <- mm_free a s ;;
  call (_, s) <- mm_malloc 8 16 s ;;
  Ret c s.

(** A heap whose first block takes the whole initial chunk, followed by a
    block of 70016 bytes and one of 3712 bytes that ends at the end
    sentinel; answers the last two pointers. *)
Definition full_tail_run : outcome (Z * Z) :=
  call (_, s) <- fresh_heap ap_FirstFit (2 ^ 30) ;;
  call (_, s) <- mm_malloc 8 65456 s ;;
  call (b, s) <- mm_malloc 8 70000 s ;;
  call (c, s) <- mm_malloc 8 3696 s ;;
  Ret (b, c) s.

(** A fresh heap on a provider that has no room beyond the initial chunk. *)
Definition exhausted_provider : outcome unit := fresh_heap ap_FirstFit INITCHUNK.

(** The negative increments passed to [ds_sbrk], most recent first. *)
Definition shrink_calls (s : state) : list Z :=
  flat_map (fun e => match e with
                     | EvSbrk d _ => if d <? 0 then [d] else []
                     | _ => []
                     end) (calls s).

(** ** Local shape of the heap around a block *)

(** A block of [sz] bytes with status [st] sits at [p]: header and footer
    carry that tag, the size is a multiple of 8 and holds two tags. *)
Definition block_at (m : mem) (p sz st : Z) : bool :=
  (GET m p =? PACK sz st) && (GET m (p + sz - TYPE_SIZE) =? PACK sz st)
  && (2 * TYPE_SIZE <=? sz) && (sz mod 8 =? 0)
  && ((st =? FREE) || (st =? ALLOC)).

(** What precedes the block at [hdr]: nothing ([hdr] is [heap_start]) or a
    block of the given size and status inside the heap. *)
Definition neighbour_before (s : state) (hdr : Z) (prev : option (Z * Z)) : bool :=
  match prev with
  | None => hdr =? heap_start s
  | Some (szp, stp) =>
      (heap_start s <=? hdr - szp) && block_at (memory s) (hdr - szp) szp stp
  end.

(** What follows a block that ends at [e]: nothing ([e] is [heap_end]) or a
    block of the given size and status inside the heap. *)
Definition neighbour_after (s : state) (e : Z) (next : option (Z * Z)) : bool :=
  match next with
  | None => e =? heap_end s
  | Some (szn, stn) =>
      (e + szn <=? heap_end s) && block_at (memory s) e szn stn
  end.

Definition is_free (nb : option (Z * Z)) : bool :=
  match nb with Some (_, st) => st =? FREE | None => false end.
Definition free_size (nb : option (Z * Z)) : Z :=
  match nb with Some (sz, st) => if st =? FREE then sz else 0 | None => 0 end.

(** The heap ends on the last 32-byte boundary below the provider's break,
    and the break is inside the provider's region, in the lower half of the
    address space (an increment is a signed word). *)
Definition segment_ok (s : state) : bool :=
  (ds_base (dseg s) <=? ds_cur (dseg s)) && (ds_cur (dseg s) <=? ds_max (dseg s))
  && (0 <? ds_cur (dseg s)) && (ds_cur (dseg s) <? 2 ^ 63)
  && (heap_end s =? wrap (ds_cur (dseg s) - 1) / BS * BS).

(** The heap between two public calls, as the data model describes it: the
    blocks tile [heap_start .. heap_end), the end sentinel is an allocated tag
    of size 0, the cursor is the header of a block, and the heap sits in the
    provider's segment. *)
Definition heap_ok (fuel : nat) (s : state) : bool :=
  match heap_blocks fuel s with
  | None => false
  | Some bl =>
      forallb (block_ok (memory s) (heap_end s)) bl
      && (TYPE_SIZE <=? heap_start s) && (heap_start s mod TYPE_SIZE =? 0)
      && (heap_start s <? heap_end s)
      && (GET (memory s) (heap_end s) =? PACK 0 ALLOC)
      && existsb (fun b => b_addr b =? next_block s) bl
      && segment_ok s
  end.

(** The blocks [bl] lie one after the other from [p] to [e], each with the
    size and status its header carries. *)
Fixpoint tiled (m : mem) (p : Z) (bl : list block) (e : Z) : Prop :=
  match bl with
  | [] => p = e
  | b :: bl' =>
      b_addr b = p /\ b_size b = GET_SIZE m p /\ b_status b = GET_STATUS m p
      /\ tiled m (p + b_size b) bl' e
  end.

(** The memory after [PUT(a, v); PUT(a + n - 8, v)]: the block of [n] bytes
    at [a] gets the tag [v] in its header and footer. *)
Definition retag (m : mem) (a n v : Z) : mem := PUT (PUT m a v) (a + n - 8) v.

(** The header the release goes on with after looking at the preceding
    block, and the size of the block there. *)
Definition merged_start (hdr : Z) (prev : option (Z * Z)) : Z := hdr - free_size prev.
Definition merged_size (sz : Z) (prev : option (Z * Z)) : Z := free_size prev + sz.

(** What [bf_scan] knows about [best] after the blocks [pre]. *)
Definition bf_inv (m : mem) (size : Z) (pre : list block) (best : Z) : Prop :=
  (best = NULL /\ forall b, In b pre -> ~ fits size b)
  \/ (best <> NULL
      /\ exists pre1 b pre2,
          pre = pre1 ++ b :: pre2 /\ best = b_addr b /\ GET_SIZE m best = b_size b
          /\ fits size b
          /\ (forall b', In b' pre1 -> fits size b' -> b_size b < b_size b')
          /\ (forall b', In b' pre2 -> fits size b' -> b_size b <= b_size b')).

(** The state a run ends in (the process as it starts when the run did not
    return). *)
Definition state_of {A : Type} (o : outcome A) : state :=
  match o with
  | Ret _ s => s
  | _ => boot zero_memory (sample_dataseg 0)
  end.

(** [three_small_blocks] under first fit with the first block released: a
    free block of 32 bytes at 65568, then allocated blocks at 65600, 65632. *)
Definition first_released : state :=
  state_of (call (abc, s) <- three_small_blocks ap_FirstFit ;;
            let '(a, _, _) := abc in mm_free a s).

(** A best-fit heap with free blocks of 64, 32 and 32 bytes between
    allocated ones, before the large free block at the end. *)
Definition best_fit_sample : state :=
  state_of (call (_, s) <- fresh_heap ap_BestFit (2 ^ 30) ;;
            call (a, s) <- mm_malloc 8 48 s ;;
            call (_, s) <- mm_malloc 8 16 s ;;
            call (c, s) <- mm_malloc 8 16 s ;;
            call (_, s) <- mm_malloc 8 16 s ;;
            call (e, s) <- mm_malloc 8 16 s ;;
            call (_, s) <- mm_malloc 8 16 s ;;
            call (_, s) <- mm_free a s ;;
            call (_, s) <- mm_free c s ;;
            mm_free e s).

(** What a block-selection function is to answer on the blocks [bl]: the
    header of a FREE block with room for [size] bytes, or NULL, and then the
    last block of the heap has no room. *)
Definition locator_answer (bl : list block) (size r : Z) : Prop :=
  (exists b, In b bl /\ b_addr b = r /\ fits size b)
  \/ (r = NULL /\ forall pre b, bl = pre ++ [b] -> ~ fits size b).

(** [three_small_blocks] under next fit: three allocated blocks of 32 bytes,
    the rest of the initial chunk free, the cursor on the third block. *)
Definition three_allocated : state := state_of (three_small_blocks ap_NextFit).

(** [full_tail_run] with its last two blocks released, the last one second:
    a trailing free block of 73728 bytes that the release did not shrink. *)
Definition tail_released : state :=
  state_of (call (bc, s) <- full_tail_run ;;
            let '(b, c) := bc in
            call (_, s) <- mm_free b s ;;
            mm_free c s).

(** ** First fit and next fit, as policies *)

(** What the first-fit policy is to answer on the blocks [bl], taken in
    the given order: NULL when no block fits, otherwise the header of the
    first block that fits. *)
Definition first_fit_answer (bl : list block) (size r : Z) : Prop :=
  (r = NULL /\ forall b, In b bl -> ~ fits size b)
  \/ (exists pre b post,
        bl = pre ++ b :: post /\ r = b_addr b /\ fits size b
        /\ forall b', In b' pre -> ~ fits size b').

(** What the next-fit policy is to answer when the cursor is [cursor]: the
    first-fit answer on the blocks taken from the cursor's block to the end
    of the heap and then from the start of the heap to the cursor. *)
Definition next_fit_answer (bl : list block) (cursor size r : Z) : Prop :=
  exists pre b post,
    bl = pre ++ b :: post /\ b_addr b = cursor
    /\ first_fit_answer ((b :: post) ++ pre) size r.

(** ** The consistency report, block by block *)

(** Header and footer of [b] carry the same size and status. *)
Definition tag_symmetric (m : mem) (b : block) : bool :=
  (b_size b =? GET_SIZE m (b_addr b + b_size b - TYPE_SIZE))
  && (b_status b =? GET_STATUS m (b_addr b + b_size b - TYPE_SIZE)).

(** The line [mm_check] is to print for the block [b]. *)
Definition line_of_block (m : mem) (b : block) : check_line :=
  let fp := b_addr b + b_size b - TYPE_SIZE in
  mkLine (b_addr b) (b_size b) (b_status b)
         (if tag_symmetric m b then None
          else Some (fp, GET_SIZE m fp, GET_STATUS m fp)).

(** Where a walk over the blocks [bl] that starts at [p] ends. *)
Definition walk_end (p : Z) (bl : list block) : Z :=
  fold_left (fun q b => q + b_size b) bl p.

(** ** Well-formed heaps *)

(** The heap of [s] consists of the blocks [bl]: they tile
    [heap_start .. heap_end), each is as the data model wants it, the end
    sentinel follows, and the heap sits in the provider's segment.  Nothing
    is said about the cursor. *)
Definition heap_wf (s : state) (bl : list block) : Prop :=
  tiled (memory s) (heap_start s) bl (heap_end s)
  /\ forallb (block_ok (memory s) (heap_end s)) bl = true
  /\ TYPE_SIZE <= heap_start s /\ heap_start s mod TYPE_SIZE = 0
  /\ heap_start s < heap_end s
  /\ GET (memory s) (heap_end s) = PACK 0 ALLOC
  /\ segment_ok s = true.

(** The cursor is the header of one of the blocks [bl]. *)
Definition cursor_in (s : state) (bl : list block) : bool :=
  existsb (fun b => b_addr b =? next_block s) bl.

(** The bytes of the block [b]. *)
Definition in_block (b : block) (a : Z) : Prop :=
  b_addr b <= a < b_addr b + b_size b.

(** The blocks that replace a FREE block of [prev] bytes at [start] when
    [req] bytes of it are allocated. *)
Definition carved (start req prev : Z) : list block :=
  mkBlock start req ALLOC
  :: (if prev - req =? 0 then [] else [mkBlock (start + req) (prev - req) FREE]).

(** ** The heap after a release *)

(** Size and status of the block just before a block that follows the
    blocks [pre], and of the block just after one that [post] follows. *)
Fixpoint last_tag (pre : list block) : option (Z * Z) :=
  match pre with
  | [] => None
  | bp :: tl =>
      match tl with
      | [] => Some (b_size bp, b_status bp)
      | _ => last_tag tl
      end
  end.
Definition first_tag (post : list block) : option (Z * Z) :=
  match post with
  | bn :: _ => Some (b_size bn, b_status bn)
  | [] => None
  end.

(** The blocks of a heap [pre ++ b :: post] after the block [b] at [hdr]
    was released: a FREE neighbour on either side disappears into one FREE
    block of [T] bytes. *)
Definition coalesced (pre post : list block) (hdr T : Z) : list block :=
  (if is_free (last_tag pre) then removelast pre else pre)
  ++ mkBlock (merged_start hdr (last_tag pre)) T FREE
  :: (if is_free (first_tag post) then tl post else post).

(** * Properties *)

(** ** Words, tags and memory *)

Lemma wrap_small x : 0 <= x < modulus -> wrap x = x.
Proof. intros; unfold wrap; apply Z.mod_small; lia. Qed.


Lemma STATUS_mod v : STATUS v = v mod 8.
Proof.
  unfold STATUS, STATUS_MASK. change 7 with (Z.ones 3).
  rewrite Z.land_ones by lia. reflexivity.
Qed.

Lemma testbit_above v l : 0 <= v < 2 ^ 64 -> 64 <= l -> Z.testbit v l = false.
Proof.
  intros Hv Hl. rewrite <- (Z.mod_small v (2 ^ 64)) by lia.
  apply Z.mod_pow2_bits_high; lia.
Qed.

Lemma SIZE_spec v : 0 <= v < modulus -> SIZE v = v - v mod 8.
Proof.
  intros Hv. unfold SIZE, SIZE_MASK, lnot, STATUS_MASK, modulus in *.
  change (2 ^ 64 - 1 - 7) with (Z.shiftl (Z.ones 61) 3).
  assert (H : Z.land v (Z.shiftl (Z.ones 61) 3) = Z.shiftl (Z.shiftr v 3) 3).
  { Z.bitblast. rewrite (testbit_above v l) by lia. reflexivity. }
  rewrite H. rewrite Z.shiftl_mul_pow2 by lia. rewrite Z.shiftr_div_pow2 by lia.
  change (2^3) with 8. pose proof (Z.div_mod v 8). lia.
Qed.

Lemma land_size_status size status :
  size mod 8 = 0 -> 0 <= status < 8 -> Z.land size status = 0.
Proof.
  intros Hm Hst. apply Z.bits_inj'. intros n Hn.
  rewrite Z.land_spec, Z.bits_0.
  destruct (Z_lt_dec n 3) as [Hlt|Hge].
  - rewrite <- (Z.mod_pow2_bits_low size 3 n) by lia.
    change (2 ^ 3) with 8. rewrite Hm, Z.bits_0. reflexivity.
  - rewrite <- (Z.mod_small status (2 ^ 3)) by (change (2 ^ 3) with 8; lia).
    rewrite Z.mod_pow2_bits_high by lia. apply andb_false_r.
Qed.

Lemma PACK_spec size status :
  size mod 8 = 0 -> 0 <= status < 8 -> PACK size status = size + status.
Proof.
  intros Hm Hst. unfold PACK.
  pose proof (land_size_status size status Hm Hst) as H.
  rewrite <- Z.lxor_lor by exact H. symmetry. apply Z.add_nocarry_lxor. exact H.
Qed.

Lemma SIZE_PACK size status :
  0 <= size < modulus -> size mod 8 = 0 -> 0 <= status < 8 ->
  SIZE (PACK size status) = size.
Proof.
  intros Hs Hm Hst. rewrite PACK_spec by lia.
  assert (size + status < modulus).
  { unfold modulus in *. pose proof (Z.div_mod size 8). pose proof (Z.div_mod (2^64) 8).
    change (2^64 mod 8) with 0 in *. change (2^64 / 8) with (2^61) in *.
    change (2^64) with (8 * 2^61) in *. lia. }
  rewrite SIZE_spec by lia.
  replace ((size + status) mod 8) with status; [lia|].
  rewrite Z.add_mod by lia. rewrite Hm. simpl. rewrite Z.mod_mod by lia. rewrite Z.mod_small; lia.
Qed.

Lemma STATUS_PACK size status :
  0 <= size -> size mod 8 = 0 -> 0 <= status < 8 ->
  STATUS (PACK size status) = status.
Proof.
  intros Hs Hm Hst. rewrite PACK_spec by lia. rewrite STATUS_mod.
  rewrite Z.add_mod by lia. rewrite Hm. simpl. rewrite Z.mod_mod by lia. rewrite Z.mod_small; lia.
Qed.

Lemma store_bytes_in m p bs a :
  p <= a < p + Z.of_nat (List.length bs) ->
  store_bytes m p bs a = nth (Z.to_nat (a - p)) bs (m a).
Proof.
  intros H. unfold store_bytes.
  replace (p <=? a) with true by (symmetry; apply Z.leb_le; lia).
  replace (a <? p + Z.of_nat (List.length bs)) with true by (symmetry; apply Z.ltb_lt; lia).
  reflexivity.
Qed.

Lemma store_bytes_out m p bs a :
  a < p \/ p + Z.of_nat (List.length bs) <= a -> store_bytes m p bs a = m a.
Proof.
  intros H. unfold store_bytes.
  destruct (p <=? a) eqn:E1; [|reflexivity].
  destruct (a <? p + Z.of_nat (List.length bs)) eqn:E2; [|reflexivity].
  apply Z.leb_le in E1. apply Z.ltb_lt in E2. lia.
Qed.

Lemma load_bytes_ext m m' p n :
  (forall a, p <= a < p + Z.of_nat n -> m' a = m a) ->
  load_bytes m' p n = load_bytes m p n.
Proof.
  intros H. unfold load_bytes. apply map_ext_in. intros i Hi.
  apply in_seq in Hi. apply H. lia.
Qed.

Lemma load_store_same m p bs :
  load_bytes (store_bytes m p bs) p (List.length bs) = bs.
Proof.
  unfold load_bytes.
  apply (nth_ext _ _ Byte.x00 Byte.x00).
  - rewrite length_map, length_seq. reflexivity.
  - intros n Hn. rewrite length_map, length_seq in Hn.
    rewrite (nth_indep _ Byte.x00 (store_bytes m p bs (p + Z.of_nat 0)))
      by (rewrite length_map, length_seq; exact Hn).
    rewrite (map_nth (fun i => store_bytes m p bs (p + Z.of_nat i))
               (seq 0 (List.length bs)) 0%nat n).
    rewrite seq_nth by exact Hn. simpl (0 + n)%nat.
    rewrite store_bytes_in by lia.
    replace (Z.to_nat (p + Z.of_nat n - p)) with n by lia.
    apply nth_indep. exact Hn.
Qed.

Lemma GET_PUT_same m p v : GET (PUT m p v) p = wrap v.
Proof.
  unfold GET, PUT.
  pose proof (load_store_same m p (le_split 8 v)) as H.
  rewrite length_le_split in H. rewrite H.
  rewrite le_combine_split. reflexivity.
Qed.

Lemma GET_ext m m' p :
  (forall a, p <= a < p + 8 -> m' a = m a) -> GET m' p = GET m p.
Proof.
  intros H. unfold GET. f_equal. apply load_bytes_ext. intros a Ha. apply H. lia.
Qed.

Lemma PUT_out m p v a : a < p \/ p + 8 <= a -> PUT m p v a = m a.
Proof.
  intros H. unfold PUT. apply store_bytes_out. rewrite length_le_split. lia.
Qed.

Lemma GET_PUT_other m p v q :
  q + 8 <= p \/ p + 8 <= q -> GET (PUT m p v) q = GET m q.
Proof.
  intros H. apply GET_ext. intros a Ha. apply PUT_out. lia.
Qed.

Lemma GET_range m p : 0 <= GET m p < modulus.
Proof.
  unfold GET. pose proof (le_combine_bound (load_bytes m p 8)) as H.
  unfold load_bytes in H. rewrite length_map, length_seq in H. exact H.
Qed.

Lemma SIZE_range v : 0 <= v < modulus -> 0 <= SIZE v <= v /\ SIZE v mod 8 = 0.
Proof.
  intros Hv. rewrite SIZE_spec by exact Hv.
  pose proof (Z.mod_pos_bound v 8 ltac:(lia)) as Hb.
  pose proof (Z.mod_le v 8 ltac:(lia) ltac:(lia)) as Hle.
  split; [lia|].
  rewrite (Z.div_mod v 8) at 1 by lia.
  replace (8 * (v / 8) + v mod 8 - v mod 8) with ((v / 8) * 8) by lia.
  apply Z.mod_mul. lia.
Qed.

Lemma GET_SIZE_range m p :
  0 <= GET_SIZE m p < modulus /\ GET_SIZE m p mod 8 = 0.
Proof.
  unfold GET_SIZE. pose proof (GET_range m p) as Hg.
  pose proof (SIZE_range _ Hg). lia.
Qed.

(** ** Boundary tags *)

(** C10: packing is lossless for legal blocks.  For every size that is a
    multiple of 8 (a [size_t] value) and every status in FREE, ALLOC,
    extracting the size from [PACK size status] gives the size back, and
    extracting the status gives the status back. *)
Theorem PACK_lossless :
  forall size status : Z,
    0 <= size < modulus -> size mod 8 = 0 -> status = FREE \/ status = ALLOC ->
    SIZE (PACK size status) = size /\ STATUS (PACK size status) = status.
Proof.
  intros size status Hrange Hmul Hst.
  assert (0 <= status < 8) by (unfold FREE, ALLOC in Hst; lia).
  split.
  - apply SIZE_PACK; assumption.
  - apply STATUS_PACK; [lia | assumption | assumption].
Qed.

Lemma PACK_lossless_witness :
  SIZE (PACK 4096 ALLOC) = 4096 /\ STATUS (PACK 4096 ALLOC) = ALLOC.
Proof.
  apply (PACK_lossless 4096 ALLOC).
  - unfold modulus. lia.
  - reflexivity.
  - right. reflexivity.
Defined.

(** ** Calls before initialisation *)

(** C7, counterexample: on the process as it starts ([mm_initialized] is 0)
    [mm_setloglevel] returns normally and stores the level. *)
Lemma mm_setloglevel_before_init :
  let s := boot zero_memory (sample_dataseg 0) in
  mm_initialized s = 0 /\
  mm_setloglevel 2 s = Ret tt (set_mm_loglevel 2 s) /\
  mm_setloglevel 2 s <> AssertionFailed.
Proof.
  cbv zeta. split; [reflexivity|]. split; [reflexivity|]. discriminate.
Qed.

(** C7, amended: before [mm_init], allocate, zero-allocate, reallocate,
    release of a non-NULL pointer and the consistency report stop the process
    at their assertion; [mm_setloglevel] and release of NULL have no such
    check and return normally. *)
Theorem calls_before_init :
  forall (fuel : nat) (s : state),
    mm_initialized s = 0 ->
    (forall size, mm_malloc fuel size s = AssertionFailed)
    /\ (forall nmemb size, mm_calloc fuel nmemb size s = AssertionFailed)
    /\ (forall ptr size, mm_realloc fuel ptr size s = AssertionFailed)
    /\ (forall ptr, ptr <> NULL -> mm_free ptr s = AssertionFailed)
    /\ mm_check fuel s = AssertionFailed
    /\ mm_free NULL s = Ret tt s
    /\ (forall level, mm_setloglevel level s = Ret tt (set_mm_loglevel level s)).
Proof.
  intros fuel s Hinit.
  repeat split; intros.
  - unfold mm_malloc. rewrite Hinit. reflexivity.
  - unfold mm_calloc. rewrite Hinit. reflexivity.
  - unfold mm_realloc. rewrite Hinit. reflexivity.
  - unfold mm_free. destruct (ptr =? NULL) eqn:E.
    + apply Z.eqb_eq in E. contradiction.
    + rewrite Hinit. reflexivity.
  - unfold mm_check. rewrite Hinit. reflexivity.
Qed.

Lemma calls_before_init_witness :
  let s := boot zero_memory (sample_dataseg 0) in
  mm_malloc 4 24 s = AssertionFailed /\ mm_free 65576 s = AssertionFailed.
Proof.
  cbv zeta.
  destruct (calls_before_init 4 (boot zero_memory (sample_dataseg 0)) eq_refl)
    as (Hm & _ & _ & Hf & _).
  split; [apply Hm | apply Hf; discriminate].
Defined.

(** ** Release of NULL *)

(** C9: [mm_free(NULL)] is a no-op.  In every state the call returns and the
    state it leaves is the state it found: memory, heap bounds, policy,
    cursor, provider and all. *)
Theorem mm_free_NULL_noop : forall s : state, mm_free NULL s = Ret tt s.
Proof. intros s. reflexivity. Qed.

(** ** Sample runs, evaluated *)

(** C1, on a sample run: with two 32-byte blocks at the start of a fresh heap,
    reallocating the first (16 bytes of payload) to 100 bytes moves it, and
    the copy is 112 bytes long: the payload capacity of the new 128-byte
    block, where the minimum of the old payload and the request is 16. *)
Lemma mm_realloc_copy_length_sample :
  match two_small_blocks with
  | Ret a s =>
      match mm_realloc 8 a 100 s with
      | Ret new_ptr s' =>
          new_ptr <> a
          /\ GET_SIZE (memory s) (PREV_PTR a) - 2 * TYPE_SIZE = 16
          /\ Z.min 16 100 = 16
          /\ calls s' = EvMemcpy new_ptr a 112 :: calls s
      | _ => False
      end
  | _ => False
  end.
Proof. vm_compute. repeat split; congruence. Qed.

(** C2, on a sample run: the provider has no room left, the request finds no
    free block, [ds_sbrk] answers its error value, and [mm_malloc] returns a
    pointer all the same, to a block that reaches past [heap_end]. *)
Lemma mm_malloc_ignores_refusal_sample :
  match exhausted_provider with
  | Ret _ s =>
      match mm_malloc 8 70000 s with
      | Ret p s' =>
          calls s' = EvSbrk 0 131072 :: EvSbrk 65536 SBRK_FAILED :: calls s
          /\ heap_end s' = heap_end s
          /\ heap_end s' < PREV_PTR p + GET_SIZE (memory s') (PREV_PTR p)
      | _ => False
      end
  | _ => False
  end.
Proof. vm_compute. repeat split; congruence. Qed.

(** C3, counterexample: three allocated blocks on a fresh first-fit heap;
    releasing the middle one merges nothing, the released block is the final
    block, and the cursor still references the first block. *)
Lemma mm_free_keeps_cursor_sample :
  match three_small_blocks ap_FirstFit with
  | Ret (a, b, c) s =>
      match mm_free b s with
      | Ret _ s' =>
          heap_blocks 8 s' =
            Some [mkBlock 65568 32 ALLOC; mkBlock 65600 32 FREE;
                  mkBlock 65632 32 ALLOC; mkBlock 65664 65376 FREE]
          /\ PREV_PTR b = 65600
          /\ next_block s' = 65568
          /\ next_block s' <> PREV_PTR b
      | _ => False
      end
  | _ => False
  end.
Proof. vm_compute. repeat split; congruence. Qed.

(** C4, on a sample run under next fit: after the run [stale_cursor_run] the
    release of the third block leaves two neighbouring blocks that are both
    FREE in the walk from [heap_start]. *)
Lemma mm_free_adjacent_free_sample :
  match stale_cursor_run with
  | Ret c s =>
      match mm_free c s with
      | Ret _ s' =>
          heap_blocks 8 s' = Some [mkBlock 65568 64 FREE; mkBlock 65632 65408 FREE]
          /\ option_map adjacent_free (heap_blocks 8 s') = Some true
      | _ => False
      end
  | _ => False
  end.
Proof. vm_compute. repeat split; congruence. Qed.

(** C5, on a sample run: the last two blocks are released, the last one
    second.  It merges with its free predecessor into a trailing free block
    of 73728 bytes, 8192 more than the initial chunk, and the heap is not
    shrunk; released in the other order, the same blocks give 8192 bytes
    back to the provider. *)
Lemma mm_free_misses_shrink_sample :
  match full_tail_run with
  | Ret (b, c) s =>
      match (call (_, s1) <- mm_free b s ;; mm_free c s1),
            (call (_, s1) <- mm_free c s ;; mm_free b s1) with
      | Ret _ s', Ret _ s'' =>
          heap_blocks 8 s' = Some [mkBlock 65568 65472 ALLOC; mkBlock 131040 73728 FREE]
          /\ INITCHUNK + 2 * CHUNKSIZE = 73728
          /\ shrink_calls s' = []
          /\ heap_end s' = heap_end s
          /\ shrink_calls s'' = [-8192]
          /\ heap_blocks 8 s'' = Some [mkBlock 65568 65472 ALLOC; mkBlock 131040 65536 FREE]
      | _, _ => False
      end
  | _ => False
  end.
Proof. vm_compute. repeat split; congruence. Qed.

(** C8, counterexample: a request of [2^64 - 16] bytes.  The size plus two
    words wraps to 0, so the block size used is 0 where rounding up gives
    [2^64]; on a fresh heap the call returns a pointer into a block whose
    header still says FREE. *)
Lemma mm_malloc_wrapped_size_sample :
  req_size_of (modulus - 16) = Some 0
  /\ round_up_BS (modulus - 16 + 2 * TYPE_SIZE) = modulus
  /\ match fresh_heap ap_FirstFit 65536 with
     | Ret _ s =>
         match mm_malloc 8 (modulus - 16) s with
         | Ret p s' => GET (memory s') (PREV_PTR p) = PACK 65472 FREE
         | _ => False
         end
     | _ => False
     end.
Proof. vm_compute. repeat split; congruence. Qed.

(** ** Best fit *)

Lemma fits_test m size p :
  (GET_STATUS m p =? FREE) && (size <=? GET_SIZE m p) = true
  <-> fits size (mkBlock p (GET_SIZE m p) (GET_STATUS m p)).
Proof.
  unfold fits; simpl. rewrite andb_true_iff, Z.eqb_eq, Z.leb_le. reflexivity.
Qed.

Lemma bf_inv_step m size pre best p :
  p <> NULL ->
  bf_inv m size pre best ->
  bf_inv m size (pre ++ [mkBlock p (GET_SIZE m p) (GET_STATUS m p)])
    (if (GET_STATUS m p =? FREE) && (size <=? GET_SIZE m p) then
       if (best =? NULL) || (GET_SIZE m p <? GET_SIZE m best) then p else best
     else best).
Proof.
  intros Hp Hinv.
  set (b0 := mkBlock p (GET_SIZE m p) (GET_STATUS m p)).
  destruct ((GET_STATUS m p =? FREE) && (size <=? GET_SIZE m p)) eqn:Efit.
  - apply fits_test in Efit. fold b0 in Efit.
    destruct Hinv as [[Hnull Hnone]
                     | (Hnn & pre1 & b & pre2 & Hpre & Hbest & Hsz & Hfit & Hlt & Hle)].
    + subst best. simpl. right. split; [exact Hp|].
      exists pre, b0, []. repeat split; try assumption; try reflexivity.
      * apply Efit.
      * apply Efit.
      * intros b' Hin Hf. exfalso. exact (Hnone b' Hin Hf).
      * intros b' [].
    + replace (best =? NULL) with false by (symmetry; apply Z.eqb_neq; exact Hnn).
      simpl orb. rewrite Hsz.
      destruct (GET_SIZE m p <? b_size b) eqn:Ecmp.
      * apply Z.ltb_lt in Ecmp. right. split; [exact Hp|].
        exists pre, b0, []. repeat split; try reflexivity; try apply Efit.
        -- intros b' Hin Hf. subst pre. simpl.
           apply in_app_or in Hin. destruct Hin as [Hin | [Heq | Hin]].
           ++ specialize (Hlt b' Hin Hf). lia.
           ++ subst b'. exact Ecmp.
           ++ specialize (Hle b' Hin Hf). lia.
        -- intros b' [].
      * apply Z.ltb_ge in Ecmp. right. split; [exact Hnn|].
        exists pre1, b, (pre2 ++ [b0]). repeat split; try assumption; try apply Hfit.
        -- subst pre. rewrite <- app_assoc. reflexivity.
        -- intros b' Hin Hf. apply in_app_or in Hin. destruct Hin as [Hin | [Heq | []]].
           ++ exact (Hle b' Hin Hf).
           ++ subst b'. exact Ecmp.
  - assert (Hno : ~ fits size b0).
    { intros Hf. apply fits_test in Hf. congruence. }
    destruct Hinv as [[Hnull Hnone]
                     | (Hnn & pre1 & b & pre2 & Hpre & Hbest & Hsz & Hfit & Hlt & Hle)].
    + left. split; [exact Hnull|]. intros b' Hin.
      apply in_app_or in Hin. destruct Hin as [Hin | [Heq | []]].
      * exact (Hnone b' Hin).
      * subst b'. exact Hno.
    + right. split; [exact Hnn|].
      exists pre1, b, (pre2 ++ [b0]). repeat split; try assumption; try apply Hfit.
      * subst pre. rewrite <- app_assoc. reflexivity.
      * intros b' Hin Hf. apply in_app_or in Hin. destruct Hin as [Hin | [Heq | []]].
        -- exact (Hle b' Hin Hf).
        -- subst b'. contradiction.
Qed.

Lemma bf_inv_answer m size bl best :
  bf_inv m size bl best -> best_fit_answer bl size best.
Proof.
  intros [[Hnull Hnone] | (Hnn & pre1 & b & pre2 & Hpre & Hbest & Hsz & Hfit & Hlt & Hle)].
  - left. split; assumption.
  - right. exists pre1, b, pre2. repeat split; try assumption; apply Hfit.
Qed.

Lemma bf_scan_spec :
  forall (fuel : nat) (m : mem) (e size p best : Z) (pre bl : list block),
    0 < p ->
    heap_walk fuel m p e = Some bl ->
    bf_inv m size pre best ->
    exists r, bf_scan fuel m e size p best = Some r
              /\ best_fit_answer (pre ++ bl) size r.
Proof.
  induction fuel as [|fuel IH]; intros m e size p best pre bl Hp Hwalk Hinv.
  - discriminate.
  - simpl in Hwalk. simpl.
    destruct (p <? e) eqn:Elt.
    + destruct ((0 <? GET_SIZE m p) && (p + GET_SIZE m p <? modulus)) eqn:Eok; [|discriminate].
      apply andb_true_iff in Eok. destruct Eok as [Epos Ewrap].
      apply Z.ltb_lt in Epos. apply Z.ltb_lt in Ewrap.
      destruct (heap_walk fuel m (p + GET_SIZE m p) e) as [bl'|] eqn:Erest; [|discriminate].
      injection Hwalk as <-.
      rewrite wrap_small by lia.
      destruct (IH m e size (p + GET_SIZE m p) _ _ bl' ltac:(lia) Erest
                  (bf_inv_step m size pre best p ltac:(unfold NULL; lia) Hinv))
        as (r & Hr & Hans).
      exists r. split; [exact Hr|].
      rewrite <- app_assoc in Hans. exact Hans.
    + injection Hwalk as <-. exists best. split; [reflexivity|].
      rewrite app_nil_r. apply bf_inv_answer with (m := m). exact Hinv.
Qed.

(** C6: the best-fit locator.  On an initialised heap whose headers can be
    followed from [heap_start] to [heap_end] (every size positive), the
    locator returns; its answer is NULL when no FREE block has the requested
    size, and otherwise the header of the smallest FREE block that has it,
    the first one in scan order among equals. *)
Theorem bf_get_free_block_best_fit :
  forall (fuel : nat) (s : state) (size : Z) (bl : list block),
    mm_initialized s <> 0 ->
    0 < heap_start s ->
    heap_blocks fuel s = Some bl ->
    exists r, bf_get_free_block fuel size s = Ret r s /\ best_fit_answer bl size r.
Proof.
  intros fuel s size bl Hinit Hhs Hwalk.
  unfold bf_get_free_block.
  replace (mm_initialized s =? 0) with false by (symmetry; apply Z.eqb_neq; exact Hinit).
  destruct (bf_scan_spec fuel (memory s) (heap_end s) size (heap_start s) NULL [] bl Hhs Hwalk)
    as (r & Hr & Hans).
  - left. split; [reflexivity|]. intros b [].
  - rewrite Hr. exists r. split; [reflexivity| exact Hans].
Qed.

Lemma bf_get_free_block_best_fit_witness :
  exists r,
    bf_get_free_block 8 32 best_fit_sample = Ret r best_fit_sample
    /\ best_fit_answer
         [mkBlock 65568 64 FREE; mkBlock 65632 32 ALLOC; mkBlock 65664 32 FREE;
          mkBlock 65696 32 ALLOC; mkBlock 65728 32 FREE; mkBlock 65760 32 ALLOC;
          mkBlock 65792 65248 FREE] 32 r.
Proof.
  apply (bf_get_free_block_best_fit 8 best_fit_sample 32).
  - vm_compute. discriminate.
  - vm_compute. reflexivity.
  - vm_compute. reflexivity.
Defined.

(** On [best_fit_sample] a request for 32 bytes is answered with the first
    of the two 32-byte free blocks, not with the 64-byte block before it. *)
Example bf_get_free_block_sample :
  returned (bf_get_free_block 8 32 best_fit_sample) = Some 65664.
Proof. vm_compute. reflexivity. Qed.

(** ** Retagging a block *)

Lemma PACK_FREE size : 0 <= size -> PACK size FREE = size.
Proof. intros H. unfold PACK, FREE. apply Z.lor_0_r. Qed.

Lemma block_at_spec m p sz st :
  block_at m p sz st = true ->
  GET m p = PACK sz st /\ GET m (p + sz - 8) = PACK sz st
  /\ 16 <= sz < modulus /\ sz mod 8 = 0 /\ 0 <= st < 8
  /\ GET_SIZE m p = sz /\ GET_STATUS m p = st
  /\ GET_SIZE m (p + sz - 8) = sz /\ GET_STATUS m (p + sz - 8) = st.
Proof.
  unfold block_at, TYPE_SIZE. rewrite !andb_true_iff, orb_true_iff, !Z.eqb_eq, Z.leb_le.
  intros ((((Hh & Hf) & Hsz) & Hmod) & Hst).
  assert (Hst' : 0 <= st < 8) by (unfold FREE, ALLOC in Hst; lia).
  assert (Hlt : sz < modulus).
  { pose proof (GET_range m p) as Hr. rewrite Hh, PACK_spec in Hr by lia. lia. }
  unfold GET_SIZE, GET_STATUS. rewrite Hh, Hf.
  rewrite SIZE_PACK, STATUS_PACK by lia.
  repeat split; try reflexivity; lia.
Qed.

Lemma retag_header m a n v : 16 <= n -> GET (retag m a n v) a = wrap v.
Proof.
  intros Hn. unfold retag. rewrite GET_PUT_other by lia. apply GET_PUT_same.
Qed.

Lemma retag_footer m a n v : GET (retag m a n v) (a + n - 8) = wrap v.
Proof. unfold retag. apply GET_PUT_same. Qed.

Lemma retag_frame m a n v q :
  16 <= n -> q + 8 <= a \/ a + n <= q -> GET (retag m a n v) q = GET m q.
Proof.
  intros Hn Hq. unfold retag. rewrite !GET_PUT_other by lia. reflexivity.
Qed.

Lemma PREV_PTR_small p : 8 <= p < modulus -> PREV_PTR p = p - 8.
Proof. intros H. unfold PREV_PTR, TYPE_SIZE. apply wrap_small. lia. Qed.

Lemma NEXT_PTR_small p : 0 <= p -> p + 8 < modulus -> NEXT_PTR p = p + 8.
Proof. intros H1 H2. unfold NEXT_PTR, TYPE_SIZE. apply wrap_small. lia. Qed.

Lemma END_small m p sz :
  GET_SIZE m p = sz -> 0 <= p -> 8 <= sz -> p + sz < modulus -> END m p = p + sz - 8.
Proof.
  intros Hs Hp Hsz Hlt. unfold END. rewrite Hs.
  rewrite (wrap_small (p + sz)) by lia. apply PREV_PTR_small. lia.
Qed.

Lemma START_small m p sz :
  GET_SIZE m p = sz -> 0 <= sz -> sz <= p -> p + 8 < modulus -> START m p = p - sz + 8.
Proof.
  intros Hs Hsz Hp Hlt. unfold START. rewrite Hs.
  rewrite (wrap_small (p - sz)) by lia. apply NEXT_PTR_small; lia.
Qed.

Lemma GET_tag m p size :
  GET m p = PACK size FREE -> 0 <= size < modulus -> size mod 8 = 0 ->
  GET_SIZE m p = size /\ GET_STATUS m p = FREE.
Proof.
  intros Hg Hs Hm. unfold GET_SIZE, GET_STATUS. rewrite Hg.
  rewrite SIZE_PACK, STATUS_PACK by (unfold FREE; lia). split; reflexivity.
Qed.

(** ** Release: the three steps of [mm_free] *)

Lemma mark_free_spec s hdr sz st :
  0 <= hdr -> hdr + sz < modulus ->
  block_at (memory s) hdr sz st = true ->
  mark_free hdr s = set_memory (retag (memory s) hdr sz (PACK sz FREE)) s.
Proof.
  intros Hhdr Hlt Hb. apply block_at_spec in Hb.
  destruct Hb as (Hh & Hf & Hsz & Hmod & Hst & Hgs & _).
  unfold mark_free, retag. rewrite Hgs.
  rewrite (END_small _ hdr sz); try lia; [reflexivity|].
  unfold GET_SIZE. rewrite GET_PUT_same, PACK_FREE by lia.
  rewrite wrap_small by lia.
  pose proof (SIZE_PACK sz FREE ltac:(lia) Hmod ltac:(unfold FREE; lia)) as H.
  rewrite PACK_FREE in H by lia. exact H.
Qed.

Lemma merge_preceding_spec s hdr sz prev :
  8 <= heap_start s -> hdr + sz < modulus -> 16 <= sz < modulus -> sz mod 8 = 0 ->
  neighbour_before s hdr prev = true ->
  let s1 := set_memory (retag (memory s) hdr sz (PACK sz FREE)) s in
  let start := merged_start hdr prev in
  let total := merged_size sz prev in
  exists s2,
    merge_preceding hdr s1 = (start, s2)
    /\ heap_start s <= start /\ start + total = hdr + sz /\ 16 <= total /\ total mod 8 = 0
    /\ GET (memory s2) start = PACK total FREE
    /\ GET (memory s2) (start + total - 8) = PACK total FREE
    /\ (forall q, hdr + sz <= q -> GET (memory s2) q = GET (memory s) q)
    /\ heap_start s2 = heap_start s /\ heap_end s2 = heap_end s /\ dseg s2 = dseg s
    /\ calls s2 = calls s
    /\ next_block s2 = (if is_free prev then start else next_block s).
Proof.
  intros Hhs Hlt Hsz Hmod Hprev s1 start total.
  assert (Htag : wrap (PACK sz FREE) = PACK sz FREE).
  { rewrite PACK_FREE by lia. apply wrap_small. lia. }
  assert (Hnone :
    (hdr = heap_start s \/ GET_STATUS (memory s1) (PREV_PTR hdr) <> FREE) ->
    free_size prev = 0 -> is_free prev = false -> heap_start s <= hdr ->
    exists s2,
      merge_preceding hdr s1 = (start, s2)
      /\ heap_start s <= start /\ start + total = hdr + sz /\ 16 <= total /\ total mod 8 = 0
      /\ GET (memory s2) start = PACK total FREE
      /\ GET (memory s2) (start + total - 8) = PACK total FREE
      /\ (forall q, hdr + sz <= q -> GET (memory s2) q = GET (memory s) q)
      /\ heap_start s2 = heap_start s /\ heap_end s2 = heap_end s /\ dseg s2 = dseg s
      /\ calls s2 = calls s
      /\ next_block s2 = (if is_free prev then start else next_block s)).
  { intros Hcase Hfs Hif Hle. exists s1.
    unfold start, total, merged_start, merged_size. rewrite Hfs, Hif, Z.sub_0_r, Z.add_0_l.
    repeat split; try reflexivity; try lia.
    - unfold merge_preceding. change (heap_start s1) with (heap_start s).
      destruct Hcase as [-> | Hne].
      + rewrite Z.eqb_refl. reflexivity.
      + replace (GET_STATUS (memory s1) (PREV_PTR hdr) =? FREE) with false
          by (symmetry; apply Z.eqb_neq; exact Hne).
        rewrite andb_false_r. reflexivity.
    - simpl. rewrite retag_header by lia. exact Htag.
    - simpl. rewrite retag_footer. exact Htag.
    - intros q Hq. simpl. apply retag_frame; lia. }
  destruct prev as [[szp stp]|]; simpl in Hprev.
  - apply andb_true_iff in Hprev. destruct Hprev as [Hle Hb].
    apply Z.leb_le in Hle.
    destruct (stp =? FREE) eqn:Efree;
      [apply Z.eqb_eq in Efree; subst stp|];
      apply block_at_spec in Hb;
      destruct Hb as (Hh & Hf & Hszp & Hmodp & Hstp & Hgs & Hgst & Hfs & Hfst);
      replace (hdr - szp + szp - 8) with (hdr - 8) in * by lia;
      assert (Hprevptr : PREV_PTR hdr = hdr - 8) by (apply PREV_PTR_small; lia);
      assert (Hfoot : GET (memory s1) (hdr - 8) = GET (memory s) (hdr - 8))
        by (simpl; apply retag_frame; lia).
    + exists (set_next_block (hdr - szp)
                (set_memory (retag (memory s1) (hdr - szp) (szp + sz) (PACK (szp + sz) FREE)) s1)).
      unfold start, total, merged_start, merged_size. simpl.
      assert (Htag2 : wrap (PACK (szp + sz) FREE) = PACK (szp + sz) FREE).
      { rewrite PACK_FREE by lia. apply wrap_small. lia. }
      assert (Hmod2 : (szp + sz) mod 8 = 0).
      { rewrite Z.add_mod, Hmodp, Hmod by lia. reflexivity. }
      repeat split; try reflexivity; try lia.
      * unfold merge_preceding. change (heap_start s1) with (heap_start s).
        replace (hdr =? heap_start s) with false by (symmetry; apply Z.eqb_neq; lia).
        rewrite Hprevptr.
        replace (GET_STATUS (memory s1) (hdr - 8)) with FREE
          by (unfold GET_STATUS; rewrite Hfoot; exact (eq_sym Hfst)).
        simpl negb. rewrite Z.eqb_refl. simpl andb. cbv iota.
        assert (Hstart : START (memory s1) (hdr - 8) = hdr - szp).
        { rewrite (START_small _ _ szp); try lia.
          unfold GET_SIZE. rewrite Hfoot. exact Hfs. }
        rewrite Hstart.
        assert (Hsp : GET_SIZE (memory s1) (hdr - szp) = szp).
        { unfold GET_SIZE. simpl. rewrite retag_frame by lia. exact Hgs. }
        assert (Hsh : GET_SIZE (memory s1) hdr = sz).
        { unfold GET_SIZE. simpl. rewrite retag_header by lia. rewrite Htag.
          apply SIZE_PACK; unfold FREE; lia. }
        rewrite Hsp, Hsh. rewrite (wrap_small (szp + sz)) by lia.
        rewrite (END_small _ (hdr - szp) (szp + sz)); try lia.
        -- unfold retag. replace (hdr - szp + (szp + sz) - 8) with (hdr + sz - 8) by lia.
           replace (hdr - szp + (szp + sz) - 8) with (hdr + sz - 8) by lia. reflexivity.
        -- unfold GET_SIZE. rewrite GET_PUT_same, Htag2. apply SIZE_PACK; unfold FREE; lia.
      * rewrite retag_header by lia. exact Htag2.
      * rewrite retag_footer. exact Htag2.
      * intros q Hq. rewrite retag_frame by lia. apply retag_frame; lia.
    + apply Hnone.
      * right. rewrite Hprevptr. unfold GET_STATUS. rewrite Hfoot.
        fold (GET_STATUS (memory s) (hdr - 8)).
        rewrite Hfst. apply Z.eqb_neq. exact Efree.
      * simpl. rewrite Efree. reflexivity.
      * simpl. exact Efree.
      * lia.
  - apply Z.eqb_eq in Hprev. apply Hnone; try reflexivity; [left; exact Hprev | lia].
Qed.

Lemma ds_sbrk_cases d delta :
  (ds_base d <= ds_cur d + delta <= ds_max d
   /\ ds_sbrk d delta
      = (mkDataseg (ds_base d) (ds_cur d + delta) (ds_max d) (ds_pagesize d),
         ds_cur d + delta))
  \/ (~ (ds_base d <= ds_cur d + delta <= ds_max d)
      /\ ds_sbrk d delta = (d, SBRK_FAILED)).
Proof.
  unfold ds_sbrk.
  destruct (ds_base d <=? ds_cur d + delta) eqn:E1;
    destruct (ds_cur d + delta <=? ds_max d) eqn:E2; simpl;
    try apply Z.leb_le in E1; try apply Z.leb_le in E2;
    try apply Z.leb_gt in E1; try apply Z.leb_gt in E2;
    [left | right | right | right]; split; try reflexivity; lia.
Qed.

Lemma move_break_spec s inc :
  ds_base (dseg s) <= ds_cur (dseg s) <= ds_max (dseg s) ->
  exists brk s',
    move_break inc s = (brk, s')
    /\ memory s' = memory s /\ heap_start s' = heap_start s /\ heap_end s' = heap_end s
    /\ next_block s' = next_block s /\ get_free_block s' = get_free_block s
    /\ mm_initialized s' = mm_initialized s
    /\ ds_cur (dseg s') = brk
    /\ ds_base (dseg s') = ds_base (dseg s) /\ ds_max (dseg s') = ds_max (dseg s)
    /\ ds_base (dseg s) <= brk <= ds_max (dseg s)
    /\ (brk = ds_cur (dseg s) + to_signed inc \/ brk = ds_cur (dseg s))
    /\ (ds_base (dseg s) <= ds_cur (dseg s) + to_signed inc <= ds_max (dseg s) ->
        brk = ds_cur (dseg s) + to_signed inc).
Proof.
  intros Hseg. unfold move_break, call_ds_sbrk.
  change (to_signed 0) with 0.
  destruct (ds_sbrk_cases (dseg s) (to_signed inc)) as [[H E] | [H E]]; rewrite E;
    cbn [dseg log_call].
  - match goal with |- context [ds_sbrk ?d 0] =>
      destruct (ds_sbrk_cases d 0) as [[H0 E0] | [H0 E0]]; rewrite E0 end;
      cbn [ds_base ds_cur ds_max ds_pagesize] in *.
    + eexists _, _. split; [reflexivity|]. cbn. repeat split; lia.
    + exfalso. apply H0. lia.
  - match goal with |- context [ds_sbrk ?d 0] =>
      destruct (ds_sbrk_cases d 0) as [[H0 E0] | [H0 E0]]; rewrite E0 end.
    + eexists _, _. split; [reflexivity|]. cbn. repeat split; lia.
    + exfalso. apply H0. lia.
Qed.

Lemma segment_ok_spec s :
  segment_ok s = true ->
  ds_base (dseg s) <= ds_cur (dseg s) <= ds_max (dseg s)
  /\ 0 < ds_cur (dseg s) < 2 ^ 63
  /\ heap_end s = (ds_cur (dseg s) - 1) / 32 * 32
  /\ 0 <= heap_end s < 2 ^ 63.
Proof.
  unfold segment_ok, BS. rewrite !andb_true_iff, !Z.leb_le, !Z.ltb_lt, Z.eqb_eq.
  intros ((((H1 & H2) & H3) & H4) & H5).
  rewrite wrap_small in H5 by (unfold modulus; lia).
  pose proof (Z.div_mod (ds_cur (dseg s) - 1) 32 ltac:(lia)) as Hd.
  pose proof (Z.mod_pos_bound (ds_cur (dseg s) - 1) 32 ltac:(lia)) as Hm.
  repeat split; try lia.
Qed.

Lemma shrink_heap_spec s start T :
  segment_ok s = true ->
  8 <= start -> start + T = heap_end s -> 16 <= T -> T mod 8 = 0 ->
  GET (memory s) start = PACK T FREE ->
  GET (memory s) (heap_end s - 8) = PACK T FREE ->
  next_block (shrink_heap s) = start
  /\ GET (memory (shrink_heap s)) start
     = PACK (heap_end (shrink_heap s) - start) FREE
  /\ (heap_end (shrink_heap s) = heap_end s
      \/ (INITCHUNK + CHUNKSIZE <= T
          /\ heap_end (shrink_heap s)
             = heap_end s - (T - INITCHUNK) / CHUNKSIZE * CHUNKSIZE))
  /\ heap_start (shrink_heap s) = heap_start s
  /\ (INITCHUNK + CHUNKSIZE <= T ->
      ds_base (dseg s) <= ds_cur (dseg s) - (T - INITCHUNK) / CHUNKSIZE * CHUNKSIZE ->
      heap_end (shrink_heap s)
      = heap_end s - (T - INITCHUNK) / CHUNKSIZE * CHUNKSIZE).
Proof.
  intros Hseg Hstart Hend HT Hmod Hhdr Hftr.
  apply segment_ok_spec in Hseg. destruct Hseg as (Hds & Hcur & Hhe & Hher).
  assert (Hmodulus : modulus = 2 ^ 64) by reflexivity.
  assert (Hp : PREV_PTR (heap_end s) = heap_end s - 8)
    by (apply PREV_PTR_small; lia).
  destruct (GET_tag _ _ T Hftr ltac:(lia) Hmod) as [Hfs Hfst].
  assert (Hst : START (memory s) (heap_end s - 8) = start).
  { rewrite (START_small _ _ T Hfs); lia. }
  unfold shrink_heap. rewrite Hp, Hfst, Z.eqb_refl, Hfs, Hst.
  change (heap_end (set_next_block start s)) with (heap_end s).
  change (memory (set_next_block start s)) with (memory s).
  rewrite Hp, Hst.
  change INITCHUNK with 65536. change CHUNKSIZE with 4096.
  destruct (65536 <? T) eqn:Ebig.
  - apply Z.ltb_lt in Ebig.
    rewrite (wrap_small (T - 65536)) by lia.
    pose proof (Z.div_mod (T - 65536) 4096 ltac:(lia)) as Hd.
    pose proof (Z.mod_pos_bound (T - 65536) 4096 ltac:(lia)) as Hm.
    remember ((T - 65536) / 4096) as k eqn:Hk.
    remember ((T - 65536) mod 4096) as r eqn:Hr.
    rewrite (wrap_small (k * 4096)) by lia.
    destruct (k * 4096 =? 0) eqn:Ec.
    + apply Z.eqb_eq in Ec. cbn. repeat split; [|left; reflexivity|intros; lia].
      rewrite Hhdr. f_equal. lia.
    + apply Z.eqb_neq in Ec.
      destruct (move_break_spec (set_next_block start s) (wrap (- (k * 4096))) Hds)
        as (brk & s' & Hmb & Hmem & Hhs' & _ & _ & _ & _ & _ & _ & _ & _ & Hbrk & Hgrant).
      rewrite Hmb. cbn [dseg set_next_block ds_cur] in Hbrk.
      assert (Hsg : to_signed (wrap (- (k * 4096))) = - (k * 4096)).
      { unfold wrap, to_signed. rewrite Hmodulus.
        replace ((- (k * 4096)) mod 2 ^ 64) with (2 ^ 64 - k * 4096).
        - replace (2 ^ 64 - k * 4096 <? 2 ^ 63) with false
            by (symmetry; apply Z.ltb_ge; lia). lia.
        - apply Z.mod_unique with (q := -1); lia. }
      rewrite Hsg in Hbrk, Hgrant. cbn [dseg set_next_block] in Hgrant.
      pose proof (Z.div_mod (ds_cur (dseg s) - 1) 32 ltac:(lia)) as Hd'.
      pose proof (Z.mod_pos_bound (ds_cur (dseg s) - 1) 32 ltac:(lia)) as Hm'.
      assert (Hhe' : (brk = ds_cur (dseg s) + - (k * 4096)
                      /\ wrap (brk - 1) / BS * BS = heap_end s - k * 4096)
                     \/ (brk = ds_cur (dseg s)
                         /\ wrap (brk - 1) / BS * BS = heap_end s)).
      { unfold BS. destruct Hbrk as [Hb | Hb]; [left | right];
          (split; [exact Hb|]); rewrite Hb.
        - rewrite wrap_small by lia.
          replace (ds_cur (dseg s) + - (k * 4096) - 1)
            with (ds_cur (dseg s) - 1 + (- (k * 128)) * 32) by lia.
          rewrite Z.div_add by lia. lia.
        - rewrite wrap_small by lia. lia. }
      remember (wrap (brk - 1) / BS * BS) as he' eqn:Ehe'.
      assert (Hhe'r : start + 65536 <= he' <= heap_end s) by lia.
      cbn [next_block set_next_block set_memory memory heap_end heap_start
           set_heap_end set_ds_heap_brk].
      rewrite Hmem. cbn [memory set_next_block].
      rewrite (wrap_small (he' - start)) by lia.
      rewrite (PREV_PTR_small he') by lia.
      split; [reflexivity|]. split; [|split; [|split]].
      * rewrite GET_PUT_other by lia. rewrite GET_PUT_other by lia.
        rewrite GET_PUT_same. rewrite PACK_FREE by lia. apply wrap_small. lia.
      * destruct Hhe' as [H|H]; [right | left]; lia.
      * exact Hhs'.
      * intros _ Hbase. specialize (Hgrant ltac:(lia)). lia.
  - apply Z.ltb_ge in Ebig. cbn. repeat split; [|left; reflexivity|intros; lia].
    rewrite Hhdr. f_equal. lia.
Qed.

Lemma block_at_ext m m' p sz st :
  (forall q, p <= q -> GET m' q = GET m q) ->
  block_at m' p sz st = block_at m p sz st.
Proof.
  intros H. unfold block_at, TYPE_SIZE.
  destruct (2 * 8 <=? sz) eqn:E.
  - apply Z.leb_le in E. rewrite (H p) by lia. rewrite (H (p + sz - 8)) by lia. reflexivity.
  - rewrite !andb_false_r. reflexivity.
Qed.

Lemma neighbour_after_ext s s' e next :
  heap_end s' = heap_end s ->
  (forall q, e <= q -> GET (memory s') q = GET (memory s) q) ->
  neighbour_after s' e next = neighbour_after s e next.
Proof.
  intros Hhe H. unfold neighbour_after. rewrite Hhe.
  destruct next as [[szn stn]|]; [|reflexivity].
  rewrite (block_at_ext (memory s) (memory s')) by exact H. reflexivity.
Qed.

Lemma segment_ok_ext s s' :
  dseg s' = dseg s -> heap_end s' = heap_end s -> segment_ok s' = segment_ok s.
Proof. intros Hd Hh. unfold segment_ok. rewrite Hd, Hh. reflexivity. Qed.

Lemma merge_succeeding_spec s start total next :
  segment_ok s = true ->
  8 <= start -> 16 <= total -> total mod 8 = 0 ->
  GET (memory s) start = PACK total FREE ->
  neighbour_after s (start + total) next = true ->
  if is_free next then
    start + total + free_size next = heap_end s ->
    next_block (merge_succeeding start s) = start
    /\ GET (memory (merge_succeeding start s)) start
       = PACK (heap_end (merge_succeeding start s) - start) FREE
    /\ heap_start (merge_succeeding start s) = heap_start s
    /\ start < heap_end (merge_succeeding start s)
  else merge_succeeding start s = s.
Proof.
  intros Hseg Hstart Htotal Hmod Hhdr Hnext.
  pose proof (segment_ok_spec s Hseg) as (Hds & Hcur & Hhe & Hher).
  assert (Hmodulus : modulus = 2 ^ 64) by reflexivity.
  assert (Hle : start + total <= heap_end s).
  { destruct next as [[szn stn]|]; simpl in Hnext.
    - apply andb_true_iff in Hnext. destruct Hnext as [Hl Hb]. apply Z.leb_le in Hl.
      apply block_at_spec in Hb. lia.
    - apply Z.eqb_eq in Hnext. lia. }
  destruct (GET_tag _ _ total Hhdr ltac:(lia) Hmod) as [Hgs _].
  assert (Hend : END (memory s) start = start + total - 8)
    by (apply END_small; try assumption; lia).
  assert (Hnp : NEXT_PTR (start + total - 8) = start + total).
  { rewrite NEXT_PTR_small by lia. lia. }
  unfold merge_succeeding. rewrite Hend, Hnp.
  destruct next as [[szn stn]|]; simpl in Hnext; simpl is_free.
  - apply andb_true_iff in Hnext. destruct Hnext as [Hl Hb]. apply Z.leb_le in Hl.
    destruct (stn =? FREE) eqn:Efree.
    + apply Z.eqb_eq in Efree. subst stn. apply block_at_spec in Hb.
      destruct Hb as (Hnh & _ & Hszn & Hmodn & _ & Hngs & Hngst & _).
      simpl free_size. intros Hreach.
      replace (start + total =? heap_end s) with false by (symmetry; apply Z.eqb_neq; lia).
      rewrite Hngst, Z.eqb_refl. simpl andb. cbv iota.
      rewrite Hngs, Hgs. rewrite (wrap_small (szn + total)) by lia.
      set (T := szn + total) in *.
      assert (HmodT : T mod 8 = 0).
      { unfold T. rewrite Z.add_mod, Hmodn, Hmod by lia. reflexivity. }
      assert (Htag : wrap (PACK T FREE) = PACK T FREE).
      { rewrite PACK_FREE by lia. apply wrap_small. lia. }
      assert (Hend1 : END (PUT (memory s) start (PACK T FREE)) start = start + T - 8).
      { apply END_small; try lia.
        unfold GET_SIZE. rewrite GET_PUT_same, Htag. apply SIZE_PACK; unfold FREE; lia. }
      rewrite Hend1. fold (retag (memory s) start T (PACK T FREE)).
      assert (Hend2 : END (retag (memory s) start T (PACK T FREE)) start = start + T - 8).
      { apply END_small; try lia.
        unfold GET_SIZE. rewrite retag_header, Htag by lia. apply SIZE_PACK; unfold FREE; lia. }
      rewrite Hend2.
      cbn [heap_end set_next_block set_memory].
      rewrite (PREV_PTR_small (heap_end s)) by lia.
      replace (start + T - 8 =? heap_end s - 8) with true by (symmetry; apply Z.eqb_eq; lia).
      match goal with |- context [shrink_heap ?x] => set (s3 := x) end.
      destruct (shrink_heap_spec s3 start T) as (Hnb & Hg & Hhe3 & Hhs3 & _);
        try assumption; try lia.
      * unfold s3. simpl. lia.
      * unfold s3. simpl. rewrite retag_header, Htag by lia. reflexivity.
      * unfold s3. simpl. replace (heap_end s - 8) with (start + T - 8) by lia.
        rewrite retag_footer, Htag. reflexivity.
      * repeat split; try assumption.
        change INITCHUNK with 65536 in Hhe3. change CHUNKSIZE with 4096 in Hhe3.
        change (heap_end s3) with (heap_end s) in Hhe3.
        pose proof (Z.div_mod (T - 65536) 4096 ltac:(lia)) as Hd.
        pose proof (Z.mod_pos_bound (T - 65536) 4096 ltac:(lia)) as Hm.
        lia.
    + apply block_at_spec in Hb. destruct Hb as (_ & _ & _ & _ & _ & _ & Hngst & _).
      rewrite Hngst, Efree, andb_false_r. reflexivity.
  - apply Z.eqb_eq in Hnext. rewrite Hnext, Z.eqb_refl. reflexivity.
Qed.

(** C3, amended: the cursor after a release.  The released block is an
    allocated block of [sz] bytes whose neighbours [prev] and [next] are blocks
    of the heap (or its ends).  The release returns, and with [start] and
    [total] the header and size of the block after a merge with a FREE
    predecessor:
    - when the successor is not FREE, the final block is the one at [start];
      the cursor references it if the predecessor was merged and is left
      where it was otherwise;
    - when the successor is FREE and the merged block ends at the end
      sentinel, the cursor references the final block, which spans up to the
      (possibly lowered) [heap_end].
    Nothing is said of a merge with a FREE successor that stops short of the
    end sentinel. *)
Theorem mm_free_cursor :
  forall (s : state) (ptr sz : Z) (prev next : option (Z * Z)),
    mm_initialized s <> 0 ->
    TYPE_SIZE <= heap_start s ->
    segment_ok s = true ->
    block_at (memory s) (ptr - TYPE_SIZE) sz ALLOC = true ->
    neighbour_before s (ptr - TYPE_SIZE) prev = true ->
    neighbour_after s (ptr - TYPE_SIZE + sz) next = true ->
    exists s',
      mm_free ptr s = Ret tt s'
      /\ let start := merged_start (ptr - TYPE_SIZE) prev in
         let total := merged_size sz prev in
         if is_free next then
           start + total + free_size next = heap_end s ->
           next_block s' = start
           /\ GET (memory s') start = PACK (heap_end s' - start) FREE
           /\ heap_start s' <= start < heap_end s'
         else
           GET (memory s') start = PACK total FREE
           /\ heap_start s' <= start /\ start + total <= heap_end s'
           /\ heap_end s' = heap_end s
           /\ next_block s' = (if is_free prev then start else next_block s).
Proof.
  intros s ptr sz prev next Hinit Hhs Hseg Hblock Hprev Hnext.
  unfold TYPE_SIZE in *. set (hdr := ptr - 8) in *.
  pose proof (segment_ok_spec s Hseg) as (Hds & Hcur & Hhe & Hher).
  assert (Hmodulus : modulus = 2 ^ 64) by reflexivity.
  pose proof (block_at_spec _ _ _ _ Hblock) as (_ & _ & Hsz & Hmod & _).
  assert (Hlo : heap_start s <= hdr).
  { destruct prev as [[szp stp]|]; simpl in Hprev.
    - apply andb_true_iff in Hprev. destruct Hprev as [Hl Hb]. apply Z.leb_le in Hl.
      apply block_at_spec in Hb. lia.
    - apply Z.eqb_eq in Hprev. lia. }
  assert (Hhi : hdr + sz <= heap_end s).
  { destruct next as [[szn stn]|]; simpl in Hnext.
    - apply andb_true_iff in Hnext. destruct Hnext as [Hl Hb]. apply Z.leb_le in Hl.
      apply block_at_spec in Hb. lia.
    - apply Z.eqb_eq in Hnext. lia. }
  unfold mm_free.
  replace (ptr =? NULL) with false by (symmetry; apply Z.eqb_neq; unfold NULL, hdr in *; lia).
  replace (mm_initialized s =? 0) with false by (symmetry; apply Z.eqb_neq; exact Hinit).
  rewrite (PREV_PTR_small ptr) by (unfold hdr in *; lia). fold hdr.
  rewrite (mark_free_spec s hdr sz ALLOC) by (try assumption; lia).
  destruct (merge_preceding_spec s hdr sz prev Hhs ltac:(lia) Hsz Hmod Hprev)
    as (s2 & Hmp & Hstart & Hsum & Htotal & Hmodt & Hhdr & Hftr & Hframe
        & Hhs2 & Hhe2 & Hds2 & _ & Hnb2).
  rewrite Hmp.
  exists (merge_succeeding (merged_start hdr prev) s2).
  split; [reflexivity|]. cbv zeta.
  assert (Hseg2 : segment_ok s2 = true)
    by (rewrite (segment_ok_ext s s2) by assumption; exact Hseg).
  assert (Hnext2 : neighbour_after s2 (merged_start hdr prev + merged_size sz prev) next = true).
  { rewrite Hsum. rewrite (neighbour_after_ext s s2) by assumption. exact Hnext. }
  assert (Hstart8 : 8 <= merged_start hdr prev) by lia.
  pose proof (merge_succeeding_spec s2 _ _ next Hseg2 Hstart8 Htotal Hmodt Hhdr Hnext2)
    as Hms.
  destruct (is_free next).
  - rewrite Hhe2 in Hms. intros Hreach.
    destruct (Hms Hreach) as (H1 & H2 & H3 & H4).
    repeat split; try assumption. lia.
  - rewrite Hms. repeat split; try assumption; lia.
Qed.

Lemma mm_free_cursor_witness :
  exists s',
    mm_free 65608 first_released = Ret tt s'
    /\ GET (memory s') 65568 = PACK 64 FREE
    /\ next_block s' = 65568.
Proof.
  destruct (mm_free_cursor first_released 65608 32 (Some (32, FREE)) (Some (32, ALLOC)))
    as (s' & Hfree & Hhdr & _ & _ & _ & Hcur).
  - vm_compute. discriminate.
  - vm_compute. discriminate.
  - vm_compute. reflexivity.
  - vm_compute. reflexivity.
  - vm_compute. reflexivity.
  - vm_compute. reflexivity.
  - exists s'. split; [exact Hfree|]. split; [exact Hhdr | exact Hcur].
Defined.

(** ** Request sizes *)

Lemma to_double_exact x : 0 <= x <= 2 ^ 53 -> to_double x = x.
Proof.
  intros H. unfold to_double.
  destruct (x <? 2 ^ 53) eqn:E; [reflexivity|].
  apply Z.ltb_ge in E. assert (x = 2 ^ 53) as -> by lia. reflexivity.
Qed.

Lemma to_double_near x : 0 <= x <= 2 ^ 53 + 1 -> x - 1 <= to_double x <= x.
Proof.
  intros H. destruct (Z.eq_dec x (2 ^ 53 + 1)) as [-> | Hne].
  - vm_compute. split; discriminate.
  - rewrite to_double_exact by lia. lia.
Qed.

Lemma round_up_BS_spec x :
  x <= round_up_BS x < x + 32 /\ round_up_BS x mod 32 = 0.
Proof.
  unfold round_up_BS, BS.
  pose proof (Z.div_mod (x + 32 - 1) 32 ltac:(lia)) as Hd.
  pose proof (Z.mod_pos_bound (x + 32 - 1) 32 ltac:(lia)) as Hm.
  split; [lia|]. apply Z.mod_mul. lia.
Qed.

Lemma req_size_of_exact size :
  0 <= size -> size + 2 * TYPE_SIZE <= 2 ^ 53 ->
  req_size_of size = Some (round_up_BS (size + 2 * TYPE_SIZE)).
Proof.
  intros H0 H1. unfold req_size_of, ceil_mul, TYPE_SIZE in *.
  rewrite wrap_small by (unfold modulus; lia).
  rewrite to_double_exact by lia.
  pose proof (round_up_BS_spec (size + 2 * 8)) as [Hr _].
  unfold round_up_BS, BS in *.
  replace ((size + 2 * 8 + 32 - 1) / 32 * 32 <? modulus) with true; [reflexivity|].
  symmetry. apply Z.ltb_lt. unfold modulus. lia.
Qed.

(** ** Tiled heaps *)

Lemma block_ok_spec m e b :
  block_ok m e b = true ->
  32 <= b_size b /\ b_size b mod 32 = 0 /\ (b_status b = FREE \/ b_status b = ALLOC)
  /\ GET m (b_addr b + b_size b - 8) = GET m (b_addr b)
  /\ b_addr b + b_size b <= e.
Proof.
  unfold block_ok, BS, TYPE_SIZE.
  rewrite !andb_true_iff, orb_true_iff, !Z.eqb_eq, !Z.leb_le. tauto.
Qed.

Lemma heap_walk_tiled fuel m p e bl :
  heap_walk fuel m p e = Some bl ->
  forallb (block_ok m e) bl = true -> p <= e ->
  tiled m p bl e /\ (length bl < fuel)%nat.
Proof.
  revert p bl. induction fuel as [|fuel IH]; intros p bl H Hok Hle; [discriminate|].
  simpl in H. destruct (p <? e) eqn:Elt.
  - destruct ((0 <? GET_SIZE m p) && (p + GET_SIZE m p <? modulus)) eqn:Eok; [|discriminate].
    destruct (heap_walk fuel m (p + GET_SIZE m p) e) as [bl'|] eqn:Erest; [|discriminate].
    injection H as <-. simpl in Hok. apply andb_true_iff in Hok. destruct Hok as [Hb Hok].
    apply block_ok_spec in Hb. simpl in Hb.
    destruct (IH _ _ Erest Hok ltac:(lia)) as [Ht Hl].
    simpl. repeat split; try assumption. lia.
  - injection H as <-. apply Z.ltb_ge in Elt. simpl. split; lia.
Qed.

(** What a block of a tiled heap satisfies. *)
Lemma tiled_In m e :
  forall bl p b,
    tiled m p bl e -> forallb (block_ok m e) bl = true -> In b bl ->
    p <= b_addr b /\ (b_addr b - p) mod 8 = 0
    /\ b_size b = GET_SIZE m (b_addr b) /\ b_status b = GET_STATUS m (b_addr b).
Proof.
  induction bl as [|b0 bl IH]; intros p b Ht Hok Hin; [destruct Hin|].
  simpl in Ht. destruct Ht as (Ha & Hs & Hst & Ht).
  simpl in Hok. apply andb_true_iff in Hok. destruct Hok as [Hb0 Hok].
  destruct Hin as [<- | Hin].
  - rewrite Ha. replace (p - p) with 0 by lia. repeat split; try assumption; try lia.
  - apply block_ok_spec in Hb0. destruct Hb0 as (Hsz & Hmod & _).
    destruct (IH _ _ Ht Hok Hin) as (Hle & Hal & Hrest).
    repeat split; try apply Hrest; try lia.
    replace (b_addr b - p) with ((b_addr b - (p + b_size b0)) + b_size b0) by lia.
    rewrite Z.add_mod, Hal by lia.
    assert (b_size b0 mod 8 = 0) as ->.
    { pose proof (Z.div_mod (b_size b0) 32 ltac:(lia)).
      replace (b_size b0) with ((b_size b0 / 32 * 4) * 8) by lia. apply Z.mod_mul. lia. }
    reflexivity.
Qed.

Lemma forallb_In {A} (f : A -> bool) l x : forallb f l = true -> In x l -> f x = true.
Proof. intros H Hin. rewrite forallb_forall in H. apply H. exact Hin. Qed.

Lemma tiled_le m e e' :
  forall bl p, tiled m p bl e -> forallb (block_ok m e') bl = true ->
               p <= e /\ (bl <> [] -> p + 32 <= e).
Proof.
  induction bl as [|b bl IH]; intros p Ht Hok.
  - simpl in Ht. split; [lia | congruence].
  - simpl in Ht. destruct Ht as (Ha & Hs & Hst & Ht).
    simpl in Hok. apply andb_true_iff in Hok. destruct Hok as [Hb Hok].
    apply block_ok_spec in Hb. destruct (IH _ Ht Hok) as [Hle _]. lia.
Qed.

Lemma tiled_app m e :
  forall l1 l2 p,
    tiled m p (l1 ++ l2) e ->
    exists q, tiled m p l1 q /\ tiled m q l2 e.
Proof.
  induction l1 as [|b l1 IH]; intros l2 p Ht.
  - exists p. split; [reflexivity | exact Ht].
  - simpl in Ht. destruct Ht as (Ha & Hs & Hst & Ht).
    destruct (IH _ _ Ht) as (q & H1 & H2). exists q. simpl. tauto.
Qed.

(** ** First fit *)

Lemma fits_dec m size p :
  (GET_STATUS m p =? FREE) && (size <=? GET_SIZE m p) = false ->
  ~ fits size (mkBlock p (GET_SIZE m p) (GET_STATUS m p)).
Proof. intros H Hf. apply fits_test in Hf. congruence. Qed.

Lemma block_eta m p b :
  b_addr b = p -> b_size b = GET_SIZE m p -> b_status b = GET_STATUS m p ->
  b = mkBlock p (GET_SIZE m p) (GET_STATUS m p).
Proof. destruct b; simpl; intros -> -> ->; reflexivity. Qed.

Lemma ff_scan_spec m he size :
  forall l p fuel,
    tiled m p l he -> forallb (block_ok m he) l = true ->
    (length l < fuel)%nat -> 0 <= p -> he < modulus ->
    exists r,
      ff_scan fuel m he size p = Some r
      /\ ((exists b, In b l /\ b_addr b = r /\ fits size b)
          \/ (r = he /\ forall b, In b l -> ~ fits size b)).
Proof.
  induction l as [|b l IH]; intros p fuel Ht Hok Hfuel Hp Hhe;
    (destruct fuel as [|fuel]; [simpl in Hfuel; lia|]).
  - simpl in Ht. subst p. simpl. rewrite Z.ltb_irrefl.
    exists he. split; [reflexivity|]. right. split; [reflexivity|]. intros b [].
  - simpl in Ht. destruct Ht as (Ha & Hs & Hst & Ht).
    simpl in Hok. apply andb_true_iff in Hok. destruct Hok as [Hb Hok].
    apply block_ok_spec in Hb. destruct Hb as (Hsz & _ & _ & _ & Hend).
    pose proof (block_eta m p b Ha Hs Hst) as Hbeq.
    simpl. replace (p <? he) with true by (symmetry; apply Z.ltb_lt; lia).
    destruct ((GET_STATUS m p =? FREE) && (size <=? GET_SIZE m p)) eqn:Efit.
    + exists p. split; [reflexivity|]. left. exists b.
      split; [left; reflexivity|]. split; [exact Ha|].
      rewrite Hbeq. apply fits_test. exact Efit.
    + rewrite <- Hs. rewrite wrap_small by lia.
      destruct (IH (p + b_size b) fuel Ht Hok ltac:(simpl in Hfuel; lia) ltac:(lia) Hhe)
        as (r & Hr & Hcase).
      exists r. split; [exact Hr|].
      destruct Hcase as [(b' & Hin & Hb') | (Hrhe & Hnone)].
      * left. exists b'. split; [right; exact Hin | exact Hb'].
      * right. split; [exact Hrhe|]. intros b' [<- | Hin].
        -- rewrite Hbeq. apply fits_dec. exact Efit.
        -- apply Hnone. exact Hin.
Qed.

(** ** Next fit *)

Lemma nf_scan_to_cursor m hs he nb size :
  forall l p fuel,
    tiled m p l nb -> l <> [] -> forallb (block_ok m he) l = true ->
    (length l <= fuel)%nat -> 0 <= p -> he < modulus ->
    exists r,
      nf_scan fuel m hs nb size p = Some r
      /\ (r = nb \/ exists b, In b l /\ b_addr b = r /\ fits size b).
Proof.
  induction l as [|b l IH]; intros p fuel Ht Hne Hok Hfuel Hp Hhe; [congruence|].
  destruct fuel as [|fuel]; [simpl in Hfuel; lia|].
  simpl in Ht. destruct Ht as (Ha & Hs & Hst & Ht).
  simpl in Hok. apply andb_true_iff in Hok. destruct Hok as [Hb Hok].
  apply block_ok_spec in Hb. destruct Hb as (Hsz & _ & _ & _ & Hend).
  pose proof (block_eta m p b Ha Hs Hst) as Hbeq.
  simpl.
  destruct ((GET_STATUS m p =? FREE) && (size <=? GET_SIZE m p)) eqn:Efit.
  - exists p. split; [reflexivity|]. right. exists b.
    split; [left; reflexivity|]. split; [exact Ha|].
    rewrite Hbeq. apply fits_test. exact Efit.
  - rewrite <- Hs.
    replace (0 <? b_size b) with true by (symmetry; apply Z.ltb_lt; lia).
    rewrite wrap_small by lia.
    destruct l as [|b1 l].
    + simpl in Ht. rewrite Ht, Z.eqb_refl.
      exists nb. split; [reflexivity|]. left. reflexivity.
    + assert (Hlt : p + b_size b < nb).
      { destruct (tiled_le m nb he (b1 :: l) _ Ht Hok) as [_ H].
        specialize (H ltac:(congruence)). lia. }
      replace (p + b_size b =? nb) with false by (symmetry; apply Z.eqb_neq; lia).
      destruct (IH (p + b_size b) fuel Ht ltac:(congruence) Hok
                  ltac:(simpl in Hfuel |- *; lia) ltac:(lia) Hhe) as (r & Hr & Hcase).
      exists r. split; [exact Hr|].
      destruct Hcase as [Hrnb | (b' & Hin & Hb')].
      * left. exact Hrnb.
      * right. exists b'. split; [right; exact Hin | exact Hb'].
Qed.

Lemma sentinel_tag m he :
  GET m he = PACK 0 ALLOC -> GET_STATUS m he = ALLOC /\ GET_SIZE m he = 0.
Proof.
  intros H. unfold GET_STATUS, GET_SIZE. rewrite H. split; reflexivity.
Qed.

Lemma nf_scan_from_cursor m hs he nb size pre :
  tiled m hs pre nb -> forallb (block_ok m he) pre = true ->
  GET m he = PACK 0 ALLOC -> 0 <= hs -> he < modulus ->
  forall l p fuel,
    tiled m p l he -> l <> [] -> forallb (block_ok m he) l = true ->
    (length l + 1 + length pre <= fuel)%nat -> nb <= p -> 0 <= p ->
    exists r,
      nf_scan fuel m hs nb size p = Some r
      /\ ((exists b, In b (pre ++ l) /\ b_addr b = r /\ fits size b)
          \/ (r = nb /\ forall b, In b l -> ~ fits size b)).
Proof.
  intros Htpre Hokpre Hsent Hhs Hhe.
  destruct (sentinel_tag _ _ Hsent) as [Hsst Hssz].
  induction l as [|b l IH]; intros p fuel Ht Hne Hok Hfuel Hnb Hp; [congruence|].
  destruct fuel as [|fuel]; [simpl in Hfuel; lia|].
  simpl in Ht. destruct Ht as (Ha & Hs & Hst & Ht).
  simpl in Hok. apply andb_true_iff in Hok. destruct Hok as [Hb Hok].
  apply block_ok_spec in Hb. destruct Hb as (Hsz & _ & _ & _ & Hend).
  pose proof (block_eta m p b Ha Hs Hst) as Hbeq.
  simpl.
  destruct ((GET_STATUS m p =? FREE) && (size <=? GET_SIZE m p)) eqn:Efit.
  - exists p. split; [reflexivity|]. left. exists b.
    split; [apply in_or_app; right; left; reflexivity|]. split; [exact Ha|].
    rewrite Hbeq. apply fits_test. exact Efit.
  - assert (Hunfit : ~ fits size b) by (rewrite Hbeq; apply fits_dec; exact Efit).
    rewrite <- Hs.
    replace (0 <? b_size b) with true by (symmetry; apply Z.ltb_lt; lia).
    rewrite wrap_small by lia.
    replace (p + b_size b =? nb) with false by (symmetry; apply Z.eqb_neq; lia).
    destruct l as [|b1 l].
    + (* the last block: on to the end sentinel, then to heap_start *)
      simpl in Ht. rewrite Ht.
      destruct fuel as [|fuel]; [simpl in Hfuel; lia|].
      simpl. rewrite Hsst, Hssz. simpl.
      destruct pre as [|b0 pre'].
      * simpl in Htpre. rewrite Htpre, Z.eqb_refl.
        exists nb. split; [reflexivity|]. right. split; [reflexivity|].
        intros b' [<- | []]. exact Hunfit.
      * assert (Hlt : hs < nb).
        { destruct (tiled_le m nb he (b0 :: pre') hs Htpre Hokpre) as [_ H].
          specialize (H ltac:(congruence)). lia. }
        replace (hs =? nb) with false by (symmetry; apply Z.eqb_neq; lia).
        destruct (nf_scan_to_cursor m hs he nb size (b0 :: pre') hs fuel Htpre
                    ltac:(congruence) Hokpre ltac:(simpl in Hfuel |- *; lia) Hhs Hhe)
          as (r & Hr & Hcase).
        exists r. split; [exact Hr|].
        destruct Hcase as [Hrnb | (b' & Hin & Hb')].
        -- right. split; [exact Hrnb|]. intros b' [<- | []]. exact Hunfit.
        -- left. exists b'. split; [apply in_or_app; left; exact Hin | exact Hb'].
    + destruct (IH (p + b_size b) fuel Ht ltac:(congruence) Hok
                  ltac:(simpl in Hfuel |- *; lia) ltac:(lia) ltac:(lia)) as (r & Hr & Hcase).
      exists r. split; [exact Hr|].
      destruct Hcase as [(b' & Hin & Hb') | (Hrnb & Hnone)].
      * left. exists b'. split; [|exact Hb'].
        apply in_app_or in Hin. apply in_or_app.
        destruct Hin as [Hin | Hin]; [left; exact Hin | right; right; exact Hin].
      * right. split; [exact Hrnb|]. intros b' [<- | Hin]; [exact Hunfit | apply Hnone; exact Hin].
Qed.

(** ** The three policies on a well-formed heap *)

Lemma existsb_split {A} (f : A -> bool) l :
  existsb f l = true -> exists pre x post, l = pre ++ x :: post /\ f x = true.
Proof.
  induction l as [|a l IH]; simpl; [discriminate|].
  destruct (f a) eqn:E.
  - intros _. exists [], a, l. split; [reflexivity | exact E].
  - simpl. intros H. destruct (IH H) as (pre & x & post & -> & Hx).
    exists (a :: pre), x, post. split; [reflexivity | exact Hx].
Qed.

Lemma heap_ok_spec fuel s :
  heap_ok fuel s = true ->
  exists bl,
    heap_blocks fuel s = Some bl
    /\ tiled (memory s) (heap_start s) bl (heap_end s)
    /\ forallb (block_ok (memory s) (heap_end s)) bl = true
    /\ (length bl < fuel)%nat
    /\ 8 <= heap_start s /\ heap_start s mod 8 = 0 /\ heap_start s < heap_end s
    /\ GET (memory s) (heap_end s) = PACK 0 ALLOC
    /\ (exists pre b post, bl = pre ++ b :: post /\ b_addr b = next_block s)
    /\ segment_ok s = true.
Proof.
  unfold heap_ok. destruct (heap_blocks fuel s) as [bl|] eqn:Hwalk; [|discriminate].
  unfold TYPE_SIZE.
  rewrite !andb_true_iff, !Z.leb_le, !Z.eqb_eq, Z.ltb_lt.
  intros ((((((Hok & Hhs) & Hal) & Hlt) & Hsent) & Hcur) & Hseg).
  exists bl. destruct (heap_walk_tiled _ _ _ _ _ Hwalk Hok ltac:(lia)) as [Ht Hl].
  repeat split; try assumption.
  destruct (existsb_split _ _ Hcur) as (pre & b & post & Hbl & Hb).
  exists pre, b, post. split; [exact Hbl | apply Z.eqb_eq; exact Hb].
Qed.

Lemma unfit_last (bl : list block) size :
  (forall b, In b bl -> ~ fits size b) ->
  forall pre b, bl = pre ++ [b] -> ~ fits size b.
Proof.
  intros H pre b ->. apply H. apply in_or_app. right. left. reflexivity.
Qed.

Lemma locator_spec fuel s size bl :
  heap_ok fuel s = true -> heap_blocks fuel s = Some bl ->
  mm_initialized s <> 0 -> get_free_block s <> None ->
  exists r s',
    call_get_free_block fuel size s = Ret r s'
    /\ ((r = NULL /\ s' = s /\ forall pre b, bl = pre ++ [b] -> ~ fits size b)
        \/ (exists b, In b bl /\ b_addr b = r /\ fits size b
                      /\ (s' = s \/ s' = set_next_block r s))).
Proof.
  intros Hok Hwalk Hinit Hpol.
  destruct (heap_ok_spec _ _ Hok)
    as (bl' & Hwalk' & Ht & Hbok & Hlen & Hhs & Hal & Hlt & Hsent & Hcur & Hseg).
  rewrite Hwalk in Hwalk'. injection Hwalk' as <-.
  pose proof (segment_ok_spec s Hseg) as (_ & _ & _ & Hher).
  assert (Hmodulus : modulus = 2 ^ 64) by reflexivity.
  assert (Hinit' : (mm_initialized s =? 0) = false) by (apply Z.eqb_neq; exact Hinit).
  unfold call_get_free_block.
  destruct (get_free_block s) as [[| |]|]; [| | |congruence].
  - (* first fit *)
    unfold ff_get_free_block. rewrite Hinit'.
    destruct (ff_scan_spec (memory s) (heap_end s) size bl (heap_start s) fuel Ht Hbok Hlen
                ltac:(lia) ltac:(lia)) as (r & Hr & Hcase).
    rewrite Hr. destruct Hcase as [(b & Hin & Hb & Hfit) | (Hrhe & Hnone)].
    + pose proof (forallb_In _ _ _ Hbok Hin) as Hb_ok. apply block_ok_spec in Hb_ok.
      destruct (tiled_In _ _ _ _ _ Ht Hbok Hin) as (_ & _ & _ & Hst).
      replace (heap_end s <=? r) with false by (symmetry; apply Z.leb_gt; lia).
      replace (GET_STATUS (memory s) r =? ALLOC) with false.
      * exists r, s. split; [reflexivity|]. right. exists b. tauto.
      * symmetry. apply Z.eqb_neq. rewrite <- Hb, <- Hst. destruct Hfit as [-> _]. discriminate.
    + subst r. rewrite Z.leb_refl. exists NULL, s. split; [reflexivity|].
      left. split; [reflexivity|]. split; [reflexivity|]. apply unfit_last. exact Hnone.
  - (* next fit *)
    unfold nf_get_free_block. rewrite Hinit'.
    destruct Hcur as (pre & b0 & post & Hbl & Hb0). subst bl.
    destruct (tiled_app _ _ _ _ _ Ht) as (q & Htpre & Htl).
    assert (Hq : q = next_block s) by (simpl in Htl; destruct Htl as (Ha & _); congruence).
    subst q.
    rewrite forallb_app in Hbok. apply andb_true_iff in Hbok. destruct Hbok as [Hokpre Hokl].
    destruct (tiled_le _ _ _ _ _ Htpre Hokpre) as [Hnb _].
    destruct (nf_scan_from_cursor (memory s) (heap_start s) (heap_end s) (next_block s) size pre
                Htpre Hokpre Hsent ltac:(lia) ltac:(lia) (b0 :: post) (next_block s) fuel Htl
                ltac:(congruence) Hokl
                ltac:(rewrite length_app in Hlen; simpl in Hlen |- *; lia) ltac:(lia) ltac:(lia))
      as (r & Hr & Hcase).
    rewrite Hr. destruct Hcase as [(b & Hin & Hb & Hfit) | (Hrnb & Hnone)].
    + assert (Hbok : forallb (block_ok (memory s) (heap_end s)) (pre ++ b0 :: post) = true)
        by (rewrite forallb_app, Hokpre, Hokl; reflexivity).
      destruct (tiled_In _ _ _ _ _ Ht Hbok Hin) as (_ & _ & Hsz & Hst).
      replace (GET_STATUS (memory s) r =? ALLOC) with false
        by (symmetry; apply Z.eqb_neq; rewrite <- Hb, <- Hst;
            destruct Hfit as [-> _]; discriminate).
      replace (GET_SIZE (memory s) r <? size) with false
        by (symmetry; apply Z.ltb_ge; rewrite <- Hb, <- Hsz; apply Hfit).
      rewrite andb_false_r.
      exists r, (set_next_block r s). split; [reflexivity|]. right. exists b.
      repeat split; try assumption; try apply Hfit. right. reflexivity.
    + subst r. rewrite Z.eqb_refl.
      simpl in Htl. destruct Htl as (Ha & Hsz & Hst & _).
      pose proof (Hnone b0 (or_introl eq_refl)) as Hunfit.
      simpl in Hokl. apply andb_true_iff in Hokl. destruct Hokl as [Hb0ok _].
      apply block_ok_spec in Hb0ok. destruct Hb0ok as (_ & _ & Hst01 & _).
      replace ((GET_STATUS (memory s) (next_block s) =? ALLOC)
               || (GET_SIZE (memory s) (next_block s) <? size)) with true.
      * exists NULL, s. split; [reflexivity|]. left. split; [reflexivity|]. split; [reflexivity|].
        intros pre' b Heq. apply Hnone.
        destruct post as [|b1 post'] using rev_ind.
        -- apply app_inj_tail in Heq. destruct Heq as [_ <-]. left. reflexivity.
        -- clear IHpost'. rewrite app_comm_cons, app_assoc in Heq.
           apply app_inj_tail in Heq. destruct Heq as [_ <-].
           right. apply in_or_app. right. left. reflexivity.
      * symmetry. apply orb_true_iff. rewrite <- Hst, <- Hsz.
        destruct Hst01 as [Hfree | Halloc].
        -- right. apply Z.ltb_lt. unfold fits in Hunfit. lia.
        -- left. apply Z.eqb_eq. exact Halloc.
  - (* best fit *)
    unfold bf_get_free_block. rewrite Hinit'.
    destruct (bf_scan_spec fuel (memory s) (heap_end s) size (heap_start s) NULL [] bl
                ltac:(lia) Hwalk) as (r & Hr & Hans).
    { left. split; [reflexivity|]. intros b []. }
    rewrite Hr. simpl app in Hans.
    exists r, s. split; [reflexivity|].
    destruct Hans as [[Hnull Hnone] | (pre & b & post & Hbl & Hb & Hfit & _)].
    + left. split; [exact Hnull|]. split; [reflexivity|]. apply unfit_last. exact Hnone.
    + right. exists b. subst bl. repeat split; try apply Hfit; try (symmetry; exact Hb).
      * apply in_or_app. right. left. reflexivity.
      * left. reflexivity.
Qed.

(** ** Placing a block *)

Lemma PACK_ALLOC size : size mod 8 = 0 -> PACK size ALLOC = size + 1.
Proof. intros H. apply PACK_spec; [exact H | unfold ALLOC; lia]. Qed.

Lemma place_spec s start req prev_size :
  8 <= start -> start + prev_size < modulus ->
  GET_SIZE (memory s) start = prev_size ->
  16 <= req <= prev_size -> req mod 8 = 0 ->
  exists s',
    place start req s = Ret (start + 8) s'
    /\ GET (memory s') start = PACK req ALLOC
    /\ heap_start s' = heap_start s /\ heap_end s' = heap_end s.
Proof.
  intros Hstart Hlt Hsz Hreq Hmod.
  assert (Hmodulus : modulus = 2 ^ 64) by reflexivity.
  unfold place. rewrite Hsz. unfold TYPE_SIZE.
  rewrite (wrap_small (start + req)) by lia.
  rewrite (PREV_PTR_small (start + req)) by lia.
  rewrite (wrap_small (prev_size - req)) by lia.
  rewrite (wrap_small (start + 8)) by lia.
  assert (Htag : wrap (PACK req ALLOC) = PACK req ALLOC).
  { rewrite PACK_ALLOC by exact Hmod. apply wrap_small. lia. }
  eexists. split; [reflexivity|]. cbn [memory set_memory heap_start heap_end].
  split; [|split; reflexivity].
  destruct (prev_size - req =? 0) eqn:E.
  - rewrite GET_PUT_other by lia. rewrite GET_PUT_same. exact Htag.
  - apply Z.eqb_neq in E.
    rewrite (wrap_small (start + req + (prev_size - req))) by lia.
    rewrite (PREV_PTR_small (start + req + (prev_size - req))) by lia.
    rewrite !GET_PUT_other by lia. rewrite GET_PUT_same. exact Htag.
Qed.

(** ** Growing the heap *)

Lemma ceil_mul_CHUNKSIZE x :
  0 <= x <= 2 ^ 53 + 1 ->
  exists c, ceil_mul CHUNKSIZE x = Some c
            /\ x - 1 <= c <= x + 4095 /\ c mod 4096 = 0.
Proof.
  intros Hx. unfold ceil_mul. change CHUNKSIZE with 4096.
  pose proof (to_double_near x Hx) as Hd.
  set (d := to_double x) in *.
  pose proof (Z.div_mod (d + 4096 - 1) 4096 ltac:(lia)) as Hq.
  pose proof (Z.mod_pos_bound (d + 4096 - 1) 4096 ltac:(lia)) as Hr.
  replace ((d + 4096 - 1) / 4096 * 4096 <? modulus) with true
    by (symmetry; apply Z.ltb_lt; unfold modulus; lia).
  eexists. split; [reflexivity|]. split; [lia|]. apply Z.mod_mul. lia.
Qed.

Lemma tiled_last m e :
  forall pre p b,
    tiled m p (pre ++ [b]) e ->
    b_addr b + b_size b = e
    /\ b_size b = GET_SIZE m (b_addr b) /\ b_status b = GET_STATUS m (b_addr b).
Proof.
  intros pre p b Ht. destruct (tiled_app _ _ _ _ _ Ht) as (q & _ & Hb).
  simpl in Hb. destruct Hb as (Ha & Hs & Hst & He). subst q. tauto.
Qed.

Lemma expand_heap_spec fuel s req bl :
  heap_ok fuel s = true -> heap_blocks fuel s = Some bl ->
  (forall pre b, bl = pre ++ [b] -> ~ fits req b) ->
  32 <= req <= 2 ^ 53 -> req mod 8 = 0 ->
  ds_cur (dseg s) + req + INITCHUNK + CHUNKSIZE <= ds_max (dseg s) ->
  ds_max (dseg s) <= 2 ^ 63 ->
  exists start s',
    expand_heap req s = Ret start s'
    /\ heap_start s <= start /\ start mod 8 = 0
    /\ req <= GET_SIZE (memory s') start
    /\ start + GET_SIZE (memory s') start = heap_end s'
    /\ heap_end s' < 2 ^ 63 /\ heap_start s' = heap_start s.
Proof.
  intros Hok Hwalk Hunfit Hreq Hmod Hroom Hmax.
  destruct (heap_ok_spec _ _ Hok)
    as (bl' & Hwalk' & Ht & Hbok & Hlen & Hhs & Hal & Hlt & Hsent & Hcur & Hseg).
  rewrite Hwalk in Hwalk'. injection Hwalk' as <-.
  pose proof (segment_ok_spec s Hseg) as (Hds & Hcurr & Hhe & Hher).
  assert (Hmodulus : modulus = 2 ^ 64) by reflexivity.
  (* the last block *)
  assert (Hne : bl <> []).
  { intros ->. simpl in Ht. lia. }
  destruct (exists_last Hne) as (pre & b & Hbl).
  specialize (Hunfit pre b Hbl). subst bl.
  destruct (tiled_last _ _ _ _ _ Ht) as (Hbend & Hbsz & Hbst).
  assert (Hin : In b (pre ++ [b])) by (apply in_or_app; right; left; reflexivity).
  pose proof (forallb_In _ _ _ Hbok Hin) as Hb_ok. apply block_ok_spec in Hb_ok.
  destruct Hb_ok as (Hb32 & Hbmod & Hb01 & Hbftr & _).
  destruct (tiled_In _ _ _ _ _ Ht Hbok Hin) as (Hble & Hbal & _ & _).
  rewrite Hbend in Hbftr.
  assert (Hprev : PREV_PTR (heap_end s) = heap_end s - 8) by (apply PREV_PTR_small; lia).
  assert (Hfst : GET_STATUS (memory s) (heap_end s - 8) = b_status b)
    by (unfold GET_STATUS; rewrite Hbftr; symmetry; exact Hbst).
  assert (Hfsz : GET_SIZE (memory s) (heap_end s - 8) = b_size b)
    by (unfold GET_SIZE; rewrite Hbftr; symmetry; exact Hbsz).
  unfold expand_heap. rewrite Hprev, Hfst, Hfsz.
  change INITCHUNK with 65536 in *. change CHUNKSIZE with 4096 in *.
  set (size0 := if b_status b =? FREE then b_size b else 0).
  assert (Hsize0 : 0 <= size0 < req /\ size0 mod 8 = 0
                   /\ heap_start s <= heap_end s - size0
                   /\ (heap_end s - size0) mod 8 = 0).
  { assert (Hhe8 : heap_end s mod 8 = 0).
    { rewrite Hhe. replace ((ds_cur (dseg s) - 1) / 32 * 32)
        with (((ds_cur (dseg s) - 1) / 32 * 4) * 8) by lia. apply Z.mod_mul. lia. }
    assert (Hbs8 : b_size b mod 8 = 0).
    { pose proof (Z.div_mod (b_size b) 32 ltac:(lia)).
      replace (b_size b) with ((b_size b / 32 * 4) * 8) by lia. apply Z.mod_mul. lia. }
    unfold size0. destruct (b_status b =? FREE) eqn:Efree.
    - apply Z.eqb_eq in Efree. unfold fits in Hunfit.
      repeat split; try lia.
      replace (heap_end s - b_size b) with (b_addr b) by lia.
      replace (b_addr b) with ((b_addr b - heap_start s) + heap_start s) by lia.
      rewrite Z.add_mod, Hbal, Hal by lia. reflexivity.
    - repeat split; try lia. rewrite Z.sub_0_r. exact Hhe8. }
  clearbody size0. destruct Hsize0 as (Hs0 & Hs0mod & Hs0lo & Hs0al).
  rewrite (wrap_small (req - size0 + 1)) by lia.
  destruct (ceil_mul_CHUNKSIZE (req - size0 + 1) ltac:(lia)) as (c0 & Hc0 & Hc0r & Hc0m).
  change CHUNKSIZE with 4096 in Hc0. rewrite Hc0.
  set (chunk := if c0 <? 65536 then 65536 else c0).
  assert (Hchunk : 65536 <= chunk <= req + 4096 + 65536 /\ req - size0 <= chunk
                   /\ chunk mod 32 = 0).
  { unfold chunk. destruct (c0 <? 65536) eqn:E.
    - apply Z.ltb_lt in E. repeat split; try lia.
    - apply Z.ltb_ge in E. repeat split; try lia.
      pose proof (Z.div_mod c0 4096 ltac:(lia)).
      replace c0 with ((c0 / 4096 * 128) * 32) by lia. apply Z.mod_mul. lia. }
  clearbody chunk. destruct Hchunk as (Hch & Hchlo & Hchmod).
  assert (Hsg : to_signed chunk = chunk).
  { unfold to_signed. replace (chunk <? 2 ^ 63) with true by (symmetry; apply Z.ltb_lt; lia).
    reflexivity. }
  destruct (move_break_spec s chunk Hds)
    as (brk & s1 & Hmb & Hmem & Hhs1 & _ & _ & _ & _ & _ & _ & _ & _ & _ & Hbrk).
  rewrite Hsg in Hbrk. specialize (Hbrk ltac:(lia)).
  rewrite Hmb.
  assert (Hhe' : wrap (brk - 1) / BS * BS = heap_end s + chunk).
  { unfold BS. rewrite wrap_small by lia. subst brk.
    pose proof (Z.div_mod chunk 32 ltac:(lia)) as Hdm.
    replace (ds_cur (dseg s) + chunk - 1) with (ds_cur (dseg s) - 1 + (chunk / 32) * 32) by lia.
    rewrite Z.div_add by lia. lia. }
  rewrite Hhe'.
  pose proof (Z.div_mod (ds_cur (dseg s) - 1) 32 ltac:(lia)) as Hdm'.
  pose proof (Z.mod_pos_bound (ds_cur (dseg s) - 1) 32 ltac:(lia)) as Hmb'.
  rewrite (wrap_small (heap_end s + chunk - heap_end s)) by lia.
  replace (heap_end s + chunk - heap_end s) with chunk by lia.
  rewrite (wrap_small (size0 + chunk)) by lia.
  replace (heap_end s + chunk - (size0 + chunk)) with (heap_end s - size0) by lia.
  rewrite (wrap_small (heap_end s - size0)) by lia.
  rewrite (PREV_PTR_small (heap_end s + chunk)) by lia.
  eexists _, _. split; [reflexivity|].
  cbn [memory set_memory set_next_block set_heap_end set_ds_heap_brk heap_start heap_end].
  rewrite Hmem.
  assert (Hsm : (size0 + chunk) mod 8 = 0).
  { rewrite Z.add_mod, Hs0mod by lia.
    pose proof (Z.div_mod chunk 32 ltac:(lia)).
    replace chunk with ((chunk / 32 * 4) * 8) by lia. rewrite Z.mod_mul by lia. reflexivity. }
  assert (Hgs : GET_SIZE
                  (PUT (PUT (PUT (memory s) (heap_end s - size0) (PACK (size0 + chunk) FREE))
                          (heap_end s + chunk - 8) (PACK (size0 + chunk) FREE))
                     (heap_end s + chunk) (PACK 0 ALLOC)) (heap_end s - size0)
                = size0 + chunk).
  { unfold GET_SIZE. rewrite !GET_PUT_other by lia. rewrite GET_PUT_same.
    rewrite PACK_FREE by lia. rewrite wrap_small by lia.
    pose proof (SIZE_PACK (size0 + chunk) FREE ltac:(lia) Hsm ltac:(unfold FREE; lia)) as H.
    rewrite PACK_FREE in H by lia. exact H. }
  rewrite Hgs. repeat split; try assumption; lia.
Qed.

(** C8, amended: the block [mm_malloc] hands out.  For a request of [size]
    bytes whose size plus two words is at most [2^53] (the sum does not wrap
    and the double-precision rounding is exact), on an initialised,
    well-formed heap whose provider has room for the request, the call
    returns a pointer [p]; the word before [p] is the header of an allocated
    block of [round_up(size + 2 words, 32)] bytes; [p] is word-aligned, and
    header and [p] lie within [heap_start .. heap_end). *)
Theorem mm_malloc_block :
  forall (fuel : nat) (s : state) (size : Z),
    0 <= size -> size + 2 * TYPE_SIZE <= 2 ^ 53 ->
    mm_initialized s <> 0 -> get_free_block s <> None ->
    heap_ok fuel s = true ->
    ds_cur (dseg s) + size + 2 * INITCHUNK <= ds_max (dseg s) ->
    ds_max (dseg s) <= 2 ^ 63 ->
    exists p s',
      mm_malloc fuel size s = Ret p s'
      /\ GET (memory s') (p - TYPE_SIZE)
         = PACK (round_up_BS (size + 2 * TYPE_SIZE)) ALLOC
      /\ p mod TYPE_SIZE = 0
      /\ heap_start s' <= p - TYPE_SIZE /\ p < heap_end s'.
Proof.
  intros fuel s size Hsize Hbig Hinit Hpol Hok Hroom Hmax.
  destruct (heap_ok_spec _ _ Hok)
    as (bl & Hwalk & Ht & Hbok & Hlen & Hhs & Hal & Hlt & Hsent & Hcur & Hseg).
  pose proof (segment_ok_spec s Hseg) as (Hds & Hcurr & Hhe & Hher).
  assert (Hmodulus : modulus = 2 ^ 64) by reflexivity.
  pose proof (round_up_BS_spec (size + 2 * TYPE_SIZE)) as [Hr Hrmod].
  unfold mm_malloc.
  replace (mm_initialized s =? 0) with false by (symmetry; apply Z.eqb_neq; exact Hinit).
  rewrite req_size_of_exact by assumption.
  remember (round_up_BS (size + 2 * TYPE_SIZE)) as req eqn:Ereq. clear Ereq.
  change TYPE_SIZE with 8 in *. change INITCHUNK with 65536 in Hroom.
  assert (Hreq : 32 <= req <= 2 ^ 53).
  { pose proof (Z.div_mod req 32 ltac:(lia)). lia. }
  assert (Hreq8 : req mod 8 = 0).
  { pose proof (Z.div_mod req 32 ltac:(lia)).
    replace req with ((req / 32 * 4) * 8) by lia. apply Z.mod_mul. lia. }
  destruct (locator_spec fuel s req bl Hok Hwalk Hinit Hpol) as (r & s1 & Hloc & Hcase).
  rewrite Hloc. cbn [bind].
  destruct Hcase as [(Hnull & Hs1 & Hunfit) | (b & Hin & Hb & Hfit & Hs1)].
  - (* no free block: the heap grows *)
    subst r s1. change (NULL =? NULL) with true. cbv iota.
    destruct (expand_heap_spec fuel s req bl Hok Hwalk Hunfit Hreq Hreq8)
      as (start & s2 & Hexp & Hlo & Hal2 & Hsz & Hend & Hhe2 & Hhs2);
      [change INITCHUNK with 65536; change CHUNKSIZE with 4096; lia | exact Hmax |].
    rewrite Hexp. cbn [bind].
    pose proof (GET_SIZE_range (memory s2) start) as [Hgr _].
    destruct (place_spec s2 start req (GET_SIZE (memory s2) start))
      as (s' & Hplace & Hhdr & Hhs' & Hhe'); try lia.
    exists (start + 8), s'. split; [exact Hplace|].
    replace (start + 8 - 8) with start by lia.
    split; [exact Hhdr|]. split.
    + rewrite Z.add_mod, Hal2 by lia. reflexivity.
    + lia.
  - (* a free block was found *)
    pose proof (forallb_In _ _ _ Hbok Hin) as Hb_ok. apply block_ok_spec in Hb_ok.
    destruct Hb_ok as (Hb32 & _ & _ & _ & Hbend).
    destruct (tiled_In _ _ _ _ _ Ht Hbok Hin) as (Hble & Hbal & Hbsz & _).
    rewrite Hb in *. destruct Hfit as [_ Hfit].
    replace (r =? NULL) with false by (symmetry; apply Z.eqb_neq; unfold NULL; lia).
    assert (Hmem1 : memory s1 = memory s /\ heap_start s1 = heap_start s
                    /\ heap_end s1 = heap_end s)
      by (destruct Hs1 as [-> | ->]; repeat split; reflexivity).
    destruct Hmem1 as (Hm1 & Hhs1 & Hhe1).
    destruct (place_spec s1 r req (b_size b))
      as (s' & Hplace & Hhdr & Hhs' & Hhe'); try lia.
    { rewrite Hm1. symmetry. exact Hbsz. }
    exists (r + 8), s'. split; [exact Hplace|].
    replace (r + 8 - 8) with r by lia.
    split; [exact Hhdr|]. split.
    + replace (r + 8) with ((r - heap_start s) + (heap_start s + 8)) by lia.
      rewrite Z.add_mod, Hbal by lia.
      replace ((heap_start s + 8) mod 8) with 0; [reflexivity|].
      rewrite Z.add_mod, Hal by lia. reflexivity.
    + lia.
Qed.

Lemma mm_malloc_block_witness :
  exists p s',
    mm_malloc 8 100000 three_allocated = Ret p s'
    /\ GET (memory s') (p - TYPE_SIZE) = PACK (round_up_BS (100000 + 2 * TYPE_SIZE)) ALLOC
    /\ p mod TYPE_SIZE = 0
    /\ heap_start s' <= p - TYPE_SIZE /\ p < heap_end s'.
Proof.
  apply (mm_malloc_block 8 three_allocated 100000).
  - lia.
  - vm_compute. discriminate.
  - vm_compute. discriminate.
  - vm_compute. discriminate.
  - vm_compute. reflexivity.
  - vm_compute. discriminate.
  - vm_compute. discriminate.
Defined.

(** The same request evaluated: the heap grows once, by the initial chunk
    size, and the block of 100032 bytes starts where the free tail started. *)
Example mm_malloc_growth_sample :
  match mm_malloc 8 100000 three_allocated with
  | Ret p s' =>
      p = 65672 /\ GET_SIZE (memory s') 65664 = 100032
      /\ heap_end s' = heap_end three_allocated + INITCHUNK
  | _ => False
  end.
Proof. vm_compute. repeat split; congruence. Qed.

(** ** Heap shrink and initialisation *)

(** X1: what the heap shrink gives back.  When the shrink code runs on a
    heap whose last block is FREE, [T] bytes long and ends at the end
    sentinel, [heap_end] moves down by nothing or by [T - INITCHUNK] floored
    to a multiple of [CHUNKSIZE]; it moves only if the block exceeds the
    initial chunk by a grow unit, the block that remains holds at least the
    initial chunk, and the move does happen when the provider allows it. *)
Theorem shrink_heap_release :
  forall (s : state) (start T : Z),
    segment_ok s = true ->
    8 <= start -> start + T = heap_end s -> 16 <= T -> T mod 8 = 0 ->
    GET (memory s) start = PACK T FREE ->
    GET (memory s) (heap_end s - 8) = PACK T FREE ->
    let released := heap_end s - heap_end (shrink_heap s) in
    let excess := (T - INITCHUNK) / CHUNKSIZE * CHUNKSIZE in
    (released = 0 \/ released = excess)
    /\ (released <> 0 -> INITCHUNK + CHUNKSIZE <= T)
    /\ released mod CHUNKSIZE = 0
    /\ (released <> 0 -> INITCHUNK <= heap_end (shrink_heap s) - start)
    /\ (INITCHUNK + CHUNKSIZE <= T ->
        ds_base (dseg s) <= ds_cur (dseg s) - excess -> released = excess).
Proof.
  intros s start T Hseg Hstart Hend HT Hmod Hhdr Hftr released excess.
  destruct (shrink_heap_spec s start T Hseg Hstart Hend HT Hmod Hhdr Hftr)
    as (_ & _ & Hcase & _ & Hgrant).
  unfold released, excess in *. clear released excess.
  change INITCHUNK with 65536 in *. change CHUNKSIZE with 4096 in *.
  pose proof (Z.div_mod (T - 65536) 4096 ltac:(lia)) as Hd.
  pose proof (Z.mod_pos_bound (T - 65536) 4096 ltac:(lia)) as Hm.
  remember ((T - 65536) / 4096) as k eqn:Hk.
  assert (Hmul : (heap_end s - heap_end (shrink_heap s)) mod 4096 = 0).
  { destruct Hcase as [-> | [_ ->]].
    - replace (heap_end s - heap_end s) with 0 by lia. reflexivity.
    - replace (heap_end s - (heap_end s - k * 4096)) with (k * 4096) by lia.
      apply Z.mod_mul. lia. }
  split; [|split; [|split; [exact Hmul | split]]].
  - destruct Hcase as [-> | [_ ->]]; [left | right]; lia.
  - destruct Hcase as [-> | [Hbig _]]; intros; lia.
  - destruct Hcase as [-> | [Hbig ->]]; intros; lia.
  - intros Hbig Hbase. rewrite (Hgrant Hbig Hbase). lia.
Qed.

Lemma shrink_heap_release_witness :
  let released := heap_end tail_released - heap_end (shrink_heap tail_released) in
  released = 8192 /\ released mod CHUNKSIZE = 0.
Proof.
  destruct (shrink_heap_release tail_released 131040 73728)
    as (_ & _ & Hmul & _ & Hgrant).
  - vm_compute. reflexivity.
  - vm_compute. discriminate.
  - vm_compute. reflexivity.
  - vm_compute. discriminate.
  - vm_compute. reflexivity.
  - vm_compute. reflexivity.
  - vm_compute. reflexivity.
  - split; [|exact Hmul]. apply Hgrant; vm_compute; discriminate.
Defined.

Lemma align_down_32 x : 0 <= x -> x - 31 <= x / 32 * 32 <= x /\ (x / 32 * 32) mod 32 = 0.
Proof.
  intros Hx. pose proof (Z.div_mod x 32 ltac:(lia)).
  pose proof (Z.mod_pos_bound x 32 ltac:(lia)).
  split; [lia|]. apply Z.mod_mul. lia.
Qed.

(** X2: what [mm_init] sets up.  On a clean data segment with a non-zero
    page size and room for the initial chunk, initialisation with any of the
    three policies returns, marks the allocator initialised, and leaves a
    well-formed heap made of one FREE block that spans
    [heap_start .. heap_end). *)
Theorem mm_init_heap_ok :
  forall (ap : AllocationPolicy) (m : mem) (d : dataseg),
    (forall n, ap <> ap_invalid n) ->
    0 < ds_base d -> ds_cur d = ds_base d -> ds_pagesize d <> 0 ->
    ds_base d + INITCHUNK <= ds_max d -> ds_base d + INITCHUNK < 2 ^ 63 ->
    exists s,
      mm_init ap (boot m d) = Ret tt s
      /\ mm_initialized s = 1
      /\ heap_blocks 2 s = Some [mkBlock (heap_start s) (heap_end s - heap_start s) FREE]
      /\ heap_ok 2 s = true.
Proof.
  intros ap m d Hap Hbase Hclean Hpage Hroom Hsmall.
  assert (Hmodulus : modulus = 2 ^ 64) by reflexivity.
  change INITCHUNK with 65536 in *.
  assert (Hpol : exists f, match ap with
                           | ap_FirstFit => Some first_fit
                           | ap_NextFit => Some next_fit
                           | ap_BestFit => Some best_fit
                           | ap_invalid _ => None
                           end = Some f).
  { destruct ap; try (eexists; reflexivity). exfalso. exact (Hap n eq_refl). }
  destruct Hpol as (f & Hf).
  unfold mm_init. rewrite Hf.
  change (dseg (set_get_free_block (Some f) (boot m d))) with d.
  unfold ds_heap_stat, ds_getpagesize.
  rewrite Hclean.
  replace (ds_base d =? NULL) with false by (symmetry; apply Z.eqb_neq; unfold NULL; lia).
  rewrite Z.eqb_refl. cbn [negb].
  replace (ds_pagesize d =? 0) with false by (symmetry; apply Z.eqb_neq; exact Hpage).
  match goal with |- context [move_break ?i ?s0] =>
    destruct (move_break_spec s0 i) as
      (brk & s1 & Hmb & Hmem & _ & _ & _ & _ & _ & Hcur1 & Hbase1 & Hmax1 & Hin & _ & Hgrant)
  end.
  { cbn. lia. }
  change (dseg (set_get_free_block (Some f) (boot m d))) with d in *.
  change (memory (set_get_free_block (Some f) (boot m d))) with m in *.
  change (to_signed INITCHUNK) with 65536 in Hgrant.
  rewrite Hclean in Hgrant. specialize (Hgrant ltac:(lia)).
  rewrite Hmb.
  replace (brk =? SBRK_FAILED) with false
    by (symmetry; apply Z.eqb_neq; unfold SBRK_FAILED; lia).
  unfold BS.
  rewrite (wrap_small (ds_base d + 32)) by lia.
  rewrite (wrap_small (brk - 1)) by lia.
  destruct (align_down_32 (ds_base d + 32) ltac:(lia)) as [Hhs Hhsm].
  destruct (align_down_32 (brk - 1) ltac:(lia)) as [Hhe Hhem].
  set (hs := (ds_base d + 32) / 32 * 32) in *.
  set (he := (brk - 1) / 32 * 32) in *.
  rewrite (wrap_small (he - hs)) by lia.
  rewrite (PREV_PTR_small hs) by lia.
  rewrite (PREV_PTR_small he) by lia.
  rewrite Hmem.
  set (size := he - hs).
  assert (Hsize : 65472 - 31 - 31 <= size /\ size mod 32 = 0).
  { unfold size. split; [lia|].
    pose proof (Z.div_mod he 32 ltac:(lia)). pose proof (Z.div_mod hs 32 ltac:(lia)).
    replace (he - hs) with ((he / 32 - hs / 32) * 32) by lia. apply Z.mod_mul. lia. }
  destruct Hsize as [Hsz Hszm].
  assert (Hsz8 : size mod 8 = 0).
  { pose proof (Z.div_mod size 32 ltac:(lia)).
    replace size with ((size / 32 * 4) * 8) by lia. apply Z.mod_mul. lia. }
  set (m4 := PUT (PUT (PUT (PUT m (hs - 8) (PACK 0 ALLOC)) he (PACK 0 ALLOC)) hs (PACK size FREE))
                 (he - 8) (PACK size FREE)).
  assert (Htag : wrap (PACK size FREE) = PACK size FREE).
  { rewrite PACK_FREE by lia. apply wrap_small. lia. }
  assert (Hg1 : GET m4 hs = PACK size FREE).
  { unfold m4. rewrite GET_PUT_other by lia. rewrite GET_PUT_same. exact Htag. }
  assert (Hg2 : GET m4 (he - 8) = PACK size FREE).
  { unfold m4. rewrite GET_PUT_same. exact Htag. }
  assert (Hg3 : GET m4 he = PACK 0 ALLOC).
  { unfold m4. rewrite !GET_PUT_other by lia. rewrite GET_PUT_same. reflexivity. }
  destruct (GET_tag _ _ size Hg1 ltac:(lia) Hsz8) as [Hgs Hgst].
  eexists. split; [reflexivity|]. split; [reflexivity|].
  assert (Hwalk : heap_blocks 2
                    (mkState m4 (dseg s1) (ds_base d) brk hs he hs (ds_pagesize d)
                             (Some f) 1 (mm_loglevel s1) (calls s1))
                  = Some [mkBlock hs size FREE]).
  { unfold heap_blocks. cbn [memory heap_start heap_end heap_walk].
    replace (hs <? he) with true by (symmetry; apply Z.ltb_lt; lia).
    rewrite Hgs, Hgst.
    replace (0 <? size) with true by (symmetry; apply Z.ltb_lt; lia).
    replace (hs + size <? modulus) with true by (symmetry; apply Z.ltb_lt; lia).
    cbn [andb]. replace (hs + size) with he by (unfold size; lia).
    rewrite Z.ltb_irrefl. reflexivity. }
  split.
  - cbn [heap_start heap_end]. exact Hwalk.
  - unfold heap_ok. rewrite Hwalk.
    cbn [memory heap_start heap_end next_block dseg forallb existsb b_addr b_size b_status].
    unfold block_ok, segment_ok, BS, TYPE_SIZE.
    cbn [b_addr b_size b_status dseg heap_end].
    replace (hs + size - 8) with (he - 8) by (unfold size; lia).
    rewrite Hg1, Hg2, Hg3, Hcur1, Hbase1, Hmax1, !Z.eqb_refl.
    rewrite (wrap_small (brk - 1)) by lia. fold he. rewrite Z.eqb_refl.
    replace (32 <=? size) with true by (symmetry; apply Z.leb_le; lia).
    rewrite Hszm.
    replace (hs + size <=? he) with true by (symmetry; apply Z.leb_le; unfold size; lia).
    replace (8 <=? hs) with true by (symmetry; apply Z.leb_le; lia).
    replace (hs mod 8) with 0.
    2:{ pose proof (Z.div_mod hs 32 ltac:(lia)).
        replace hs with ((hs / 32 * 4) * 8) by lia. symmetry. apply Z.mod_mul. lia. }
    replace (hs <? he) with true by (symmetry; apply Z.ltb_lt; lia).
    replace (ds_base d <=? brk) with true by (symmetry; apply Z.leb_le; lia).
    replace (brk <=? ds_max d) with true by (symmetry; apply Z.leb_le; lia).
    replace (0 <? brk) with true by (symmetry; apply Z.ltb_lt; lia).
    replace (brk <? 2 ^ 63) with true by (symmetry; apply Z.ltb_lt; lia).
    reflexivity.
Qed.

Lemma mm_init_heap_ok_witness :
  exists s,
    mm_init ap_BestFit (boot zero_memory (sample_dataseg 65536)) = Ret tt s
    /\ mm_initialized s = 1
    /\ heap_blocks 2 s = Some [mkBlock (heap_start s) (heap_end s - heap_start s) FREE]
    /\ heap_ok 2 s = true.
Proof.
  apply (mm_init_heap_ok ap_BestFit zero_memory (sample_dataseg 65536)).
  - intros n. discriminate.
  - vm_compute. reflexivity.
  - reflexivity.
  - vm_compute. discriminate.
  - vm_compute. discriminate.
  - vm_compute. reflexivity.
Defined.

(** X3: a header of size 0 inside the heap.  The best-fit scan adds the
    size to [p] and so stays on that header: it never leaves its loop,
    whatever number of steps it is given. *)
Theorem bf_scan_zero_size_block :
  forall (fuel : nat) (m : mem) (he size p best : Z),
    0 <= p < he -> he <= modulus -> GET_SIZE m p = 0 ->
    bf_scan fuel m he size p best = None.
Proof.
  induction fuel as [|fuel IH]; intros m he size p best Hp Hhe Hzero; [reflexivity|].
  simpl. replace (p <? he) with true by (symmetry; apply Z.ltb_lt; lia).
  rewrite Hzero, Z.add_0_r. rewrite (wrap_small p) by lia.
  apply IH; assumption.
Qed.

Lemma bf_scan_zero_size_block_witness :
  bf_scan 1000 zero_memory 131040 32 65568 NULL = None.
Proof.
  apply (bf_scan_zero_size_block 1000 zero_memory 131040 32 65568 NULL).
  - lia.
  - vm_compute. discriminate.
  - vm_compute. reflexivity.
Defined.

(** ** First fit: the first block that fits *)

Lemma ff_scan_first :
  forall (fuel : nat) (m : mem) (e size p : Z) (bl : list block),
    0 < p -> heap_walk fuel m p e = Some bl ->
    exists r,
      ff_scan fuel m e size p = Some r
      /\ ((e <= r /\ forall b, In b bl -> ~ fits size b)
          \/ (r < e /\ GET_STATUS m r = FREE
              /\ exists pre b post,
                  bl = pre ++ b :: post /\ r = b_addr b /\ fits size b
                  /\ forall b', In b' pre -> ~ fits size b')).
Proof.
  induction fuel as [|fuel IH]; intros m e size p bl Hp Hwalk; [discriminate|].
  simpl in Hwalk. simpl. destruct (p <? e) eqn:Elt.
  - apply Z.ltb_lt in Elt.
    destruct ((0 <? GET_SIZE m p) && (p + GET_SIZE m p <? modulus)) eqn:Eok; [|discriminate].
    apply andb_true_iff in Eok. destruct Eok as [Epos Ewrap].
    apply Z.ltb_lt in Epos. apply Z.ltb_lt in Ewrap.
    destruct (heap_walk fuel m (p + GET_SIZE m p) e) as [bl'|] eqn:Erest; [|discriminate].
    injection Hwalk as <-.
    destruct ((GET_STATUS m p =? FREE) && (size <=? GET_SIZE m p)) eqn:Efit.
    + exists p. split; [reflexivity|]. right. split; [exact Elt|].
      pose proof Efit as Efit'. apply fits_test in Efit'.
      apply andb_true_iff in Efit. destruct Efit as [Est _]. apply Z.eqb_eq in Est.
      split; [exact Est|].
      exists [], (mkBlock p (GET_SIZE m p) (GET_STATUS m p)), bl'.
      repeat split; try apply Efit'. intros b' [].
    + rewrite wrap_small by lia.
      destruct (IH m e size (p + GET_SIZE m p) bl' ltac:(lia) Erest) as (r & Hr & Hcase).
      exists r. split; [exact Hr|].
      pose proof (fits_dec m size p Efit) as Hunfit.
      destruct Hcase as [[Hge Hnone] | (Hlt & Hst & pre & b & post & Hbl & Hrb & Hfit & Hpre)].
      * left. split; [exact Hge|]. intros b [<- | Hin]; [exact Hunfit | apply Hnone; exact Hin].
      * right. split; [exact Hlt|]. split; [exact Hst|].
        exists (mkBlock p (GET_SIZE m p) (GET_STATUS m p) :: pre), b, post.
        repeat split; try apply Hfit; try assumption.
        -- rewrite Hbl. reflexivity.
        -- intros b' [<- | Hin]; [exact Hunfit | apply Hpre; exact Hin].
  - apply Z.ltb_ge in Elt. injection Hwalk as <-. exists p. split; [reflexivity|].
    left. split; [exact Elt|]. intros b [].
Qed.

(** X4: the first-fit locator.  On an initialised heap whose headers can be
    followed from [heap_start] to [heap_end], the locator returns and leaves
    the state as it found it; its answer is the header of the first FREE
    block, in address order, with at least the requested size, and NULL when
    there is none. *)
Theorem ff_get_free_block_first_fit :
  forall (fuel : nat) (s : state) (size : Z) (bl : list block),
    mm_initialized s <> 0 ->
    0 < heap_start s ->
    heap_blocks fuel s = Some bl ->
    exists r, ff_get_free_block fuel size s = Ret r s /\ first_fit_answer bl size r.
Proof.
  intros fuel s size bl Hinit Hhs Hwalk.
  unfold ff_get_free_block.
  replace (mm_initialized s =? 0) with false by (symmetry; apply Z.eqb_neq; exact Hinit).
  destruct (ff_scan_first fuel (memory s) (heap_end s) size (heap_start s) bl Hhs Hwalk)
    as (r & Hr & Hcase).
  rewrite Hr.
  destruct Hcase as [[Hge Hnone] | (Hlt & Hst & pre & b & post & Hbl & Hrb & Hfit & Hpre)].
  - replace (heap_end s <=? r) with true by (symmetry; apply Z.leb_le; exact Hge).
    exists NULL. split; [reflexivity|]. left. split; [reflexivity | exact Hnone].
  - replace (heap_end s <=? r) with false by (symmetry; apply Z.leb_gt; exact Hlt).
    rewrite Hst. change (FREE =? ALLOC) with false.
    exists r. split; [reflexivity|]. right. exists pre, b, post. tauto.
Qed.

Lemma ff_get_free_block_first_fit_witness :
  exists r,
    ff_get_free_block 8 32 first_released = Ret r first_released
    /\ first_fit_answer
         [mkBlock 65568 32 FREE; mkBlock 65600 32 ALLOC; mkBlock 65632 32 ALLOC;
          mkBlock 65664 65376 FREE] 32 r.
Proof.
  apply (ff_get_free_block_first_fit 8 first_released 32).
  - vm_compute. discriminate.
  - vm_compute. reflexivity.
  - vm_compute. reflexivity.
Defined.

(** ** Next fit: the first block that fits, from the cursor round *)

Lemma nf_scan_to_cursor_first m hs he nb size :
  forall l p fuel,
    tiled m p l nb -> l <> [] -> forallb (block_ok m he) l = true ->
    (length l <= fuel)%nat -> 0 <= p -> he < modulus ->
    exists r,
      nf_scan fuel m hs nb size p = Some r
      /\ ((r = nb /\ forall b, In b l -> ~ fits size b)
          \/ (exists l1 b l2,
                l = l1 ++ b :: l2 /\ b_addr b = r /\ fits size b
                /\ forall b', In b' l1 -> ~ fits size b')).
Proof.
  induction l as [|b l IH]; intros p fuel Ht Hne Hok Hfuel Hp Hhe; [congruence|].
  destruct fuel as [|fuel]; [simpl in Hfuel; lia|].
  simpl in Ht. destruct Ht as (Ha & Hs & Hst & Ht).
  simpl in Hok. apply andb_true_iff in Hok. destruct Hok as [Hb Hok].
  apply block_ok_spec in Hb. destruct Hb as (Hsz & _ & _ & _ & Hend).
  pose proof (block_eta m p b Ha Hs Hst) as Hbeq.
  simpl.
  destruct ((GET_STATUS m p =? FREE) && (size <=? GET_SIZE m p)) eqn:Efit.
  - exists p. split; [reflexivity|]. right. exists [], b, l.
    split; [reflexivity|]. split; [exact Ha|].
    split; [rewrite Hbeq; apply fits_test; exact Efit|]. intros b' [].
  - assert (Hunfit : ~ fits size b) by (rewrite Hbeq; apply fits_dec; exact Efit).
    rewrite <- Hs.
    replace (0 <? b_size b) with true by (symmetry; apply Z.ltb_lt; lia).
    rewrite wrap_small by lia.
    destruct l as [|b1 l].
    + simpl in Ht. rewrite Ht, Z.eqb_refl.
      exists nb. split; [reflexivity|]. left. split; [reflexivity|].
      intros b' [<- | []]. exact Hunfit.
    + assert (Hlt : p + b_size b < nb).
      { destruct (tiled_le m nb he (b1 :: l) _ Ht Hok) as [_ H].
        specialize (H ltac:(congruence)). lia. }
      replace (p + b_size b =? nb) with false by (symmetry; apply Z.eqb_neq; lia).
      destruct (IH (p + b_size b) fuel Ht ltac:(congruence) Hok
                  ltac:(simpl in Hfuel |- *; lia) ltac:(lia) Hhe) as (r & Hr & Hcase).
      exists r. split; [exact Hr|].
      destruct Hcase as [[Hrnb Hnone] | (l1 & b' & l2 & Hl & Hb' & Hfit & Hl1)].
      * left. split; [exact Hrnb|].
        intros b' [<- | Hin]; [exact Hunfit | apply Hnone; exact Hin].
      * right. exists (b :: l1), b', l2. repeat split; try assumption; try apply Hfit.
        -- rewrite Hl. reflexivity.
        -- intros b2 [<- | Hin]; [exact Hunfit | apply Hl1; exact Hin].
Qed.

Lemma nf_scan_from_cursor_first m hs he nb size pre :
  tiled m hs pre nb -> forallb (block_ok m he) pre = true ->
  GET m he = PACK 0 ALLOC -> 0 <= hs -> he < modulus ->
  forall l p fuel,
    tiled m p l he -> l <> [] -> forallb (block_ok m he) l = true ->
    (length l + 1 + length pre <= fuel)%nat -> nb <= p -> 0 <= p ->
    exists r,
      nf_scan fuel m hs nb size p = Some r
      /\ ((r = nb /\ forall b, In b (l ++ pre) -> ~ fits size b)
          \/ (exists o1 b o2,
                l ++ pre = o1 ++ b :: o2 /\ b_addr b = r /\ fits size b
                /\ forall b', In b' o1 -> ~ fits size b')).
Proof.
  intros Htpre Hokpre Hsent Hhs Hhe.
  destruct (sentinel_tag _ _ Hsent) as [Hsst Hssz].
  induction l as [|b l IH]; intros p fuel Ht Hne Hok Hfuel Hnb Hp; [congruence|].
  destruct fuel as [|fuel]; [simpl in Hfuel; lia|].
  simpl in Ht. destruct Ht as (Ha & Hs & Hst & Ht).
  simpl in Hok. apply andb_true_iff in Hok. destruct Hok as [Hb Hok].
  apply block_ok_spec in Hb. destruct Hb as (Hsz & _ & _ & _ & Hend).
  pose proof (block_eta m p b Ha Hs Hst) as Hbeq.
  simpl nf_scan.
  destruct ((GET_STATUS m p =? FREE) && (size <=? GET_SIZE m p)) eqn:Efit.
  - exists p. split; [reflexivity|]. right. exists [], b, (l ++ pre).
    split; [reflexivity|]. split; [exact Ha|].
    split; [rewrite Hbeq; apply fits_test; exact Efit|]. intros b' [].
  - assert (Hunfit : ~ fits size b) by (rewrite Hbeq; apply fits_dec; exact Efit).
    rewrite <- Hs.
    replace (0 <? b_size b) with true by (symmetry; apply Z.ltb_lt; lia).
    rewrite wrap_small by lia.
    replace (p + b_size b =? nb) with false by (symmetry; apply Z.eqb_neq; lia).
    destruct l as [|b1 l].
    + simpl in Ht. rewrite Ht.
      destruct fuel as [|fuel]; [simpl in Hfuel; lia|].
      simpl nf_scan. rewrite Hsst, Hssz. simpl.
      destruct pre as [|b0 pre'].
      * simpl in Htpre. rewrite Htpre, Z.eqb_refl.
        exists nb. split; [reflexivity|]. left. split; [reflexivity|].
        intros b' [<- | []]. exact Hunfit.
      * assert (Hlt : hs < nb).
        { destruct (tiled_le m nb he (b0 :: pre') hs Htpre Hokpre) as [_ H].
          specialize (H ltac:(congruence)). lia. }
        replace (hs =? nb) with false by (symmetry; apply Z.eqb_neq; lia).
        destruct (nf_scan_to_cursor_first m hs he nb size (b0 :: pre') hs fuel Htpre
                    ltac:(congruence) Hokpre ltac:(simpl in Hfuel |- *; lia) Hhs Hhe)
          as (r & Hr & Hcase).
        exists r. split; [exact Hr|].
        destruct Hcase as [[Hrnb Hnone] | (l1 & b' & l2 & Hl & Hb' & Hfit & Hl1)].
        -- left. split; [exact Hrnb|].
           intros b' [<- | Hin]; [exact Hunfit | apply Hnone; exact Hin].
        -- right. exists (b :: l1), b', l2. repeat split; try assumption; try apply Hfit.
           ++ simpl. rewrite Hl. reflexivity.
           ++ intros b2 [<- | Hin]; [exact Hunfit | apply Hl1; exact Hin].
    + destruct (IH (p + b_size b) fuel Ht ltac:(congruence) Hok
                  ltac:(simpl in Hfuel |- *; lia) ltac:(lia) ltac:(lia)) as (r & Hr & Hcase).
      exists r. split; [exact Hr|].
      destruct Hcase as [[Hrnb Hnone] | (o1 & b' & o2 & Hl & Hb' & Hfit & Ho1)].
      * left. split; [exact Hrnb|].
        intros b' [<- | Hin]; [exact Hunfit | apply Hnone; exact Hin].
      * right. exists (b :: o1), b', o2. repeat split; try assumption; try apply Hfit.
        -- simpl. simpl in Hl. rewrite Hl. reflexivity.
        -- intros b2 [<- | Hin]; [exact Hunfit | apply Ho1; exact Hin].
Qed.

(** X5: the next-fit locator.  On an initialised, well-formed heap the
    locator returns; its answer is the header of the first FREE block with at
    least the requested size, met from the cursor's block to the end of the
    heap and then from [heap_start] to the cursor, and the cursor moves to
    it; when no block of the heap fits, the answer is NULL and the state is
    left as it was. *)
Theorem nf_get_free_block_next_fit :
  forall (fuel : nat) (s : state) (size : Z) (bl : list block),
    mm_initialized s <> 0 ->
    heap_ok fuel s = true -> heap_blocks fuel s = Some bl ->
    exists r,
      nf_get_free_block fuel size s
      = Ret r (if r =? NULL then s else set_next_block r s)
      /\ next_fit_answer bl (next_block s) size r.
Proof.
  intros fuel s size bl Hinit Hok Hwalk.
  destruct (heap_ok_spec _ _ Hok)
    as (bl' & Hwalk' & Ht & Hbok & Hlen & Hhs & Hal & Hlt & Hsent & Hcur & Hseg).
  rewrite Hwalk in Hwalk'. injection Hwalk' as <-.
  pose proof (segment_ok_spec s Hseg) as (_ & _ & _ & Hher).
  assert (Hmodulus : modulus = 2 ^ 64) by reflexivity.
  unfold nf_get_free_block.
  replace (mm_initialized s =? 0) with false by (symmetry; apply Z.eqb_neq; exact Hinit).
  destruct Hcur as (pre & b0 & post & Hbl & Hb0). subst bl.
  destruct (tiled_app _ _ _ _ _ Ht) as (q & Htpre & Htl).
  assert (Hq : q = next_block s) by (simpl in Htl; destruct Htl as (Ha & _); congruence).
  subst q.
  pose proof Hbok as Hbok'.
  rewrite forallb_app in Hbok. apply andb_true_iff in Hbok. destruct Hbok as [Hokpre Hokl].
  destruct (tiled_le _ _ _ _ _ Htpre Hokpre) as [Hnb _].
  destruct (nf_scan_from_cursor_first (memory s) (heap_start s) (heap_end s) (next_block s)
              size pre Htpre Hokpre Hsent ltac:(lia) ltac:(lia) (b0 :: post) (next_block s)
              fuel Htl ltac:(congruence) Hokl
              ltac:(rewrite length_app in Hlen; simpl in Hlen |- *; lia) ltac:(lia) ltac:(lia))
    as (r & Hr & Hcase).
  rewrite Hr. destruct Hcase as [[Hrnb Hnone] | (o1 & b & o2 & Ho & Hb & Hfit & Ho1)].
  - subst r. rewrite Z.eqb_refl.
    simpl in Htl. destruct Htl as (Ha & Hsz & Hst & _).
    pose proof (Hnone b0 (or_introl eq_refl)) as Hunfit.
    simpl in Hokl. apply andb_true_iff in Hokl. destruct Hokl as [Hb0ok _].
    apply block_ok_spec in Hb0ok. destruct Hb0ok as (_ & _ & Hst01 & _).
    replace ((GET_STATUS (memory s) (next_block s) =? ALLOC)
             || (GET_SIZE (memory s) (next_block s) <? size)) with true.
    + exists NULL. split; [reflexivity|].
      exists pre, b0, post. split; [reflexivity|]. split; [exact Hb0|].
      left. split; [reflexivity | exact Hnone].
    + symmetry. apply orb_true_iff. rewrite <- Hst, <- Hsz.
      destruct Hst01 as [Hfree | Halloc].
      * right. apply Z.ltb_lt. unfold fits in Hunfit. lia.
      * left. apply Z.eqb_eq. exact Halloc.
  - assert (Hin : In b (pre ++ b0 :: post)).
    { assert (Hin' : In b ((b0 :: post) ++ pre))
        by (rewrite Ho; apply in_or_app; right; left; reflexivity).
      apply in_app_or in Hin'. apply in_or_app. tauto. }
    destruct (tiled_In _ _ _ _ _ Ht Hbok' Hin) as (Hble & _ & Hsz & Hst).
    replace (GET_STATUS (memory s) r =? ALLOC) with false
      by (symmetry; apply Z.eqb_neq; rewrite <- Hb, <- Hst;
          destruct Hfit as [-> _]; discriminate).
    replace (GET_SIZE (memory s) r <? size) with false
      by (symmetry; apply Z.ltb_ge; rewrite <- Hb, <- Hsz; apply Hfit).
    rewrite andb_false_r.
    exists r. split.
    { replace (r =? NULL) with false by (symmetry; apply Z.eqb_neq; unfold NULL; lia).
      reflexivity. }
    exists pre, b0, post. split; [reflexivity|]. split; [exact Hb0|].
    right. exists o1, b, o2. repeat split; try assumption; try apply Hfit.
    symmetry. exact Hb.
Qed.

Lemma nf_get_free_block_next_fit_witness :
  exists r,
    nf_get_free_block 8 32 three_allocated
    = Ret r (if r =? NULL then three_allocated else set_next_block r three_allocated)
    /\ next_fit_answer
         [mkBlock 65568 32 ALLOC; mkBlock 65600 32 ALLOC; mkBlock 65632 32 ALLOC;
          mkBlock 65664 65376 FREE] (next_block three_allocated) 32 r.
Proof.
  apply (nf_get_free_block_next_fit 8 three_allocated 32).
  - vm_compute. discriminate.
  - vm_compute. reflexivity.
  - vm_compute. reflexivity.
Defined.

(** ** The consistency report *)

Lemma check_walk_spec :
  forall (fuel : nat) (m : mem) (he p errors : Z) (acc : list check_line) (bl : list block),
    0 < p -> heap_walk fuel m p he = Some bl ->
    check_walk fuel m he p errors acc
    = Some (rev (map (line_of_block m) bl) ++ acc,
            errors + Z.of_nat (length (filter (fun b => negb (tag_symmetric m b)) bl)),
            walk_end p bl, false).
Proof.
  induction fuel as [|fuel IH]; intros m he p errors acc bl Hp Hwalk; [discriminate|].
  simpl in Hwalk. simpl check_walk. destruct (p <? he) eqn:Elt.
  - destruct ((0 <? GET_SIZE m p) && (p + GET_SIZE m p <? modulus)) eqn:Eok; [|discriminate].
    apply andb_true_iff in Eok. destruct Eok as [Epos Ewrap].
    apply Z.ltb_lt in Epos. apply Z.ltb_lt in Ewrap.
    destruct (heap_walk fuel m (p + GET_SIZE m p) he) as [bl'|] eqn:Erest; [|discriminate].
    injection Hwalk as <-.
    pose proof (GET_SIZE_range m p) as [_ Hmod8].
    assert (Hsz8 : 8 <= GET_SIZE m p).
    { pose proof (Z.div_mod (GET_SIZE m p) 8 ltac:(lia)). lia. }
    fold (GET_SIZE m p). fold (GET_STATUS m p).
    rewrite (wrap_small (p + GET_SIZE m p)) by lia.
    unfold TYPE_SIZE. rewrite (wrap_small (p + GET_SIZE m p - 8)) by lia.
    fold (GET_SIZE m (p + GET_SIZE m p - 8)). fold (GET_STATUS m (p + GET_SIZE m p - 8)).
    replace (GET_SIZE m p =? 0) with false by (symmetry; apply Z.eqb_neq; lia).
    set (b := mkBlock p (GET_SIZE m p) (GET_STATUS m p)).
    assert (Hbad : negb (GET_SIZE m p =? GET_SIZE m (p + GET_SIZE m p - 8))
                   || negb (GET_STATUS m p =? GET_STATUS m (p + GET_SIZE m p - 8))
                   = negb (tag_symmetric m b)).
    { unfold tag_symmetric, b, TYPE_SIZE. simpl. rewrite negb_andb. reflexivity. }
    rewrite Hbad.
    rewrite (IH m he (p + GET_SIZE m p) _ _ bl' ltac:(lia) Erest).
    assert (Hline : line_of_block m b
                    = mkLine p (GET_SIZE m p) (GET_STATUS m p)
                        (if negb (tag_symmetric m b)
                         then Some (p + GET_SIZE m p - 8,
                                    GET_SIZE m (p + GET_SIZE m p - 8),
                                    GET_STATUS m (p + GET_SIZE m p - 8))
                         else None)).
    { unfold line_of_block, TYPE_SIZE. simpl b_addr. simpl b_size. simpl b_status.
      destruct (tag_symmetric m b); reflexivity. }
    rewrite <- Hline. simpl map. simpl rev. rewrite <- app_assoc. simpl app.
    simpl filter. simpl walk_end.
    destruct (tag_symmetric m b); simpl negb; cbv iota.
    + do 3 f_equal; try lia.
    + simpl length. rewrite Nat2Z.inj_succ.
      rewrite Z.add_succ_r, <- Z.add_succ_l, <- Z.add_1_r. reflexivity.
  - injection Hwalk as <-. simpl. rewrite Z.add_0_r. reflexivity.
Qed.

(** X6: the consistency report.  On an initialised heap whose headers can be
    followed from [heap_start] to [heap_end], [mm_check] returns without
    changing the state; it lists every block once, in address order, with an
    error entry exactly for the blocks whose footer differs from the header;
    the walk is not aborted; and "Block structure coherent." is announced
    exactly when the walk ends at [heap_end] and no block has such an
    error. *)
Theorem mm_check_report :
  forall (fuel : nat) (s : state) (bl : list block),
    mm_initialized s <> 0 ->
    0 < heap_start s ->
    heap_blocks fuel s = Some bl ->
    exists rep,
      mm_check fuel s = Ret rep s
      /\ report_lines rep = map (line_of_block (memory s)) bl
      /\ report_aborted rep = false
      /\ report_coherent rep
         = (walk_end (heap_start s) bl =? heap_end s)
           && forallb (tag_symmetric (memory s)) bl.
Proof.
  intros fuel s bl Hinit Hhs Hwalk.
  unfold mm_check.
  replace (mm_initialized s =? 0) with false by (symmetry; apply Z.eqb_neq; exact Hinit).
  rewrite (check_walk_spec fuel (memory s) (heap_end s) (heap_start s) 0 [] bl Hhs Hwalk).
  eexists. split; [reflexivity|]. cbn [report_lines report_aborted report_coherent].
  split; [rewrite app_nil_r, rev_involutive; reflexivity|].
  split; [reflexivity|]. f_equal.
  clear. induction bl as [|b bl IH]; [reflexivity|].
  simpl. destruct (tag_symmetric (memory s) b); simpl.
  - exact IH.
  - reflexivity.
Qed.

Lemma mm_check_report_witness :
  let bl := [mkBlock 65568 32 FREE; mkBlock 65600 32 ALLOC; mkBlock 65632 32 ALLOC;
             mkBlock 65664 65376 FREE] in
  exists rep,
    mm_check 8 first_released = Ret rep first_released
    /\ report_lines rep = map (line_of_block (memory first_released)) bl
    /\ report_aborted rep = false
    /\ report_coherent rep
       = (walk_end (heap_start first_released) bl =? heap_end first_released)
         && forallb (tag_symmetric (memory first_released)) bl.
Proof.
  apply (mm_check_report 8 first_released).
  - vm_compute. discriminate.
  - vm_compute. reflexivity.
  - vm_compute. reflexivity.
Defined.

(** ** Tilings *)

Lemma tiled_heap_walk m e :
  forall bl p fuel,
    tiled m p bl e -> forallb (block_ok m e) bl = true ->
    (length bl < fuel)%nat -> e < modulus ->
    heap_walk fuel m p e = Some bl.
Proof.
  induction bl as [|b bl IH]; intros p fuel Ht Hok Hlen He;
    (destruct fuel as [|fuel]; [simpl in Hlen; lia|]); simpl.
  - simpl in Ht. replace (p <? e) with false by (symmetry; apply Z.ltb_ge; lia).
    reflexivity.
  - simpl in Ht. destruct Ht as (Ha & Hs & Hst & Hrest).
    simpl in Hok. apply andb_true_iff in Hok. destruct Hok as [Hb Hok].
    apply block_ok_spec in Hb. destruct Hb as (H32 & _ & _ & _ & Hend).
    rewrite Ha in Hend.
    replace (p <? e) with true by (symmetry; apply Z.ltb_lt; lia).
    rewrite <- Hs.
    replace ((0 <? b_size b) && (p + b_size b <? modulus)) with true
      by (symmetry; apply andb_true_iff; split; apply Z.ltb_lt; lia).
    rewrite (IH (p + b_size b) fuel Hrest Hok ltac:(simpl in Hlen; lia) He).
    rewrite Hs. f_equal. f_equal. symmetry. apply block_eta; assumption.
Qed.

Lemma tiled_join m e :
  forall l1 l2 p q, tiled m p l1 q -> tiled m q l2 e -> tiled m p (l1 ++ l2) e.
Proof.
  induction l1 as [|b l1 IH]; intros l2 p q H1 H2; simpl in *.
  - subst q. exact H2.
  - destruct H1 as (Ha & Hs & Hst & Hrest). repeat split; try assumption.
    eapply IH; eassumption.
Qed.

Lemma block_ok_ext m m' he he' b :
  block_ok m he b = true -> b_addr b + b_size b <= he' ->
  (forall a, b_addr b <= a < b_addr b + b_size b -> m' a = m a) ->
  block_ok m' he' b = true.
Proof.
  intros Hok Hhe Hsame. pose proof (block_ok_spec _ _ _ Hok) as (H32 & Hmod & Hst & Hftr & Hend).
  unfold block_ok in *. unfold BS, TYPE_SIZE in *.
  rewrite (GET_ext m m' (b_addr b)) by (intros a Ha; apply Hsame; lia).
  rewrite (GET_ext m m' (b_addr b + b_size b - 8)) by (intros a Ha; apply Hsame; lia).
  repeat (apply andb_true_iff in Hok; destruct Hok as [Hok ?]).
  repeat (apply andb_true_iff; split); try assumption.
  apply Z.leb_le. lia.
Qed.

Lemma tiled_ext m m' e he he' :
  forall bl p,
    tiled m p bl e -> forallb (block_ok m he) bl = true ->
    (forall a, p <= a < e -> m' a = m a) -> e <= he' ->
    tiled m' p bl e /\ forallb (block_ok m' he') bl = true.
Proof.
  induction bl as [|b bl IH]; intros p Ht Hok Hsame Hhe; simpl in *.
  - split; [exact Ht | reflexivity].
  - destruct Ht as (Ha & Hs & Hst & Hrest).
    apply andb_true_iff in Hok. destruct Hok as [Hb Hok].
    pose proof (block_ok_spec _ _ _ Hb) as (H32 & _ & _ & _ & _).
    destruct (tiled_le _ _ _ _ _ Hrest Hok) as [Hle _].
    assert (Hget : GET m' p = GET m p) by (apply GET_ext; intros a Hr; apply Hsame; lia).
    destruct (IH (p + b_size b) Hrest Hok) as [Ht' Hok'];
      [intros a Hr; apply Hsame; lia | exact Hhe |].
    split.
    + unfold GET_SIZE, GET_STATUS. rewrite Hget. repeat split; assumption.
    + apply andb_true_iff. split; [|exact Hok'].
      apply (block_ok_ext m m' he he' b Hb); [lia|]. intros a Hr. apply Hsame. lia.
Qed.

Lemma tiled_bounds m e he :
  forall bl p b,
    tiled m p bl e -> forallb (block_ok m he) bl = true -> In b bl ->
    p <= b_addr b /\ b_addr b + b_size b <= e.
Proof.
  induction bl as [|b0 bl IH]; intros p b Ht Hok Hin; [destruct Hin|].
  simpl in Ht. destruct Ht as (Ha & Hs & Hst & Hrest).
  simpl in Hok. apply andb_true_iff in Hok. destruct Hok as [Hb Hok].
  pose proof (block_ok_spec _ _ _ Hb) as (H32 & _ & _ & _ & _).
  destruct (tiled_le _ _ _ _ _ Hrest Hok) as [Hle _].
  destruct Hin as [<- | Hin].
  - lia.
  - destruct (IH _ _ Hrest Hok Hin). lia.
Qed.

Lemma heap_ok_wf fuel s bl :
  heap_ok fuel s = true -> heap_blocks fuel s = Some bl ->
  heap_wf s bl /\ (length bl < fuel)%nat /\ cursor_in s bl = true.
Proof.
  intros Hok Hwalk. unfold heap_ok in Hok. rewrite Hwalk in Hok.
  repeat (apply andb_true_iff in Hok; destruct Hok as [Hok ?]).
  unfold TYPE_SIZE in *.
  assert (Hlt : heap_start s < heap_end s) by (apply Z.ltb_lt; assumption).
  destruct (heap_walk_tiled _ _ _ _ _ Hwalk Hok ltac:(lia)) as [Ht Hlen].
  split; [|split; assumption].
  unfold heap_wf, TYPE_SIZE. repeat split; try assumption.
  - apply Z.leb_le. assumption.
  - apply Z.eqb_eq. assumption.
  - apply Z.eqb_eq. assumption.
Qed.

Lemma wf_heap_ok fuel s bl :
  heap_wf s bl -> (length bl < fuel)%nat -> cursor_in s bl = true ->
  heap_blocks fuel s = Some bl /\ heap_ok fuel s = true.
Proof.
  intros (Ht & Hok & Hhs & Hal & Hlt & Hsent & Hseg) Hlen Hcur.
  pose proof (segment_ok_spec s Hseg) as (_ & _ & _ & Hher).
  assert (Hwalk : heap_blocks fuel s = Some bl).
  { unfold heap_blocks. apply tiled_heap_walk; try assumption. unfold modulus. lia. }
  split; [exact Hwalk|]. unfold heap_ok. rewrite Hwalk, Hok.
  unfold cursor_in in Hcur. rewrite Hcur, Hseg.
  apply Z.leb_le in Hhs. apply Z.eqb_eq in Hal. apply Z.ltb_lt in Hlt.
  apply Z.eqb_eq in Hsent. rewrite Hhs, Hal, Hlt, Hsent. reflexivity.
Qed.

(** ** Carving a block *)

Lemma mod32_mod8 x : x mod 32 = 0 -> x mod 8 = 0.
Proof.
  intros H. pose proof (Z.div_mod x 32 ltac:(lia)).
  replace x with ((x / 32 * 4) * 8) by lia. apply Z.mod_mul. lia.
Qed.

Lemma tag_small sz st :
  0 <= sz < 2 ^ 63 -> sz mod 8 = 0 -> st = FREE \/ st = ALLOC ->
  wrap (PACK sz st) = PACK sz st /\ SIZE (PACK sz st) = sz /\ STATUS (PACK sz st) = st.
Proof.
  intros Hsz Hmod Hst.
  assert (Hst' : 0 <= st < 2) by (unfold FREE, ALLOC in Hst; lia).
  assert (Hmodulus : modulus = 2 ^ 64) by reflexivity.
  split; [|split].
  - rewrite PACK_spec by (try assumption; lia). apply wrap_small. lia.
  - apply SIZE_PACK; try assumption; lia.
  - apply STATUS_PACK; try assumption; lia.
Qed.

Lemma block_built m p sz st he :
  32 <= sz < 2 ^ 63 -> sz mod 32 = 0 -> st = FREE \/ st = ALLOC ->
  GET m p = PACK sz st -> GET m (p + sz - 8) = PACK sz st -> p + sz <= he ->
  GET_SIZE m p = sz /\ GET_STATUS m p = st /\ block_ok m he (mkBlock p sz st) = true.
Proof.
  intros Hsz Hmod Hst Hhdr Hftr Hend.
  destruct (tag_small sz st ltac:(lia) (mod32_mod8 _ Hmod) Hst) as (_ & Hs & Ht).
  unfold GET_SIZE, GET_STATUS. rewrite Hhdr. split; [exact Hs|]. split; [exact Ht|].
  unfold block_ok, BS, TYPE_SIZE. simpl b_addr. simpl b_size. simpl b_status.
  rewrite Hftr, Hhdr, Z.eqb_refl.
  replace (32 <=? sz) with true by (symmetry; apply Z.leb_le; lia).
  replace (sz mod 32 =? 0) with true by (symmetry; apply Z.eqb_eq; exact Hmod).
  replace (p + sz <=? he) with true by (symmetry; apply Z.leb_le; lia).
  replace ((st =? FREE) || (st =? ALLOC)) with true; [reflexivity|].
  symmetry. apply orb_true_iff. destruct Hst as [-> | ->]; [left | right]; reflexivity.
Qed.

Lemma heap_wf_split s pre b post :
  heap_wf s (pre ++ b :: post) ->
  tiled (memory s) (heap_start s) pre (b_addr b)
  /\ tiled (memory s) (b_addr b + b_size b) post (heap_end s)
  /\ forallb (block_ok (memory s) (heap_end s)) pre = true
  /\ block_ok (memory s) (heap_end s) b = true
  /\ forallb (block_ok (memory s) (heap_end s)) post = true
  /\ b_size b = GET_SIZE (memory s) (b_addr b)
  /\ b_status b = GET_STATUS (memory s) (b_addr b)
  /\ heap_start s <= b_addr b /\ b_addr b + b_size b <= heap_end s
  /\ (b_addr b - heap_start s) mod 8 = 0.
Proof.
  intros (Ht & Hok & _).
  destruct (tiled_app _ _ _ _ _ Ht) as (q & Hpre & Hb).
  simpl in Hb. destruct Hb as (Ha & Hs & Hst & Hpost). subst q.
  pose proof Hok as Hok0.
  rewrite forallb_app in Hok. apply andb_true_iff in Hok. destruct Hok as [Hokpre Hok].
  simpl in Hok. apply andb_true_iff in Hok. destruct Hok as [Hokb Hokpost].
  destruct (tiled_le _ _ _ _ _ Hpre Hokpre) as [Hle _].
  destruct (tiled_le _ _ _ _ _ Hpost Hokpost) as [Hle' _].
  assert (Hin : In b (pre ++ b :: post)) by (apply in_or_app; right; left; reflexivity).
  destruct (tiled_In _ _ _ _ _ Ht Hok0 Hin) as (_ & Hal & _ & _).
  repeat split; assumption.
Qed.

Lemma place_wf s start req prev pre post :
  heap_wf s (pre ++ mkBlock start prev FREE :: post) ->
  32 <= req <= prev -> req mod 32 = 0 ->
  exists m',
    place start req s = Ret (start + 8) (set_memory m' s)
    /\ heap_wf (set_memory m' s)
         (pre ++ carved start req prev ++ post)
    /\ (forall a, a < start \/ start + prev <= a -> m' a = memory s a)
    /\ (forall a, start + 8 <= a < start + req - 8 -> m' a = memory s a)
    /\ GET m' start = PACK req ALLOC.
Proof.
  intros Hwf Hreq Hmod. unfold carved. cbn [app].
  destruct (heap_wf_split _ _ _ _ Hwf)
    as (Hpre & Hpost & Hokpre & Hokb & Hokpost & Hsz & Hst & Hlo & Hhi & Hal).
  simpl b_addr in *. simpl b_size in *. simpl b_status in *.
  destruct Hwf as (_ & _ & Hhs & Hhsal & Hlt & Hsent & Hseg).
  pose proof (segment_ok_spec s Hseg) as (_ & _ & _ & Hher).
  pose proof (block_ok_spec _ _ _ Hokb) as (Hp32 & Hpmod & _ & _ & _).
  simpl b_size in *. unfold TYPE_SIZE in *.
  assert (Hmodulus : modulus = 2 ^ 64) by reflexivity.
  assert (H263 : 2 ^ 63 < 2 ^ 64) by lia.
  destruct (tag_small req ALLOC ltac:(lia) (mod32_mod8 _ Hmod) (or_intror eq_refl))
    as (HwA & HsA & HtA).
  unfold place. rewrite <- Hsz. clear Hsz Hst. unfold TYPE_SIZE.
  rewrite (wrap_small (start + req)) by lia.
  rewrite (PREV_PTR_small (start + req)) by lia.
  rewrite (wrap_small (prev - req)) by lia.
  rewrite (wrap_small (start + 8)) by lia.
  set (m := memory s) in *.
  set (mA := PUT (PUT m start (PACK req ALLOC)) (start + req - 8) (PACK req ALLOC)).
  assert (HmA : forall a, a < start \/ start + req <= a \/ start + 8 <= a < start + req - 8 ->
                          mA a = m a).
  { intros a Ha. unfold mA. rewrite !PUT_out by lia. reflexivity. }
  assert (HhdrA : GET mA start = PACK req ALLOC).
  { unfold mA. rewrite GET_PUT_other by lia. rewrite GET_PUT_same. exact HwA. }
  assert (HftrA : GET mA (start + req - 8) = PACK req ALLOC).
  { unfold mA. rewrite GET_PUT_same. exact HwA. }
  destruct (prev - req =? 0) eqn:E.
  - (* the whole block is used *)
    apply Z.eqb_eq in E. assert (prev = req) by lia. subst prev.
    exists mA. split; [reflexivity|].
    split; [|split; [|split; [|exact HhdrA]]; intros a Ha; apply HmA; lia].
    destruct (block_built mA start req ALLOC (heap_end s) ltac:(lia) Hmod
                (or_intror eq_refl) HhdrA HftrA Hhi) as (Hs' & Ht' & Hok').
    destruct (tiled_ext m mA start (heap_end s) (heap_end s) pre (heap_start s) Hpre Hokpre)
      as [Hpre' Hokpre']; [intros a Ha; apply HmA; lia | lia |].
    destruct (tiled_ext m mA (heap_end s) (heap_end s) (heap_end s) post (start + req)
                Hpost Hokpost) as [Hpost' Hokpost']; [intros a Ha; apply HmA; lia | lia |].
    unfold heap_wf. cbn [memory heap_start heap_end set_memory]. unfold TYPE_SIZE.
    split.
    { apply (tiled_join _ _ _ _ _ start Hpre'). simpl.
      rewrite Hs', Ht'. repeat split. exact Hpost'. }
    split.
    { rewrite forallb_app. simpl. rewrite Hokpre', Hok', Hokpost'. reflexivity. }
    repeat split; try assumption.
    rewrite <- Hsent. apply GET_ext. intros a Ha. apply HmA. lia.
  - (* the block is split *)
    apply Z.eqb_neq in E.
    assert (Hrest : 32 <= prev - req /\ (prev - req) mod 32 = 0).
    { pose proof (Z.div_mod prev 32 ltac:(lia)). pose proof (Z.div_mod req 32 ltac:(lia)).
      split; [lia|]. rewrite Zminus_mod, Hpmod, Hmod. reflexivity. }
    destruct Hrest as [Hr32 Hrmod].
    destruct (tag_small (prev - req) FREE ltac:(lia) (mod32_mod8 _ Hrmod) (or_introl eq_refl))
      as (HwF & HsF & HtF).
    rewrite (wrap_small (start + req + (prev - req))) by lia.
    rewrite (PREV_PTR_small (start + req + (prev - req))) by lia.
    fold mA.
    set (mF := PUT (PUT mA (start + req) (PACK (prev - req) FREE))
                 (start + req + (prev - req) - 8) (PACK (prev - req) FREE)).
    assert (HmF : forall a, a < start + req \/ start + prev <= a -> mF a = mA a).
    { intros a Ha. unfold mF. rewrite !PUT_out by lia. reflexivity. }
    exists mF. split; [reflexivity|].
    assert (HhdrA' : GET mF start = PACK req ALLOC).
    { rewrite <- HhdrA. apply GET_ext. intros a Ha. apply HmF. lia. }
    split; [|split; [|split; [|exact HhdrA']]; intros a Ha; rewrite HmF by lia; apply HmA; lia].
    assert (HftrA' : GET mF (start + req - 8) = PACK req ALLOC).
    { rewrite <- HftrA. apply GET_ext. intros a Ha. apply HmF. lia. }
    assert (HhdrF : GET mF (start + req) = PACK (prev - req) FREE).
    { unfold mF. rewrite GET_PUT_other by lia. rewrite GET_PUT_same. exact HwF. }
    assert (HftrF : GET mF (start + req + (prev - req) - 8) = PACK (prev - req) FREE).
    { unfold mF. rewrite GET_PUT_same. exact HwF. }
    destruct (block_built mF start req ALLOC (heap_end s) ltac:(lia) Hmod
                (or_intror eq_refl) HhdrA' HftrA' ltac:(lia)) as (Hs' & Ht' & Hok').
    destruct (block_built mF (start + req) (prev - req) FREE (heap_end s) ltac:(lia) Hrmod
                (or_introl eq_refl) HhdrF HftrF ltac:(lia)) as (Hs'' & Ht'' & Hok'').
    destruct (tiled_ext m mF start (heap_end s) (heap_end s) pre (heap_start s) Hpre Hokpre)
      as [Hpre' Hokpre']; [intros a Ha; rewrite HmF by lia; apply HmA; lia | lia |].
    destruct (tiled_ext m mF (heap_end s) (heap_end s) (heap_end s) post (start + prev)
                Hpost Hokpost) as [Hpost' Hokpost'];
      [intros a Ha; rewrite HmF by lia; apply HmA; lia | lia |].
    unfold heap_wf. cbn [memory heap_start heap_end set_memory]. unfold TYPE_SIZE.
    split.
    { apply (tiled_join _ _ _ _ _ start Hpre'). simpl.
      rewrite Hs', Ht', Hs'', Ht''. repeat split.
      replace (start + req + (prev - req)) with (start + prev) by lia. exact Hpost'. }
    split.
    { rewrite forallb_app. simpl. rewrite Hokpre', Hok', Hok'', Hokpost'. reflexivity. }
    repeat split; try assumption.
    rewrite <- Hsent. apply GET_ext. intros a Ha. rewrite HmF by lia. apply HmA. lia.
Qed.

(** ** Growing the heap, block by block *)

Lemma expand_heap_wf s req bl :
  heap_wf s bl ->
  (forall pre b, bl = pre ++ [b] -> ~ fits req b) ->
  32 <= req <= 2 ^ 53 -> req mod 32 = 0 ->
  ds_cur (dseg s) + req + INITCHUNK + CHUNKSIZE <= ds_max (dseg s) ->
  ds_max (dseg s) <= 2 ^ 63 ->
  exists start prev pre s',
    expand_heap req s = Ret start s'
    /\ heap_wf s' (pre ++ [mkBlock start prev FREE])
    /\ req <= prev
    /\ next_block s' = start
    /\ (length pre <= length bl)%nat
    /\ (forall b, In b bl -> b_status b = ALLOC -> In b pre)
    /\ (forall b, In b pre -> In b bl)
    /\ (forall a, a < start -> memory s' a = memory s a)
    /\ heap_start s' = heap_start s /\ heap_end s < heap_end s'
    /\ get_free_block s' = get_free_block s /\ mm_initialized s' = mm_initialized s
    /\ start + prev = heap_end s'
    /\ INITCHUNK <= heap_end s' - heap_end s
    /\ (heap_end s' - heap_end s) mod CHUNKSIZE = 0
    /\ heap_end s' - heap_end s <= Z.max INITCHUNK (req - (heap_end s - start) + CHUNKSIZE)
    /\ ds_cur (dseg s') = ds_cur (dseg s) + (heap_end s' - heap_end s).
Proof.
  intros Hwf Hunfit Hreq Hmod Hroom Hmax.
  pose proof Hwf as (Ht & Hbok & Hhs & Hal & Hlt & Hsent & Hseg).
  pose proof (segment_ok_spec s Hseg) as (Hds & Hcurr & Hhe & Hher).
  assert (Hmodulus : modulus = 2 ^ 64) by reflexivity.
  unfold TYPE_SIZE in *.
  (* the last block *)
  assert (Hne : bl <> []).
  { intros ->. simpl in Ht. lia. }
  destruct (exists_last Hne) as (pre & b & Hbl).
  specialize (Hunfit pre b Hbl). subst bl.
  destruct (heap_wf_split _ _ _ _ Hwf)
    as (Hpre & Hpost & Hokpre & Hokb & _ & Hbsz & Hbst & Hblo & _ & Hbal).
  simpl in Hpost.
  pose proof (block_ok_spec _ _ _ Hokb) as (Hb32 & Hbmod & Hb01 & Hbftr & _).
  rewrite Hpost in Hbftr.
  assert (Hprev : PREV_PTR (heap_end s) = heap_end s - 8) by (apply PREV_PTR_small; lia).
  assert (Hfst : GET_STATUS (memory s) (heap_end s - 8) = b_status b)
    by (unfold GET_STATUS; rewrite Hbftr; symmetry; exact Hbst).
  assert (Hfsz : GET_SIZE (memory s) (heap_end s - 8) = b_size b)
    by (unfold GET_SIZE; rewrite Hbftr; symmetry; exact Hbsz).
  unfold expand_heap. rewrite Hprev, Hfst, Hfsz.
  change INITCHUNK with 65536 in *. change CHUNKSIZE with 4096 in *.
  set (size0 := if b_status b =? FREE then b_size b else 0).
  set (pre' := if b_status b =? FREE then pre else pre ++ [b]).
  assert (Hhe32 : heap_end s mod 32 = 0).
  { rewrite Hhe. apply Z.mod_mul. lia. }
  assert (Hsize0 : 0 <= size0 < req /\ size0 mod 32 = 0
                   /\ heap_start s <= heap_end s - size0
                   /\ tiled (memory s) (heap_start s) pre' (heap_end s - size0)
                   /\ forallb (block_ok (memory s) (heap_end s)) pre' = true
                   /\ (length pre' <= length (pre ++ [b]))%nat
                   /\ (forall b', In b' (pre ++ [b]) -> b_status b' = ALLOC -> In b' pre')
                   /\ (forall b', In b' pre' -> In b' (pre ++ [b]))).
  { unfold size0, pre'. destruct (b_status b =? FREE) eqn:Efree.
    - apply Z.eqb_eq in Efree. unfold fits in Hunfit.
      replace (heap_end s - b_size b) with (b_addr b) by lia.
      split; [lia|]. split; [exact Hbmod|]. split; [lia|]. split; [exact Hpre|].
      split; [exact Hokpre|]. split; [rewrite length_app; simpl; lia|]. split.
      + intros b' Hin Hst. apply in_app_or in Hin. destruct Hin as [Hin | [<- | []]].
        * exact Hin.
        * rewrite Efree in Hst. discriminate.
      + intros b' Hin. apply in_or_app. left. exact Hin.
    - rewrite Z.sub_0_r.
      split; [lia|]. split; [reflexivity|]. split; [lia|]. split; [exact Ht|].
      split; [exact Hbok|]. split; [lia|].
      split; intros b' Hin; [intros _|]; exact Hin. }
  clearbody size0 pre'.
  destruct Hsize0 as (Hs0 & Hs0mod & Hs0lo & Hpre' & Hokpre' & Hlen' & Hkeep & Hsub).
  rewrite (wrap_small (req - size0 + 1)) by lia.
  destruct (ceil_mul_CHUNKSIZE (req - size0 + 1) ltac:(lia)) as (c0 & Hc0 & Hc0r & Hc0m).
  change CHUNKSIZE with 4096 in Hc0. rewrite Hc0.
  set (chunk := if c0 <? 65536 then 65536 else c0).
  assert (Hchunk : 65536 <= chunk < req + 4096 + 65536 /\ req - size0 <= chunk
                   /\ chunk mod 32 = 0 /\ chunk mod 4096 = 0
                   /\ chunk <= Z.max 65536 (req - size0 + 4096)).
  { unfold chunk. destruct (c0 <? 65536) eqn:E.
    - apply Z.ltb_lt in E. repeat split; try lia.
    - apply Z.ltb_ge in E. repeat split; try lia.
      pose proof (Z.div_mod c0 4096 ltac:(lia)).
      replace c0 with ((c0 / 4096 * 128) * 32) by lia. apply Z.mod_mul. lia. }
  clearbody chunk. destruct Hchunk as (Hch & Hchlo & Hchmod & Hch4096 & Hchmax).
  assert (Hsg : to_signed chunk = chunk).
  { unfold to_signed. replace (chunk <? 2 ^ 63) with true by (symmetry; apply Z.ltb_lt; lia).
    reflexivity. }
  destruct (move_break_spec s chunk Hds)
    as (brk & s1 & Hmb & Hmem & Hhs1 & _ & _ & Hpol1 & Hinit1 & Hcur1 & Hbase1 & Hmax1
        & _ & _ & Hbrk).
  rewrite Hsg in Hbrk. specialize (Hbrk ltac:(lia)).
  rewrite Hmb.
  assert (Hhe' : wrap (brk - 1) / BS * BS = heap_end s + chunk).
  { unfold BS. rewrite wrap_small by lia. rewrite Hbrk.
    pose proof (Z.div_mod chunk 32 ltac:(lia)) as Hdm.
    replace (ds_cur (dseg s) + chunk - 1) with (ds_cur (dseg s) - 1 + (chunk / 32) * 32) by lia.
    rewrite Z.div_add by lia. lia. }
  pose proof (Z.div_mod (ds_cur (dseg s) - 1) 32 ltac:(lia)) as Hdm'.
  pose proof (Z.mod_pos_bound (ds_cur (dseg s) - 1) 32 ltac:(lia)) as Hmb'.
  assert (Hseg' : forall m p,
             segment_ok (set_next_block p (set_memory m
                           (set_heap_end (wrap (brk - 1) / BS * BS)
                              (set_ds_heap_brk brk s1)))) = true).
  { intros m p. unfold segment_ok.
    cbn [dseg heap_end set_next_block set_memory set_heap_end set_ds_heap_brk].
    rewrite Hcur1, Hbase1, Hmax1, Z.eqb_refl.
    replace (ds_base (dseg s) <=? brk) with true by (symmetry; apply Z.leb_le; lia).
    replace (brk <=? ds_max (dseg s)) with true by (symmetry; apply Z.leb_le; lia).
    replace (0 <? brk) with true by (symmetry; apply Z.ltb_lt; lia).
    replace (brk <? 2 ^ 63) with true by (symmetry; apply Z.ltb_lt; lia).
    reflexivity. }
  revert Hseg'. rewrite Hhe'. intros Hseg'.
  rewrite (wrap_small (heap_end s + chunk - heap_end s)) by lia.
  replace (heap_end s + chunk - heap_end s) with chunk by lia.
  rewrite (wrap_small (size0 + chunk)) by lia.
  replace (heap_end s + chunk - (size0 + chunk)) with (heap_end s - size0) by lia.
  rewrite (wrap_small (heap_end s - size0)) by lia.
  rewrite (PREV_PTR_small (heap_end s + chunk)) by lia.
  set (start := heap_end s - size0) in *.
  set (prev := size0 + chunk).
  cbn [memory set_memory set_next_block set_heap_end set_ds_heap_brk].
  rewrite Hmem.
  set (m := memory s) in *.
  set (m' := PUT (PUT (PUT m start (PACK prev FREE)) (heap_end s + chunk - 8)
                    (PACK prev FREE)) (heap_end s + chunk) (PACK 0 ALLOC)).
  assert (Hprev32 : 32 <= prev < 2 ^ 63 /\ prev mod 32 = 0).
  { unfold prev. split; [lia|]. rewrite Z.add_mod, Hs0mod, Hchmod by lia. reflexivity. }
  destruct Hprev32 as [Hp32 Hpmod].
  destruct (tag_small prev FREE ltac:(lia) (mod32_mod8 _ Hpmod) (or_introl eq_refl))
    as (HwF & _ & _).
  assert (Hm' : forall a, a < start -> m' a = m a).
  { intros a Ha. unfold m'. rewrite !PUT_out by (unfold prev in *; lia). reflexivity. }
  assert (Hhdr : GET m' start = PACK prev FREE).
  { unfold m'. rewrite !GET_PUT_other by (unfold prev in *; lia).
    rewrite GET_PUT_same. exact HwF. }
  assert (Hftr : GET m' (start + prev - 8) = PACK prev FREE).
  { unfold m'. replace (start + prev - 8) with (heap_end s + chunk - 8)
      by (unfold start, prev; lia).
    rewrite GET_PUT_other by lia. rewrite GET_PUT_same. exact HwF. }
  assert (Hsent' : GET m' (heap_end s + chunk) = PACK 0 ALLOC).
  { unfold m'. rewrite GET_PUT_same. apply wrap_small. vm_compute. split; congruence. }
  destruct (block_built m' start prev FREE (heap_end s + chunk) ltac:(lia) Hpmod
              (or_introl eq_refl) Hhdr Hftr ltac:(unfold start, prev; lia))
    as (Hs' & Hst' & Hok').
  destruct (tiled_ext m m' start (heap_end s) (heap_end s + chunk) pre' (heap_start s)
              Hpre' Hokpre') as [Hpre'' Hokpre''];
    [intros a Ha; apply Hm'; lia | lia |].
  exists start, prev, pre'. eexists. split; [reflexivity|].
  cbn [memory set_memory set_next_block set_heap_end set_ds_heap_brk heap_start heap_end
       next_block get_free_block mm_initialized].
  split.
  { unfold heap_wf.
    cbn [memory set_memory set_next_block set_heap_end set_ds_heap_brk heap_start heap_end].
    rewrite Hhs1. unfold TYPE_SIZE. split.
    { apply (tiled_join _ _ _ _ _ start Hpre''). simpl. rewrite Hs', Hst'.
      repeat split. unfold start, prev. lia. }
    split.
    { rewrite forallb_app. simpl. rewrite Hokpre'', Hok'. reflexivity. }
    repeat split; try assumption; try lia. apply Hseg'. }
  change INITCHUNK with 65536. change CHUNKSIZE with 4096.
  replace (heap_end s + chunk - heap_end s) with chunk by lia.
  replace (heap_end s - start) with size0 by (unfold start; lia).
  repeat split; try assumption; try lia.
  cbn [dseg set_next_block set_memory set_heap_end set_ds_heap_brk]. lia.
Qed.

(** ** Allocation, block by block *)

Lemma cursor_in_intro s bl b :
  In b bl -> b_addr b = next_block s -> cursor_in s bl = true.
Proof.
  intros Hin Ha. unfold cursor_in. apply existsb_exists. exists b.
  split; [exact Hin | apply Z.eqb_eq; exact Ha].
Qed.

Lemma cursor_in_elim s bl :
  cursor_in s bl = true -> exists b, In b bl /\ b_addr b = next_block s.
Proof.
  unfold cursor_in. intros H. apply existsb_exists in H. destruct H as (b & Hin & Hb).
  exists b. split; [exact Hin | apply Z.eqb_eq; exact Hb].
Qed.

Lemma heap_wf_around s pre b post :
  heap_wf s (pre ++ b :: post) ->
  (forall b', In b' pre -> b_addr b' + b_size b' <= b_addr b)
  /\ (forall b', In b' post -> b_addr b + b_size b <= b_addr b').
Proof.
  intros Hwf.
  destruct (heap_wf_split _ _ _ _ Hwf) as (Hpre & Hpost & Hokpre & _ & Hokpost & _).
  split; intros b' Hin.
  - destruct (tiled_bounds _ _ _ _ _ _ Hpre Hokpre Hin). lia.
  - destruct (tiled_bounds _ _ _ _ _ _ Hpost Hokpost Hin). lia.
Qed.

Lemma mm_malloc_wf fuel s size bl :
  0 <= size -> size + 2 * TYPE_SIZE <= 2 ^ 53 ->
  mm_initialized s <> 0 -> get_free_block s <> None ->
  heap_ok fuel s = true -> heap_blocks fuel s = Some bl ->
  ds_cur (dseg s) + size + 2 * INITCHUNK <= ds_max (dseg s) ->
  ds_max (dseg s) <= 2 ^ 63 ->
  let req := round_up_BS (size + 2 * TYPE_SIZE) in
  exists start prev pre post s2 m',
    mm_malloc fuel size s = Ret (start + 8) (set_memory m' s2)
    /\ heap_wf s2 (pre ++ mkBlock start prev FREE :: post)
    /\ heap_wf (set_memory m' s2) (pre ++ carved start req prev ++ post)
    /\ 32 <= req <= prev
    /\ cursor_in s2 (pre ++ mkBlock start prev FREE :: post) = true
    /\ (length (pre ++ post) <= length bl)%nat
    /\ (forall b, In b bl -> b_status b = ALLOC -> In b (pre ++ post))
    /\ (forall b, In b (pre ++ post) -> In b bl)
    /\ (forall b a, In b (pre ++ post) -> in_block b a -> memory s2 a = memory s a)
    /\ (forall a, a < start \/ start + prev <= a -> m' a = memory s2 a)
    /\ (forall a, start + 8 <= a < start + req - 8 -> m' a = memory s2 a)
    /\ mm_initialized s2 = mm_initialized s /\ get_free_block s2 = get_free_block s
    /\ heap_start s2 = heap_start s /\ heap_end s <= heap_end s2
    /\ GET m' start = PACK req ALLOC
    /\ (heap_end s2 = heap_end s -> bl = pre ++ mkBlock start prev FREE :: post)
    /\ ((heap_end s2 = heap_end s /\ dseg s2 = dseg s)
        \/ ((forall pre0 b, bl = pre0 ++ [b] -> ~ fits req b)
            /\ INITCHUNK <= heap_end s2 - heap_end s
            /\ (heap_end s2 - heap_end s) mod CHUNKSIZE = 0
            /\ heap_end s2 - heap_end s
               <= Z.max INITCHUNK (req - (heap_end s - start) + CHUNKSIZE)
            /\ ds_cur (dseg s2) = ds_cur (dseg s) + (heap_end s2 - heap_end s))).
Proof.
  intros Hsize Hbig Hinit Hpol Hok Hwalk Hroom Hmax req.
  destruct (heap_ok_wf _ _ _ Hok Hwalk) as (Hwf & Hlen & Hcur).
  pose proof (round_up_BS_spec (size + 2 * TYPE_SIZE)) as [Hr Hrmod].
  unfold mm_malloc.
  replace (mm_initialized s =? 0) with false by (symmetry; apply Z.eqb_neq; exact Hinit).
  rewrite req_size_of_exact by assumption.
  fold req in Hr, Hrmod |- *. clearbody req.
  change TYPE_SIZE with 8 in *. change INITCHUNK with 65536 in Hroom.
  assert (Hreq : 32 <= req <= 2 ^ 53).
  { pose proof (Z.div_mod req 32 ltac:(lia)). lia. }
  destruct (locator_spec fuel s req bl Hok Hwalk Hinit Hpol) as (r & s1 & Hloc & Hcase).
  rewrite Hloc. cbn [bind].
  destruct Hcase as [(Hnull & Hs1 & Hunfit) | (b & Hin & Hb & Hfit & Hs1)].
  - (* no free block: the heap grows *)
    subst r s1. change (NULL =? NULL) with true. cbv iota.
    destruct (expand_heap_wf s req bl Hwf Hunfit Hreq Hrmod)
      as (start & prev & pre & s2 & Hexp & Hwf2 & Hfit & Hnb & Hlen2 & Hkeep & Hsub & Hmem
          & Hhs2 & Hhe2 & Hpol2 & Hinit2 & _ & Hg1 & Hg2 & Hg3 & Hg4);
      [change INITCHUNK with 65536; change CHUNKSIZE with 4096; lia | exact Hmax |].
    rewrite Hexp. cbn [bind].
    destruct (place_wf s2 start req prev pre [] Hwf2 ltac:(lia) Hrmod)
      as (m' & Hplace & Hwf' & Hout & Hpay & Hhdr).
    destruct (heap_wf_around _ _ _ _ Hwf2) as [Hbefore _]. simpl b_addr in Hbefore.
    rewrite app_nil_r in Hwf'.
    exists start, prev, pre, [], s2, m'. rewrite !app_nil_r.
    split; [exact Hplace|]. split; [exact Hwf2|]. split; [exact Hwf'|].
    split; [lia|].
    split. { apply (cursor_in_intro _ _ (mkBlock start prev FREE)).
             - apply in_or_app. right. left. reflexivity.
             - symmetry. exact Hnb. }
    split; [exact Hlen2|]. split; [exact Hkeep|]. split; [exact Hsub|].
    split. { intros b a Hinb Ha. apply Hmem. specialize (Hbefore b Hinb).
             unfold in_block in Ha. lia. }
    split; [exact Hout|]. split; [exact Hpay|].
    split; [exact Hinit2|]. split; [exact Hpol2|]. split; [exact Hhs2|].
    split; [lia|]. split; [exact Hhdr|]. split; [intros; lia|].
    right. repeat split; assumption.
  - (* a free block was found *)
    destruct (in_split _ _ Hin) as (pre & post & Hbl).
    destruct Hfit as [Hbfree Hbfit].
    assert (Hbeq : b = mkBlock r (b_size b) FREE) by (destruct b; simpl in *; congruence).
    rewrite Hbeq in Hbl. subst bl.
    destruct (heap_wf_split _ _ _ _ Hwf) as (_ & _ & _ & _ & _ & _ & _ & Hlo & _).
    simpl b_addr in Hlo. destruct Hwf as (Ht & Hbok & Hhs & Hwf).
    unfold TYPE_SIZE in Hhs.
    replace (r =? NULL) with false by (symmetry; apply Z.eqb_neq; unfold NULL; lia).
    assert (Hwf1 : heap_wf s1 (pre ++ mkBlock r (b_size b) FREE :: post)).
    { destruct Hs1 as [-> | ->]; unfold heap_wf, TYPE_SIZE; repeat split; tauto. }
    assert (Hcur1 : cursor_in s1 (pre ++ mkBlock r (b_size b) FREE :: post) = true).
    { destruct Hs1 as [-> | ->]; [exact Hcur|].
      apply (cursor_in_intro _ _ (mkBlock r (b_size b) FREE)).
      - apply in_or_app. right. left. reflexivity.
      - reflexivity. }
    assert (Hsame : memory s1 = memory s /\ mm_initialized s1 = mm_initialized s
                    /\ get_free_block s1 = get_free_block s
                    /\ heap_start s1 = heap_start s /\ heap_end s1 = heap_end s
                    /\ dseg s1 = dseg s)
      by (destruct Hs1 as [-> | ->]; repeat split; reflexivity).
    destruct Hsame as (Hm1 & Hi1 & Hp1 & Hhs1 & Hhe1 & Hd1).
    destruct (place_wf s1 r req (b_size b) pre post Hwf1 ltac:(lia) Hrmod)
      as (m' & Hplace & Hwf' & Hout & Hpay & Hhdr).
    exists r, (b_size b), pre, post, s1, m'.
    split; [exact Hplace|]. split; [exact Hwf1|]. split; [exact Hwf'|].
    split; [lia|]. split; [exact Hcur1|].
    split. { rewrite !length_app. simpl. lia. }
    split. { intros b' Hin' Hst. apply in_app_or in Hin'. apply in_or_app.
             destruct Hin' as [Hin' | [<- | Hin']]; [left; exact Hin' | | right; exact Hin'].
             simpl in Hst. discriminate. }
    split. { intros b' Hin'. apply in_app_or in Hin'. apply in_or_app.
             destruct Hin' as [Hin' | Hin']; [left | right; right]; exact Hin'. }
    split. { intros b' a _ _. rewrite Hm1. reflexivity. }
    split; [exact Hout|]. split; [exact Hpay|].
    split; [exact Hi1|]. split; [exact Hp1|]. split; [exact Hhs1|].
    split; [lia|]. split; [exact Hhdr|]. split; [intros _; reflexivity|].
    left. split; assumption.
Qed.

Lemma carved_spec start req prev :
  In (mkBlock start req ALLOC) (carved start req prev)
  /\ (length (carved start req prev) <= 2)%nat.
Proof.
  unfold carved. split; [left; reflexivity|].
  destruct (prev - req =? 0); simpl; lia.
Qed.

Lemma cursor_in_carved s m' start req prev pre post :
  cursor_in s (pre ++ mkBlock start prev FREE :: post) = true ->
  cursor_in (set_memory m' s) (pre ++ carved start req prev ++ post) = true.
Proof.
  intros H. apply cursor_in_elim in H. destruct H as (b & Hin & Hb).
  apply in_app_or in Hin. destruct Hin as [Hin | [<- | Hin]].
  - apply (cursor_in_intro _ _ b); [|exact Hb]. apply in_or_app. left. exact Hin.
  - apply (cursor_in_intro _ _ (mkBlock start req ALLOC)); [|exact Hb].
    apply in_or_app. right. apply in_or_app. left. apply carved_spec.
  - apply (cursor_in_intro _ _ b); [|exact Hb].
    apply in_or_app. right. apply in_or_app. right. exact Hin.
Qed.

(** X7: allocation keeps the heap well-formed.  On an initialised,
    well-formed heap with the blocks [bl] whose provider has room, a request
    within the exact range of the size computation returns a pointer and
    leaves a heap that is again well-formed (tiling, tags, sentinel, cursor on
    a block header, provider segment), walkable with two more steps; the block
    handed out is one of its blocks, allocated and of the rounded size, and
    every block that was allocated before is still one of its blocks. *)
Theorem mm_malloc_heap_ok :
  forall (fuel : nat) (s : state) (size : Z) (bl : list block),
    0 <= size -> size + 2 * TYPE_SIZE <= 2 ^ 53 ->
    mm_initialized s <> 0 -> get_free_block s <> None ->
    heap_ok fuel s = true -> heap_blocks fuel s = Some bl ->
    ds_cur (dseg s) + size + 2 * INITCHUNK <= ds_max (dseg s) ->
    ds_max (dseg s) <= 2 ^ 63 ->
    exists p s' bl',
      mm_malloc fuel size s = Ret p s'
      /\ heap_ok (S (S fuel)) s' = true
      /\ heap_blocks (S (S fuel)) s' = Some bl'
      /\ In (mkBlock (p - TYPE_SIZE) (round_up_BS (size + 2 * TYPE_SIZE)) ALLOC) bl'
      /\ (forall b, In b bl -> b_status b = ALLOC -> In b bl').
Proof.
  intros fuel s size bl Hsize Hbig Hinit Hpol Hok Hwalk Hroom Hmax.
  destruct (heap_ok_wf _ _ _ Hok Hwalk) as (_ & Hlen & _).
  destruct (mm_malloc_wf fuel s size bl Hsize Hbig Hinit Hpol Hok Hwalk Hroom Hmax)
    as (start & prev & pre & post & s2 & m' & Hcall & Hwf2 & Hwf' & Hreq & Hcur & Hlen2
        & Hkeep & _).
  set (req := round_up_BS (size + 2 * TYPE_SIZE)) in *.
  destruct (carved_spec start req prev) as [Hnew Hlenc].
  destruct (wf_heap_ok (S (S fuel)) _ _ Hwf') as [Hwalk' Hok'].
  { rewrite !length_app in *. lia. }
  { apply cursor_in_carved. exact Hcur. }
  exists (start + 8), (set_memory m' s2), (pre ++ carved start req prev ++ post).
  split; [exact Hcall|]. split; [exact Hok'|]. split; [exact Hwalk'|].
  unfold TYPE_SIZE. replace (start + 8 - 8) with start by lia. split.
  - apply in_or_app. right. apply in_or_app. left. exact Hnew.
  - intros b Hin Hst. specialize (Hkeep b Hin Hst).
    apply in_app_or in Hkeep. apply in_or_app.
    destruct Hkeep as [H | H]; [left; exact H | right; apply in_or_app; right; exact H].
Qed.

(** X8: allocation does not touch live blocks.  Under the same conditions,
    every block that was allocated before the call lies entirely before or
    entirely after the block handed out, and none of its bytes (header,
    payload, footer) is changed by the call. *)
Theorem mm_malloc_live_blocks :
  forall (fuel : nat) (s : state) (size : Z) (bl : list block),
    0 <= size -> size + 2 * TYPE_SIZE <= 2 ^ 53 ->
    mm_initialized s <> 0 -> get_free_block s <> None ->
    heap_ok fuel s = true -> heap_blocks fuel s = Some bl ->
    ds_cur (dseg s) + size + 2 * INITCHUNK <= ds_max (dseg s) ->
    ds_max (dseg s) <= 2 ^ 63 ->
    exists p s',
      mm_malloc fuel size s = Ret p s'
      /\ forall b, In b bl -> b_status b = ALLOC ->
           (b_addr b + b_size b <= p - TYPE_SIZE
            \/ p - TYPE_SIZE + round_up_BS (size + 2 * TYPE_SIZE) <= b_addr b)
           /\ forall a, in_block b a -> memory s' a = memory s a.
Proof.
  intros fuel s size bl Hsize Hbig Hinit Hpol Hok Hwalk Hroom Hmax.
  destruct (mm_malloc_wf fuel s size bl Hsize Hbig Hinit Hpol Hok Hwalk Hroom Hmax)
    as (start & prev & pre & post & s2 & m' & Hcall & Hwf2 & Hwf' & Hreq & Hcur & Hlen2
        & Hkeep & _ & Hmem2 & Hout & _).
  set (req := round_up_BS (size + 2 * TYPE_SIZE)) in *.
  destruct (heap_wf_around _ _ _ _ Hwf2) as [Hbefore Hafter].
  simpl b_addr in *. simpl b_size in *.
  exists (start + 8), (set_memory m' s2). split; [exact Hcall|].
  intros b Hin Hst. specialize (Hkeep b Hin Hst).
  unfold TYPE_SIZE. replace (start + 8 - 8) with start by lia.
  assert (Hside : b_addr b + b_size b <= start \/ start + prev <= b_addr b).
  { apply in_app_or in Hkeep. destruct Hkeep as [H | H]; [left | right]; auto. }
  split; [lia|].
  intros a Ha. cbn [memory set_memory]. unfold in_block in Ha.
  rewrite Hout by lia. apply (Hmem2 b a Hkeep). exact Ha.
Qed.

Lemma mm_malloc_heap_ok_witness :
  exists p s' bl',
    mm_malloc 8 100000 three_allocated = Ret p s'
    /\ heap_ok 10 s' = true
    /\ heap_blocks 10 s' = Some bl'
    /\ In (mkBlock (p - TYPE_SIZE) (round_up_BS (100000 + 2 * TYPE_SIZE)) ALLOC) bl'
    /\ (forall b,
          In b [mkBlock 65568 32 ALLOC; mkBlock 65600 32 ALLOC; mkBlock 65632 32 ALLOC;
                mkBlock 65664 65376 FREE] ->
          b_status b = ALLOC -> In b bl').
Proof.
  apply (mm_malloc_heap_ok 8 three_allocated 100000).
  - lia.
  - vm_compute. discriminate.
  - vm_compute. discriminate.
  - vm_compute. discriminate.
  - vm_compute. reflexivity.
  - vm_compute. reflexivity.
  - vm_compute. discriminate.
  - vm_compute. discriminate.
Defined.

Lemma mm_malloc_live_blocks_witness :
  exists p s',
    mm_malloc 8 16 three_allocated = Ret p s'
    /\ forall b,
         In b [mkBlock 65568 32 ALLOC; mkBlock 65600 32 ALLOC; mkBlock 65632 32 ALLOC;
               mkBlock 65664 65376 FREE] ->
         b_status b = ALLOC ->
         (b_addr b + b_size b <= p - TYPE_SIZE
          \/ p - TYPE_SIZE + round_up_BS (16 + 2 * TYPE_SIZE) <= b_addr b)
         /\ forall a, in_block b a -> memory s' a = memory three_allocated a.
Proof.
  apply (mm_malloc_live_blocks 8 three_allocated 16).
  - lia.
  - vm_compute. discriminate.
  - vm_compute. discriminate.
  - vm_compute. discriminate.
  - vm_compute. reflexivity.
  - vm_compute. reflexivity.
  - vm_compute. discriminate.
  - vm_compute. discriminate.
Defined.

(** ** Writing into a payload *)

Lemma heap_wf_payload s s' bl b :
  heap_wf s bl -> In b bl ->
  heap_start s' = heap_start s -> heap_end s' = heap_end s -> dseg s' = dseg s ->
  (forall a, a < b_addr b + 8 \/ b_addr b + b_size b - 8 <= a -> memory s' a = memory s a) ->
  heap_wf s' bl.
Proof.
  intros Hwf Hin Hhs Hhe Hds Hsame.
  destruct (in_split _ _ Hin) as (pre & post & ->).
  destruct (heap_wf_split _ _ _ _ Hwf)
    as (Hpre & Hpost & Hokpre & Hokb & Hokpost & Hsz & Hst & Hlo & Hhi & _).
  destruct Hwf as (_ & _ & Hhs8 & Hal & Hlt & Hsent & Hseg).
  pose proof (block_ok_spec _ _ _ Hokb) as (H32 & _).
  destruct (tiled_ext (memory s) (memory s') (b_addr b) (heap_end s) (heap_end s)
              pre (heap_start s) Hpre Hokpre) as [Hpre' Hokpre'];
    [intros a Ha; apply Hsame; lia | lia |].
  destruct (tiled_ext (memory s) (memory s') (heap_end s) (heap_end s) (heap_end s)
              post (b_addr b + b_size b) Hpost Hokpost) as [Hpost' Hokpost'];
    [intros a Ha; apply Hsame; lia | lia |].
  assert (Hhdr : GET (memory s') (b_addr b) = GET (memory s) (b_addr b))
    by (apply GET_ext; intros a Ha; apply Hsame; lia).
  assert (Hftr : GET (memory s') (b_addr b + b_size b - 8)
                 = GET (memory s) (b_addr b + b_size b - 8))
    by (apply GET_ext; intros a Ha; apply Hsame; lia).
  unfold heap_wf. rewrite Hhs, Hhe. split.
  { apply (tiled_join _ _ _ _ _ (b_addr b) Hpre'). simpl.
    unfold GET_SIZE, GET_STATUS. rewrite Hhdr. repeat split; assumption. }
  split.
  { rewrite forallb_app. simpl. rewrite Hokpre', Hokpost', andb_true_r. simpl.
    unfold block_ok in *. unfold TYPE_SIZE in *. rewrite Hhdr, Hftr. exact Hokb. }
  repeat split; try assumption.
  - rewrite <- Hsent. apply GET_ext. intros a Ha. apply Hsame. lia.
  - rewrite <- Hseg. apply segment_ok_ext; assumption.
Qed.

Lemma mm_calloc_wf fuel s nmemb size bl n :
  wrap (nmemb * size) = n ->
  0 <= n -> n + 2 * TYPE_SIZE <= 2 ^ 53 ->
  mm_initialized s <> 0 -> get_free_block s <> None ->
  heap_ok fuel s = true -> heap_blocks fuel s = Some bl ->
  ds_cur (dseg s) + n + 2 * INITCHUNK <= ds_max (dseg s) ->
  ds_max (dseg s) <= 2 ^ 63 ->
  exists p s',
    mm_calloc fuel nmemb size s = Ret p s'
    /\ (forall a, p <= a < p + n -> memory s' a = Byte.x00)
    /\ GET (memory s') (p - TYPE_SIZE) = PACK (round_up_BS (n + 2 * TYPE_SIZE)) ALLOC
    /\ heap_ok (S (S fuel)) s' = true
    /\ (forall b, In b bl -> b_status b = ALLOC ->
                  forall a, in_block b a -> memory s' a = memory s a)
    /\ 2 * TYPE_SIZE <= p.
Proof.
  intros Hwrap Hprod Hbig Hinit Hpol Hok Hwalk Hroom Hmax.
  unfold mm_calloc. rewrite !Hwrap. clear Hwrap nmemb size.
  assert (Hmodulus : modulus = 2 ^ 64) by reflexivity.
  destruct (heap_ok_wf _ _ _ Hok Hwalk) as (_ & Hlen & _).
  destruct (mm_malloc_wf fuel s n bl Hprod Hbig Hinit Hpol Hok Hwalk Hroom Hmax)
    as (start & prev & pre & post & s2 & m' & Hcall & Hwf2 & Hwf' & Hreq & Hcur & Hlen2
        & Hkeep & _ & Hmem2 & Hout & _ & _ & _ & _ & _ & Hhdr & _).
  pose proof (round_up_BS_spec (n + 2 * TYPE_SIZE)) as [Hr Hrmod].
  set (req := round_up_BS (n + 2 * TYPE_SIZE)) in *.
  unfold TYPE_SIZE in *.
  destruct (heap_wf_split _ _ _ _ Hwf2) as (_ & _ & _ & _ & _ & _ & _ & Hlo & _).
  simpl b_addr in Hlo.
  destruct (heap_wf_around _ _ _ _ Hwf2) as [Hbefore Hafter].
  simpl b_addr in *. simpl b_size in *.
  pose proof Hwf2 as (_ & _ & Hhs & _). unfold TYPE_SIZE in Hhs.
  destruct (carved_spec start req prev) as [Hnew Hlenc].
  assert (Hin_new : In (mkBlock start req ALLOC) (pre ++ carved start req prev ++ post)).
  { apply in_or_app. right. apply in_or_app. left. exact Hnew. }
  replace (mm_initialized s =? 0) with false by (symmetry; apply Z.eqb_neq; exact Hinit).
  rewrite Hcall. cbn [bind].
  replace (start + 8 =? NULL) with false by (symmetry; apply Z.eqb_neq; unfold NULL; lia).
  set (s' := log_call _ _).
  assert (Hwf_s' : heap_wf s' (pre ++ carved start req prev ++ post)).
  { apply (heap_wf_payload (set_memory m' s2) s' _ (mkBlock start req ALLOC) Hwf' Hin_new);
      try reflexivity.
    simpl b_addr. simpl b_size. intros a Ha. unfold s'. cbn [memory log_call set_memory].
    unfold memset.
    replace ((start + 8 <=? a) && (a <? start + 8 + n)) with false; [reflexivity|].
    symmetry. apply andb_false_iff.
    destruct Ha as [Ha | Ha]; [left; apply Z.leb_gt | right; apply Z.ltb_ge]; lia. }
  destruct (wf_heap_ok (S (S fuel)) _ _ Hwf_s') as [_ Hok'].
  { rewrite !length_app in *. lia. }
  { apply (cursor_in_carved s2 m' start req prev pre post) in Hcur. exact Hcur. }
  exists (start + 8), s'. split; [reflexivity|].
  replace (start + 8 - 8) with start by lia.
  split.
  { intros a Ha. unfold s'. cbn [memory log_call set_memory]. unfold memset.
    replace ((start + 8 <=? a) && (a <? start + 8 + n)) with true; [reflexivity|].
    symmetry. apply andb_true_iff. split; [apply Z.leb_le | apply Z.ltb_lt]; lia. }
  split.
  { rewrite <- Hhdr. apply GET_ext. intros a Ha. unfold s'.
    cbn [memory log_call set_memory]. unfold memset.
    replace ((start + 8 <=? a) && (a <? start + 8 + n)) with false; [reflexivity|].
    symmetry. apply andb_false_iff. left. apply Z.leb_gt. lia. }
  split; [exact Hok'|].
  split; [|lia].
  intros b Hin Hst a Ha. specialize (Hkeep b Hin Hst).
  assert (Hside : b_addr b + b_size b <= start \/ start + prev <= b_addr b).
  { apply in_app_or in Hkeep. destruct Hkeep as [H | H]; [left | right]; auto. }
  unfold in_block in Ha. unfold s'. cbn [memory log_call set_memory]. unfold memset.
  replace ((start + 8 <=? a) && (a <? start + 8 + n)) with false.
  - rewrite Hout by lia. apply (Hmem2 b a Hkeep). exact Ha.
  - symmetry. apply andb_false_iff.
    destruct Hside; [left; apply Z.leb_gt | right; apply Z.ltb_ge]; lia.
Qed.


(** X9: zero-initialised allocation.  On an initialised, well-formed heap
    whose provider has room, [mm_calloc(nmemb, size)] with a product that
    does not wrap and is within the exact range of the size computation
    returns a pointer [p]; the [nmemb * size] bytes at [p] are zero; the
    header before [p] is still the allocated tag of the rounded size (the
    zeroing stays inside the payload); the heap is again well-formed; and no
    byte of a block that was allocated before is changed. *)
Theorem mm_calloc_zeroed :
  forall (fuel : nat) (s : state) (nmemb size : Z) (bl : list block),
    0 <= nmemb -> 0 <= size -> nmemb * size + 2 * TYPE_SIZE <= 2 ^ 53 ->
    mm_initialized s <> 0 -> get_free_block s <> None ->
    heap_ok fuel s = true -> heap_blocks fuel s = Some bl ->
    ds_cur (dseg s) + nmemb * size + 2 * INITCHUNK <= ds_max (dseg s) ->
    ds_max (dseg s) <= 2 ^ 63 ->
    exists p s',
      mm_calloc fuel nmemb size s = Ret p s'
      /\ (forall a, p <= a < p + nmemb * size -> memory s' a = Byte.x00)
      /\ GET (memory s') (p - TYPE_SIZE)
         = PACK (round_up_BS (nmemb * size + 2 * TYPE_SIZE)) ALLOC
      /\ heap_ok (S (S fuel)) s' = true
      /\ (forall b, In b bl -> b_status b = ALLOC ->
                    forall a, in_block b a -> memory s' a = memory s a).
Proof.
  intros fuel s nmemb size bl Hn Hsz Hbig Hinit Hpol Hok Hwalk Hroom Hmax.
  assert (Hprod : 0 <= nmemb * size) by (apply Z.mul_nonneg_nonneg; assumption).
  destruct (mm_calloc_wf fuel s nmemb size bl (nmemb * size))
    as (p & s' & Hcall & Hzero & Hhdr & Hok' & Hframe & _); try assumption.
  { apply wrap_small. unfold modulus, TYPE_SIZE in *. lia. }
  exists p, s'. repeat split; assumption.
Qed.

Lemma mm_calloc_zeroed_witness :
  exists p s',
    mm_calloc 8 4 8 three_allocated = Ret p s'
    /\ (forall a, p <= a < p + 4 * 8 -> memory s' a = Byte.x00)
    /\ GET (memory s') (p - TYPE_SIZE) = PACK (round_up_BS (4 * 8 + 2 * TYPE_SIZE)) ALLOC
    /\ heap_ok 10 s' = true
    /\ (forall b,
          In b [mkBlock 65568 32 ALLOC; mkBlock 65600 32 ALLOC; mkBlock 65632 32 ALLOC;
                mkBlock 65664 65376 FREE] ->
          b_status b = ALLOC ->
          forall a, in_block b a -> memory s' a = memory three_allocated a).
Proof.
  apply (mm_calloc_zeroed 8 three_allocated 4 8).
  - lia.
  - lia.
  - vm_compute. discriminate.
  - vm_compute. discriminate.
  - vm_compute. discriminate.
  - vm_compute. reflexivity.
  - vm_compute. reflexivity.
  - vm_compute. discriminate.
  - vm_compute. discriminate.
Defined.



(** ** Release, step by step *)

Lemma retag_out m p n v a :
  8 <= n -> a < p \/ p + n <= a -> retag m p n v a = m a.
Proof. intros Hn Ha. unfold retag. rewrite !PUT_out by lia. reflexivity. Qed.

Lemma retag_tags m p n :
  16 <= n < 2 ^ 63 -> n mod 8 = 0 ->
  GET (retag m p n (PACK n FREE)) p = PACK n FREE
  /\ GET (retag m p n (PACK n FREE)) (p + n - 8) = PACK n FREE
  /\ GET_SIZE (retag m p n (PACK n FREE)) p = n
  /\ GET_STATUS (retag m p n (PACK n FREE)) p = FREE.
Proof.
  intros Hn Hmod.
  destruct (tag_small n FREE ltac:(lia) Hmod (or_introl eq_refl)) as (Hw & Hs & Ht).
  assert (Hh : GET (retag m p n (PACK n FREE)) p = PACK n FREE)
    by (rewrite retag_header by lia; exact Hw).
  split; [exact Hh|]. split; [rewrite retag_footer; exact Hw|].
  unfold GET_SIZE, GET_STATUS. rewrite Hh. split; assumption.
Qed.

Lemma mark_free_mem s hdr sz :
  0 <= hdr -> 16 <= sz -> sz mod 8 = 0 -> hdr + sz < 2 ^ 63 ->
  GET_SIZE (memory s) hdr = sz ->
  mark_free hdr s = set_memory (retag (memory s) hdr sz (PACK sz FREE)) s.
Proof.
  intros Hhdr Hsz Hmod Hlt Hgs.
  assert (Hmodulus : modulus = 2 ^ 64) by reflexivity.
  destruct (tag_small sz FREE ltac:(lia) Hmod (or_introl eq_refl)) as (Hw & Hs & _).
  unfold mark_free, retag. rewrite Hgs.
  assert (Hend : END (PUT (memory s) hdr (PACK sz FREE)) hdr = hdr + sz - 8).
  { apply END_small; try lia. unfold GET_SIZE. rewrite GET_PUT_same, Hw. exact Hs. }
  rewrite Hend. reflexivity.
Qed.

Lemma merge_preceding_none s hdr :
  8 <= hdr < modulus ->
  hdr = heap_start s \/ GET_STATUS (memory s) (hdr - 8) <> FREE ->
  merge_preceding hdr s = (hdr, s).
Proof.
  intros Hhdr Hcase. unfold merge_preceding.
  rewrite (PREV_PTR_small hdr) by lia.
  destruct Hcase as [-> | Hne].
  - rewrite Z.eqb_refl. reflexivity.
  - replace (GET_STATUS (memory s) (hdr - 8) =? FREE) with false
      by (symmetry; apply Z.eqb_neq; exact Hne).
    rewrite andb_false_r. reflexivity.
Qed.

Lemma merge_preceding_free s hdr sz szp :
  hdr <> heap_start s -> 8 <= hdr - szp -> 16 <= szp -> szp mod 8 = 0 ->
  16 <= sz -> sz mod 8 = 0 -> hdr + sz < 2 ^ 63 ->
  GET_STATUS (memory s) (hdr - 8) = FREE ->
  GET_SIZE (memory s) (hdr - 8) = szp ->
  GET_SIZE (memory s) (hdr - szp) = szp ->
  GET_SIZE (memory s) hdr = sz ->
  merge_preceding hdr s
  = (hdr - szp,
     set_next_block (hdr - szp)
       (set_memory (retag (memory s) (hdr - szp) (szp + sz) (PACK (szp + sz) FREE)) s)).
Proof.
  intros Hne Hlo Hszp Hmodp Hsz Hmod Hlt Hfst Hfsz Hhsz Hgs.
  assert (Hmodulus : modulus = 2 ^ 64) by reflexivity.
  assert (Hmod2 : (szp + sz) mod 8 = 0).
  { rewrite Z.add_mod, Hmodp, Hmod by lia. reflexivity. }
  destruct (tag_small (szp + sz) FREE ltac:(lia) Hmod2 (or_introl eq_refl)) as (Hw & Hs & _).
  unfold merge_preceding.
  replace (hdr =? heap_start s) with false by (symmetry; apply Z.eqb_neq; exact Hne).
  rewrite (PREV_PTR_small hdr) by lia. rewrite Hfst, Z.eqb_refl. simpl negb. simpl andb.
  cbv iota.
  assert (Hstart : START (memory s) (hdr - 8) = hdr - szp).
  { rewrite (START_small _ _ szp Hfsz) by lia. lia. }
  rewrite Hstart, Hhsz, Hgs. rewrite (wrap_small (szp + sz)) by lia.
  assert (Hend : END (PUT (memory s) (hdr - szp) (PACK (szp + sz) FREE)) (hdr - szp)
                 = hdr - szp + (szp + sz) - 8).
  { apply END_small; try lia. unfold GET_SIZE. rewrite GET_PUT_same, Hw. exact Hs. }
  rewrite Hend. unfold retag. reflexivity.
Qed.

Lemma merge_succeeding_none s start total :
  0 <= start -> 16 <= total -> start + total < 2 ^ 63 ->
  GET_SIZE (memory s) start = total ->
  start + total = heap_end s \/ GET_STATUS (memory s) (start + total) <> FREE ->
  merge_succeeding start s = s.
Proof.
  intros Hstart Htotal Hlt Hgs Hcase.
  assert (Hmodulus : modulus = 2 ^ 64) by reflexivity.
  unfold merge_succeeding.
  rewrite (END_small _ start total) by (try assumption; lia).
  rewrite (NEXT_PTR_small (start + total - 8)) by lia.
  replace (start + total - 8 + 8) with (start + total) by lia.
  destruct Hcase as [-> | Hne].
  - rewrite Z.eqb_refl. reflexivity.
  - replace (GET_STATUS (memory s) (start + total) =? FREE) with false
      by (symmetry; apply Z.eqb_neq; exact Hne).
    rewrite andb_false_r. reflexivity.
Qed.

Lemma merge_succeeding_free s start total szn :
  8 <= start -> 16 <= total -> total mod 8 = 0 -> 16 <= szn -> szn mod 8 = 0 ->
  start + total + szn <= heap_end s -> heap_end s < 2 ^ 63 ->
  GET_SIZE (memory s) start = total ->
  GET_STATUS (memory s) (start + total) = FREE ->
  GET_SIZE (memory s) (start + total) = szn ->
  merge_succeeding start s
  = let s3 := set_next_block (start + total)
                (set_memory (retag (memory s) start (szn + total)
                               (PACK (szn + total) FREE)) s) in
    if start + total + szn =? heap_end s then shrink_heap s3 else s3.
Proof.
  intros Hstart Htotal Hmod Hszn Hmodn Hle Hhe Hgs Hnst Hnsz.
  assert (Hmodulus : modulus = 2 ^ 64) by reflexivity.
  assert (Hmod2 : (szn + total) mod 8 = 0).
  { rewrite Z.add_mod, Hmodn, Hmod by lia. reflexivity. }
  destruct (tag_small (szn + total) FREE ltac:(lia) Hmod2 (or_introl eq_refl))
    as (Hw & Hs & _).
  unfold merge_succeeding.
  rewrite (END_small _ start total) by (try assumption; lia).
  rewrite (NEXT_PTR_small (start + total - 8)) by lia.
  replace (start + total - 8 + 8) with (start + total) by lia.
  replace (start + total =? heap_end s) with false by (symmetry; apply Z.eqb_neq; lia).
  rewrite Hnst, Z.eqb_refl. simpl negb. simpl andb. cbv iota.
  rewrite Hnsz, Hgs. rewrite (wrap_small (szn + total)) by lia.
  assert (Hend1 : END (PUT (memory s) start (PACK (szn + total) FREE)) start
                  = start + (szn + total) - 8).
  { apply END_small; try lia. unfold GET_SIZE. rewrite GET_PUT_same, Hw. exact Hs. }
  rewrite Hend1. fold (retag (memory s) start (szn + total) (PACK (szn + total) FREE)).
  assert (Hend2 : END (retag (memory s) start (szn + total) (PACK (szn + total) FREE)) start
                  = start + (szn + total) - 8).
  { apply END_small; try lia.
    unfold GET_SIZE. rewrite retag_header, Hw by lia. exact Hs. }
  rewrite Hend2. cbn [heap_end set_next_block set_memory]. cbv zeta.
  rewrite (PREV_PTR_small (heap_end s)) by lia.
  replace (start + (szn + total) - 8 =? heap_end s - 8)
    with (start + total + szn =? heap_end s); [reflexivity|].
  destruct (start + total + szn =? heap_end s) eqn:E; symmetry.
  - apply Z.eqb_eq in E. apply Z.eqb_eq. lia.
  - apply Z.eqb_neq in E. apply Z.eqb_neq. lia.
Qed.

(** ** Rebuilding the tiling around a merged block *)

Lemma GET_pack m p : GET m p = PACK (GET_SIZE m p) (GET_STATUS m p).
Proof.
  pose proof (GET_range m p) as Hr. unfold GET_SIZE, GET_STATUS.
  rewrite (SIZE_spec _ Hr), STATUS_mod.
  pose proof (Z.div_mod (GET m p) 8 ltac:(lia)).
  pose proof (Z.mod_pos_bound (GET m p) 8 ltac:(lia)).
  rewrite PACK_spec.
  - lia.
  - replace (GET m p - GET m p mod 8) with (GET m p / 8 * 8) by lia. apply Z.mod_mul. lia.
  - lia.
Qed.

Lemma heap_wf_build s' m he0 pre post a T :
  tiled m (heap_start s') pre a -> tiled m (a + T) post (heap_end s') ->
  forallb (block_ok m he0) pre = true -> forallb (block_ok m he0) post = true ->
  (forall x, x < a \/ a + T <= x < heap_end s' -> memory s' x = m x) ->
  GET (memory s') a = PACK T FREE -> GET (memory s') (a + T - 8) = PACK T FREE ->
  32 <= T -> T mod 32 = 0 ->
  8 <= heap_start s' -> heap_start s' mod 8 = 0 ->
  GET (memory s') (heap_end s') = PACK 0 ALLOC -> segment_ok s' = true ->
  heap_wf s' (pre ++ mkBlock a T FREE :: post).
Proof.
  intros Hpre Hpost Hokpre Hokpost Hsame Hhdr Hftr HT Hmod Hhs Hal Hsent Hseg.
  pose proof (segment_ok_spec s' Hseg) as (_ & _ & _ & Hher).
  destruct (tiled_le _ _ _ _ _ Hpre Hokpre) as [Hle _].
  destruct (tiled_le _ _ _ _ _ Hpost Hokpost) as [Hle' _].
  destruct (block_built (memory s') a T FREE (heap_end s') ltac:(lia) Hmod
              (or_introl eq_refl) Hhdr Hftr Hle') as (Hs & Hst & Hok).
  destruct (tiled_ext m (memory s') a he0 (heap_end s') pre (heap_start s') Hpre Hokpre)
    as [Hpre' Hokpre']; [intros x Hx; apply Hsame; lia | lia |].
  destruct (tiled_ext m (memory s') (heap_end s') he0 (heap_end s') post (a + T)
              Hpost Hokpost) as [Hpost' Hokpost']; [intros x Hx; apply Hsame; lia | lia |].
  unfold heap_wf, TYPE_SIZE. split.
  { apply (tiled_join _ _ _ _ _ a Hpre'). simpl. rewrite Hs, Hst. repeat split.
    exact Hpost'. }
  split.
  { rewrite forallb_app. simpl. rewrite Hokpre', Hok, Hokpost'. reflexivity. }
  repeat split; try assumption; try lia.
Qed.

Lemma shrink_heap_wf s pre start T :
  heap_wf s (pre ++ [mkBlock start T FREE]) ->
  exists T',
    heap_wf (shrink_heap s) (pre ++ [mkBlock start T' FREE])
    /\ (forall a, a < start \/ start + 8 <= a < heap_end (shrink_heap s) - 8 ->
                  memory (shrink_heap s) a = memory s a)
    /\ heap_end (shrink_heap s) = start + T'
    /\ (T' = T
        \/ (INITCHUNK + CHUNKSIZE <= T
            /\ T' = T - (T - INITCHUNK) / CHUNKSIZE * CHUNKSIZE))
    /\ mm_initialized (shrink_heap s) = mm_initialized s
    /\ get_free_block (shrink_heap s) = get_free_block s
    /\ next_block (shrink_heap s) = start
    /\ heap_start (shrink_heap s) = heap_start s.
Proof.
  intros Hwf.
  destruct (heap_wf_split _ _ _ _ Hwf)
    as (Hpre & Hpost & Hokpre & Hokb & _ & Hsz & Hst & Hlo & Hhi & Hal).
  simpl in Hpre, Hpost, Hsz, Hst, Hlo, Hhi, Hal.
  pose proof Hwf as (_ & _ & Hhs & Hhsal & Hlt & Hsent & Hseg).
  pose proof (block_ok_spec _ _ _ Hokb) as (HT & HTmod & _ & Hfh & _).
  simpl in HT, HTmod, Hfh. unfold TYPE_SIZE in *.
  pose proof (segment_ok_spec s Hseg) as (Hds & Hcur & Hhe & Hher).
  assert (Hmodulus : modulus = 2 ^ 64) by reflexivity.
  assert (Hhdr : GET (memory s) start = PACK T FREE)
    by (rewrite GET_pack, <- Hsz, <- Hst; reflexivity).
  assert (Hftr : GET (memory s) (heap_end s - 8) = PACK T FREE).
  { rewrite <- Hpost, Hfh. exact Hhdr. }
  assert (Hp : PREV_PTR (heap_end s) = heap_end s - 8) by (apply PREV_PTR_small; lia).
  destruct (GET_tag _ _ T Hftr ltac:(lia) (mod32_mod8 _ HTmod)) as [Hfs Hfst].
  assert (Hstart : START (memory s) (heap_end s - 8) = start).
  { rewrite (START_small _ _ T Hfs) by lia. lia. }
  assert (Hsame : heap_wf (set_next_block start s) (pre ++ [mkBlock start T FREE]))
    by exact Hwf.
  unfold shrink_heap. rewrite Hp, Hfst, Z.eqb_refl, Hfs, Hstart.
  change (heap_end (set_next_block start s)) with (heap_end s).
  change (memory (set_next_block start s)) with (memory s).
  rewrite Hp, Hstart.
  change INITCHUNK with 65536. change CHUNKSIZE with 4096.
  destruct (65536 <? T) eqn:Ebig.
  - apply Z.ltb_lt in Ebig.
    rewrite (wrap_small (T - 65536)) by lia.
    pose proof (Z.div_mod (T - 65536) 4096 ltac:(lia)) as Hd.
    pose proof (Z.mod_pos_bound (T - 65536) 4096 ltac:(lia)) as Hm.
    remember ((T - 65536) / 4096) as k eqn:Hk.
    remember ((T - 65536) mod 4096) as r eqn:Hr.
    rewrite (wrap_small (k * 4096)) by lia.
    destruct (k * 4096 =? 0) eqn:Ec.
    + exists T. split; [exact Hsame|]. cbn [heap_end memory set_next_block].
      repeat split; try reflexivity; try lia.
    + apply Z.eqb_neq in Ec.
      destruct (move_break_spec (set_next_block start s) (wrap (- (k * 4096))) Hds)
        as (brk & s1 & Hmb & Hmem & Hhs1 & _ & _ & Hpol1 & Hinit1 & Hcur1 & Hbase1 & Hmax1
            & Hrange & Hbrk & _).
      rewrite Hmb. cbn [dseg set_next_block ds_cur] in Hbrk, Hbase1, Hmax1, Hrange.
      cbn [heap_start memory set_next_block get_free_block mm_initialized]
        in Hmem, Hhs1, Hpol1, Hinit1.
      assert (Hsg : to_signed (wrap (- (k * 4096))) = - (k * 4096)).
      { unfold wrap, to_signed. rewrite Hmodulus.
        replace ((- (k * 4096)) mod 2 ^ 64) with (2 ^ 64 - k * 4096).
        - replace (2 ^ 64 - k * 4096 <? 2 ^ 63) with false
            by (symmetry; apply Z.ltb_ge; lia). lia.
        - apply Z.mod_unique with (q := -1); lia. }
      rewrite Hsg in Hbrk.
      pose proof (Z.div_mod (ds_cur (dseg s) - 1) 32 ltac:(lia)) as Hd'.
      pose proof (Z.mod_pos_bound (ds_cur (dseg s) - 1) 32 ltac:(lia)) as Hm'.
      assert (Hhe' : (brk = ds_cur (dseg s) + - (k * 4096)
                      /\ wrap (brk - 1) / BS * BS = heap_end s - k * 4096)
                     \/ (brk = ds_cur (dseg s)
                         /\ wrap (brk - 1) / BS * BS = heap_end s)).
      { unfold BS. destruct Hbrk as [Hb | Hb]; [left | right];
          (split; [exact Hb|]); rewrite Hb.
        - rewrite wrap_small by lia.
          replace (ds_cur (dseg s) + - (k * 4096) - 1)
            with (ds_cur (dseg s) - 1 + (- (k * 128)) * 32) by lia.
          rewrite Z.div_add by lia. lia.
        - rewrite wrap_small by lia. lia. }
      assert (Hseg' : forall m p,
                 segment_ok (set_next_block p (set_memory m
                               (set_heap_end (wrap (brk - 1) / BS * BS)
                                  (set_ds_heap_brk brk s1)))) = true).
      { intros m p. unfold segment_ok.
        cbn [dseg heap_end set_next_block set_memory set_heap_end set_ds_heap_brk].
        rewrite Hcur1, Hbase1, Hmax1, Z.eqb_refl.
        replace (ds_base (dseg s) <=? brk) with true by (symmetry; apply Z.leb_le; lia).
        replace (brk <=? ds_max (dseg s)) with true by (symmetry; apply Z.leb_le; lia).
        replace (0 <? brk) with true by (symmetry; apply Z.ltb_lt; lia).
        replace (brk <? 2 ^ 63) with true by (symmetry; apply Z.ltb_lt; lia).
        reflexivity. }
      remember (wrap (brk - 1) / BS * BS) as he' eqn:Ehe'.
      assert (Hhe'r : start + 65536 <= he' <= heap_end s) by lia.
      assert (Hhe'32 : (he' - start) mod 32 = 0).
      { destruct Hhe' as [[_ H] | [_ H]]; rewrite H.
        - replace (heap_end s - k * 4096 - start) with (T + (- (k * 128)) * 32) by lia.
          rewrite Z.mod_add by lia. exact HTmod.
        - replace (heap_end s - start) with T by lia. exact HTmod. }
      cbn [next_block set_next_block set_memory memory heap_end heap_start
           set_heap_end set_ds_heap_brk].
      rewrite Hmem.
      rewrite (wrap_small (he' - start)) by lia.
      rewrite (PREV_PTR_small he') by lia.
      set (T' := he' - start) in *.
      set (m' := PUT (PUT (PUT (memory s) start (PACK T' FREE)) (he' - 8) (PACK T' FREE))
                   he' (PACK 0 ALLOC)).
      destruct (tag_small T' FREE ltac:(unfold T'; lia) (mod32_mod8 _ Hhe'32)
                  (or_introl eq_refl)) as (HwF & _ & _).
      exists T'. split.
      { apply (heap_wf_build _ (memory s) (heap_end s)); cbn [memory heap_start heap_end
            set_next_block set_memory set_heap_end set_ds_heap_brk];
          try rewrite Hhs1; try assumption; try (unfold T'; lia).
        - simpl. unfold T'. lia.
        - reflexivity.
        - intros x Hx. unfold m'. rewrite !PUT_out by (unfold T' in *; lia). reflexivity.
        - unfold m'. rewrite !GET_PUT_other by (unfold T' in *; lia).
          rewrite GET_PUT_same. exact HwF.
        - unfold m'. replace (start + T' - 8) with (he' - 8) by (unfold T'; lia).
          rewrite GET_PUT_other by lia. rewrite GET_PUT_same. exact HwF.
        - unfold m'. rewrite GET_PUT_same. apply wrap_small. vm_compute. split; congruence.
        - apply Hseg'. }
      cbn [mm_initialized get_free_block set_next_block set_memory set_heap_end
           set_ds_heap_brk].
      split. { intros a Ha. unfold m'. rewrite !PUT_out by (unfold T' in *; lia).
               reflexivity. }
      split; [unfold T'; lia|].
      split. { unfold T'. destruct Hhe' as [[_ H] | [_ H]]; [right | left]; lia. }
      repeat split; assumption.
  - change (0 =? 0) with true. cbv iota.
    exists T. split; [exact Hsame|]. cbn [heap_end memory set_next_block].
    repeat split; try reflexivity; try lia.
Qed.

(** ** Release on a well-formed heap *)

Lemma last_case {A} (l : list A) : l = [] \/ exists l0 x, l = l0 ++ [x].
Proof. induction l using rev_ind; [left; reflexivity | right; eauto]. Qed.

Lemma last_tag_app pre0 bp : last_tag (pre0 ++ [bp]) = Some (b_size bp, b_status bp).
Proof.
  induction pre0 as [|a l IH]; [reflexivity|].
  simpl. destruct (l ++ [bp]) eqn:E; [destruct l; discriminate|]. exact IH.
Qed.

Lemma release_preceding s hdr sz pre :
  tiled (memory s) (heap_start s) pre hdr ->
  forallb (block_ok (memory s) (heap_end s)) pre = true ->
  8 <= heap_start s -> 32 <= sz -> sz mod 32 = 0 ->
  hdr + sz <= heap_end s -> heap_end s < 2 ^ 63 ->
  GET_SIZE (memory s) hdr = sz ->
  let prev := last_tag pre in
  let start := merged_start hdr prev in
  let total := merged_size sz prev in
  let pre' := if is_free prev then removelast pre else pre in
  exists s2,
    merge_preceding hdr (mark_free hdr s) = (start, s2)
    /\ tiled (memory s) (heap_start s) pre' start
    /\ forallb (block_ok (memory s) (heap_end s)) pre' = true
    /\ start + total = hdr + sz /\ 32 <= total /\ total mod 32 = 0
    /\ GET (memory s2) start = PACK total FREE
    /\ GET (memory s2) (start + total - 8) = PACK total FREE
    /\ (forall a, a < start \/ start + total <= a -> memory s2 a = memory s a)
    /\ heap_start s2 = heap_start s /\ heap_end s2 = heap_end s /\ dseg s2 = dseg s
    /\ mm_initialized s2 = mm_initialized s /\ get_free_block s2 = get_free_block s
    /\ (forall a, hdr + 8 <= a < hdr + sz - 8 -> memory s2 a = memory s a)
    /\ start <= hdr
    /\ next_block s2 = (if is_free prev then start else next_block s).
Proof.
  intros Hpre Hokpre Hhs Hsz Hmod Hhi Hhe Hgs.
  assert (Hmodulus : modulus = 2 ^ 64) by reflexivity.
  destruct (tiled_le _ _ _ _ _ Hpre Hokpre) as [Hlo _].
  pose proof (mod32_mod8 _ Hmod) as Hmod8.
  rewrite (mark_free_mem s hdr sz) by (try assumption; lia).
  set (m1 := retag (memory s) hdr sz (PACK sz FREE)).
  destruct (retag_tags (memory s) hdr sz ltac:(lia) Hmod8) as (Hh1 & Hf1 & Hs1 & _).
  fold m1 in Hh1, Hf1, Hs1.
  assert (Hkeep :
    forall start,
      (start = hdr) ->
      merge_preceding hdr (set_memory m1 s) = (hdr, set_memory m1 s) ->
      exists s2,
        merge_preceding hdr (set_memory m1 s) = (start, s2)
        /\ start + (0 + sz) = hdr + sz /\ 32 <= 0 + sz /\ (0 + sz) mod 32 = 0
        /\ GET (memory s2) start = PACK (0 + sz) FREE
        /\ GET (memory s2) (start + (0 + sz) - 8) = PACK (0 + sz) FREE
        /\ (forall a, a < start \/ start + (0 + sz) <= a -> memory s2 a = memory s a)
        /\ heap_start s2 = heap_start s /\ heap_end s2 = heap_end s /\ dseg s2 = dseg s
        /\ mm_initialized s2 = mm_initialized s /\ get_free_block s2 = get_free_block s
        /\ (forall a, hdr + 8 <= a < hdr + sz - 8 -> memory s2 a = memory s a)
        /\ start <= hdr
        /\ next_block s2 = next_block s).
  { intros start -> Hmp. exists (set_memory m1 s). rewrite Z.add_0_l.
    split; [exact Hmp|]. cbn [memory set_memory].
    repeat split; try assumption; try reflexivity; try lia.
    - intros a Ha. unfold m1. apply retag_out; lia.
    - intros a Ha. unfold m1, retag. rewrite !PUT_out by lia. reflexivity. }
  destruct (last_case pre) as [-> | (pre0 & bp & ->)].
  - (* the released block is the first of the heap *)
    simpl in Hpre. cbv zeta. simpl last_tag. simpl is_free. cbv iota.
    unfold merged_start, merged_size. simpl free_size. rewrite Z.sub_0_r.
    destruct (Hkeep hdr eq_refl) as (s2 & H & Hrest).
    { apply merge_preceding_none; [lia|]. left. symmetry. exact Hpre. }
    exists s2. split; [exact H|]. split; [simpl; exact Hpre|]. split; [reflexivity|].
    exact Hrest.
  - rewrite last_tag_app. cbv zeta.
    destruct (tiled_app _ _ _ _ _ Hpre) as (q & Hpre0 & Hbp).
    simpl in Hbp. destruct Hbp as (Ha & Hbs & Hbst & Hq).
    pose proof Hokpre as Hok0.
    rewrite forallb_app in Hok0. apply andb_true_iff in Hok0.
    destruct Hok0 as [Hokpre0 Hokbp]. simpl in Hokbp. rewrite andb_true_r in Hokbp.
    pose proof (block_ok_spec _ _ _ Hokbp) as (Hp32 & Hpmod & Hp01 & Hpftr & _).
    destruct (tiled_le _ _ _ _ _ Hpre0 Hokpre0) as [Hlo0 _].
    rewrite Ha in *. clear Ha.
    set (szp := b_size bp) in *.
    assert (Hq' : q = hdr - szp) by lia. rewrite Hq' in *. clear Hq' Hq.
    replace (hdr - szp + szp - 8) with (hdr - 8) in Hpftr by lia.
    unfold merged_start, merged_size. simpl is_free. simpl free_size.
    destruct (b_status bp =? FREE) eqn:Efree.
    + (* the preceding block is FREE *)
      apply Z.eqb_eq in Efree. rewrite removelast_last.
      pose proof (mod32_mod8 _ Hpmod) as Hpmod8.
      assert (Hfoot : GET m1 (hdr - 8) = GET (memory s) (hdr - szp)).
      { unfold m1. rewrite retag_frame by lia. exact Hpftr. }
      assert (Hhead : GET m1 (hdr - szp) = GET (memory s) (hdr - szp)).
      { unfold m1. apply retag_frame; lia. }
      rewrite (merge_preceding_free (set_memory m1 s) hdr sz szp);
        cbn [memory heap_start set_memory]; try assumption; try lia.
      * eexists. split; [reflexivity|].
        cbn [memory heap_start heap_end dseg mm_initialized get_free_block
             set_memory set_next_block].
        assert (Hmod2 : (szp + sz) mod 32 = 0).
        { rewrite Z.add_mod, Hpmod, Hmod by lia. reflexivity. }
        destruct (retag_tags m1 (hdr - szp) (szp + sz) ltac:(lia) (mod32_mod8 _ Hmod2))
          as (Hh2 & Hf2 & _).
        split; [exact Hpre0|]. split; [exact Hokpre0|].
        split; [lia|]. split; [lia|]. split; [exact Hmod2|].
        split; [exact Hh2|]. split; [exact Hf2|].
        split; [intros a Ha; rewrite retag_out by lia; unfold m1; apply retag_out; lia|].
        repeat split; try reflexivity; try lia.
        intros a Ha. unfold m1, retag. rewrite !PUT_out by lia. reflexivity.
      * unfold GET_STATUS. rewrite Hfoot. fold (GET_STATUS (memory s) (hdr - szp)).
        rewrite <- Hbst. exact Efree.
      * unfold GET_SIZE. rewrite Hfoot. fold (GET_SIZE (memory s) (hdr - szp)).
        symmetry. exact Hbs.
      * unfold GET_SIZE. rewrite Hhead. fold (GET_SIZE (memory s) (hdr - szp)).
        symmetry. exact Hbs.
    + (* the preceding block is allocated *)
      rewrite Z.sub_0_r.
      destruct (Hkeep hdr eq_refl) as (s2 & H & Hrest).
      { apply merge_preceding_none; [lia|]. right. cbn [memory set_memory].
        unfold GET_STATUS. unfold m1. rewrite retag_frame by lia. rewrite Hpftr.
        fold (GET_STATUS (memory s) (hdr - szp)). rewrite <- Hbst.
        apply Z.eqb_neq. exact Efree. }
      exists s2. split; [exact H|]. split; [exact Hpre|]. split; [exact Hokpre|].
      exact Hrest.
Qed.

Lemma release_succeeding s s2 start total pre' post :
  8 <= heap_start s -> heap_start s mod 8 = 0 ->
  GET (memory s) (heap_end s) = PACK 0 ALLOC -> segment_ok s = true ->
  tiled (memory s) (heap_start s) pre' start ->
  forallb (block_ok (memory s) (heap_end s)) pre' = true ->
  tiled (memory s) (start + total) post (heap_end s) ->
  forallb (block_ok (memory s) (heap_end s)) post = true ->
  32 <= total -> total mod 32 = 0 ->
  GET (memory s2) start = PACK total FREE ->
  GET (memory s2) (start + total - 8) = PACK total FREE ->
  (forall a, a < start \/ start + total <= a -> memory s2 a = memory s a) ->
  heap_start s2 = heap_start s -> heap_end s2 = heap_end s -> dseg s2 = dseg s ->
  mm_initialized s2 = mm_initialized s -> get_free_block s2 = get_free_block s ->
  let next := first_tag post in
  let post' := if is_free next then tl post else post in
  let whole := total + free_size next in
  exists s3 T,
    merge_succeeding start s2 = s3
    /\ heap_wf s3 (pre' ++ mkBlock start T FREE :: post')
    /\ heap_end s3 <= heap_end s
    /\ T = whole - (heap_end s - heap_end s3)
    /\ (heap_end s3 = heap_end s
        \/ (is_free next = true /\ start + whole = heap_end s
            /\ INITCHUNK + CHUNKSIZE <= whole
            /\ heap_end s - heap_end s3 = (whole - INITCHUNK) / CHUNKSIZE * CHUNKSIZE))
    /\ (forall a, a < start \/ start + whole <= a < heap_end s3 ->
                  memory s3 a = memory s a)
    /\ heap_start s3 = heap_start s /\ mm_initialized s3 = mm_initialized s
    /\ get_free_block s3 = get_free_block s
    /\ (forall a, start + 8 <= a < start + total - 8 -> a < heap_end s3 - 8 ->
                  memory s3 a = memory s2 a)
    /\ next_block s3
       = (if is_free next
          then if start + whole =? heap_end s then start else start + total
          else next_block s2).
Proof.
  intros Hhs Hal Hsent Hseg Hpre Hokpre Hpost Hokpost Htotal Hmod Hh2 Hf2 Hframe
         Hhs2 Hhe2 Hds2 Hinit2 Hpol2.
  assert (Hmodulus : modulus = 2 ^ 64) by reflexivity.
  pose proof (segment_ok_spec s Hseg) as (_ & _ & _ & Hher).
  assert (Hseg2 : segment_ok s2 = true)
    by (rewrite (segment_ok_ext s s2) by assumption; exact Hseg).
  destruct (tiled_le _ _ _ _ _ Hpre Hokpre) as [Hlo _].
  destruct (tiled_le _ _ _ _ _ Hpost Hokpost) as [Hhi _].
  pose proof (mod32_mod8 _ Hmod) as Hmod8.
  destruct (GET_tag _ _ total Hh2 ltac:(lia) Hmod8) as [Hgs2 _].
  assert (Hsent2 : GET (memory s2) (heap_end s) = PACK 0 ALLOC).
  { rewrite <- Hsent. apply GET_ext. intros a Ha. apply Hframe. lia. }
  assert (Hpre2 : tiled (memory s) (heap_start s2) pre' start) by (rewrite Hhs2; exact Hpre).
  assert (Hkeep :
    forall post1,
      tiled (memory s) (start + total) post1 (heap_end s) ->
      forallb (block_ok (memory s) (heap_end s)) post1 = true ->
      merge_succeeding start s2 = s2 ->
      exists s3 T,
        merge_succeeding start s2 = s3
        /\ heap_wf s3 (pre' ++ mkBlock start T FREE :: post1)
        /\ heap_end s3 <= heap_end s
        /\ T = total + 0 - (heap_end s - heap_end s3)
        /\ (heap_end s3 = heap_end s
            \/ (false = true /\ start + (total + 0) = heap_end s
                /\ INITCHUNK + CHUNKSIZE <= total + 0
                /\ heap_end s - heap_end s3
                   = (total + 0 - INITCHUNK) / CHUNKSIZE * CHUNKSIZE))
        /\ (forall a, a < start \/ start + (total + 0) <= a < heap_end s3 ->
                      memory s3 a = memory s a)
        /\ heap_start s3 = heap_start s /\ mm_initialized s3 = mm_initialized s
        /\ get_free_block s3 = get_free_block s
        /\ (forall a, start + 8 <= a < start + total - 8 -> a < heap_end s3 - 8 ->
                      memory s3 a = memory s2 a)
        /\ next_block s3 = next_block s2).
  { intros post1 Hpost1 Hokpost1 Hms. exists s2, total. split; [exact Hms|].
    split.
    { apply (heap_wf_build s2 (memory s) (heap_end s)); rewrite ?Hhe2, ?Hhs2;
        try assumption.
      intros x Hx. apply Hframe. lia. }
    rewrite Hhe2. split; [lia|]. split; [lia|]. split; [left; reflexivity|].
    split; [intros a Ha; apply Hframe; lia|].
    repeat split; try assumption. }
  destruct post as [|bn post0].
  - (* the released block is the last of the heap *)
    simpl in Hpost. cbv zeta. simpl first_tag. simpl is_free. simpl free_size. cbv iota.
    apply (Hkeep [] Hpost Hokpost).
    apply (merge_succeeding_none s2 start total); try assumption; lia.
  - simpl in Hpost. destruct Hpost as (Ha & Hbs & Hbst & Hpost0).
    pose proof Hokpost as Hok0. simpl in Hok0. apply andb_true_iff in Hok0.
    destruct Hok0 as [Hokbn Hokpost0].
    pose proof (block_ok_spec _ _ _ Hokbn) as (Hn32 & Hnmod & _ & _ & Hnend).
    rewrite Ha in *.
    set (szn := b_size bn) in *.
    assert (Hnext : GET (memory s2) (start + total) = GET (memory s) (start + total)).
    { apply GET_ext. intros a Hr. apply Hframe. lia. }
    cbv zeta. simpl first_tag. simpl is_free. simpl free_size. fold szn.
    destruct (b_status bn =? FREE) eqn:Efree.
    + (* the succeeding block is FREE *)
      apply Z.eqb_eq in Efree. simpl tl.
      pose proof (mod32_mod8 _ Hnmod) as Hnmod8.
      rewrite (merge_succeeding_free s2 start total szn); rewrite ?Hhe2;
        try assumption; try lia.
      2:{ unfold GET_STATUS. rewrite Hnext. fold (GET_STATUS (memory s) (start + total)).
          rewrite <- Hbst. exact Efree. }
      2:{ unfold GET_SIZE. rewrite Hnext. fold (GET_SIZE (memory s) (start + total)).
          symmetry. exact Hbs. }
      cbv zeta.
      set (m3 := retag (memory s2) start (szn + total) (PACK (szn + total) FREE)).
      set (s3 := set_next_block (start + total) (set_memory m3 s2)).
      assert (Hmod3 : (szn + total) mod 32 = 0).
      { rewrite Z.add_mod, Hnmod, Hmod by lia. reflexivity. }
      destruct (retag_tags (memory s2) start (szn + total) ltac:(lia) (mod32_mod8 _ Hmod3))
        as (Hh3 & Hf3 & _). fold m3 in Hh3, Hf3.
      assert (Hframe3 : forall a, a < start \/ start + (szn + total) <= a ->
                                  m3 a = memory s a).
      { intros a Hr. unfold m3. rewrite retag_out by lia. apply Hframe. lia. }
      assert (Hwf3 : heap_wf s3 (pre' ++ mkBlock start (szn + total) FREE :: post0)).
      { apply (heap_wf_build s3 (memory s) (heap_end s));
          cbn [s3 memory heap_start heap_end set_next_block set_memory];
          rewrite ?Hhe2, ?Hhs2; try assumption.
        - replace (start + (szn + total)) with (start + total + szn) by lia. exact Hpost0.
        - intros x Hx. apply Hframe3. lia.
        - lia.
        - rewrite <- Hsent. apply GET_ext. intros a Hr. apply Hframe3. lia. }
      destruct (start + total + szn =? heap_end s) eqn:E.
      * (* the merged block ends at the end sentinel *)
        apply Z.eqb_eq in E.
        assert (Hnil : post0 = []).
        { destruct post0 as [|b0 post1]; [reflexivity|].
          destruct (tiled_le _ _ _ _ _ Hpost0 Hokpost0) as [_ Hne].
          specialize (Hne ltac:(discriminate)). lia. }
        subst post0.
        destruct (shrink_heap_wf s3 pre' start (szn + total) Hwf3)
          as (T' & Hwf' & Hfr' & Hhe' & HT' & Hinit' & Hpol' & Hnb' & Hhs').
        exists (shrink_heap s3), T'. split; [reflexivity|]. split; [exact Hwf'|].
        change INITCHUNK with 65536 in *. change CHUNKSIZE with 4096 in *.
        pose proof (Z.div_mod (szn + total - 65536) 4096 ltac:(lia)) as Hd.
        pose proof (Z.mod_pos_bound (szn + total - 65536) 4096 ltac:(lia)) as Hm.
        replace (total + szn) with (szn + total) by lia.
        split; [destruct HT' as [-> | [? ->]]; lia|].
        split; [lia|].
        split. { destruct HT' as [HT' | [Hbig HT']]; [left; lia | right].
                 repeat split; try lia. }
        split. { intros a Hr. rewrite Hfr' by lia.
                 cbn [s3 memory set_next_block set_memory]. apply Hframe3. lia. }
        rewrite Hinit', Hpol', Hhs'.
        cbn [s3 heap_start mm_initialized get_free_block set_next_block set_memory].
        repeat split; try assumption.
        -- intros a Hr Hlt. rewrite Hfr' by lia. cbn [s3 memory set_next_block set_memory].
           unfold m3, retag. rewrite !PUT_out by lia. reflexivity.
        -- replace (start + (szn + total) =? heap_end s) with true
             by (symmetry; apply Z.eqb_eq; lia).
           exact Hnb'.
      * apply Z.eqb_neq in E.
        exists s3, (szn + total). split; [reflexivity|]. split; [exact Hwf3|].
        cbn [s3 memory heap_start heap_end mm_initialized get_free_block
             set_next_block set_memory].
        rewrite Hhe2. split; [lia|]. split; [lia|]. split; [left; reflexivity|].
        split; [intros a Hr; apply Hframe3; lia|].
        repeat split; try assumption.
        -- intros a Hr Hlt. unfold m3, retag. rewrite !PUT_out by lia. reflexivity.
        -- replace (start + (total + szn) =? heap_end s) with false
             by (symmetry; apply Z.eqb_neq; lia).
           reflexivity.
    + (* the succeeding block is allocated *)
      apply (Hkeep (bn :: post0)).
      * simpl. rewrite Ha. repeat split; assumption.
      * exact Hokpost.
      * apply (merge_succeeding_none s2 start total); try assumption; try lia.
        right. unfold GET_STATUS. rewrite Hnext.
        fold (GET_STATUS (memory s) (start + total)). rewrite <- Hbst.
        apply Z.eqb_neq. exact Efree.
Qed.

Lemma mm_free_wf s ptr sz pre post :
  mm_initialized s <> 0 ->
  heap_wf s (pre ++ mkBlock (ptr - 8) sz ALLOC :: post) ->
  let prev := last_tag pre in
  let next := first_tag post in
  let start := merged_start (ptr - 8) prev in
  let whole := merged_size sz prev + free_size next in
  exists s' T,
    mm_free ptr s = Ret tt s'
    /\ heap_wf s' (coalesced pre post (ptr - 8) T)
    /\ heap_end s' <= heap_end s
    /\ T = whole - (heap_end s - heap_end s')
    /\ (heap_end s' = heap_end s
        \/ (is_free next = true /\ start + whole = heap_end s
            /\ INITCHUNK + CHUNKSIZE <= whole
            /\ heap_end s - heap_end s' = (whole - INITCHUNK) / CHUNKSIZE * CHUNKSIZE))
    /\ (forall a, a < start \/ start + whole <= a < heap_end s' -> memory s' a = memory s a)
    /\ heap_start s' = heap_start s /\ mm_initialized s' = mm_initialized s
    /\ get_free_block s' = get_free_block s
    /\ (forall a, ptr <= a < ptr - 8 + sz - 8 -> a < heap_end s' - 8 ->
                  memory s' a = memory s a)
    /\ next_block s'
       = (if is_free next
          then if start + whole =? heap_end s then start else ptr - 8 + sz
          else if is_free prev then start else next_block s).
Proof.
  intros Hinit Hwf.
  destruct (heap_wf_split _ _ _ _ Hwf)
    as (Hpre & Hpost & Hokpre & Hokb & Hokpost & Hsz & _ & Hlo & Hhi & _).
  simpl b_addr in *. simpl b_size in *.
  destruct Hwf as (_ & _ & Hhs & Hal & _ & Hsent & Hseg). unfold TYPE_SIZE in *.
  pose proof (segment_ok_spec s Hseg) as (_ & _ & _ & Hher).
  pose proof (block_ok_spec _ _ _ Hokb) as (H32 & Hmod & _).
  simpl b_size in *.
  assert (Hmodulus : modulus = 2 ^ 64) by reflexivity.
  set (hdr := ptr - 8) in *.
  unfold mm_free.
  replace (ptr =? NULL) with false
    by (symmetry; apply Z.eqb_neq; unfold NULL, hdr in *; lia).
  replace (mm_initialized s =? 0) with false by (symmetry; apply Z.eqb_neq; exact Hinit).
  rewrite (PREV_PTR_small ptr) by (unfold hdr in *; lia). fold hdr.
  destruct (release_preceding s hdr sz pre Hpre Hokpre Hhs H32 Hmod Hhi ltac:(lia)
              (eq_sym Hsz))
    as (s2 & Hmp & Hpre' & Hokpre' & Hsum & Htot & Htmod & Hh2 & Hf2 & Hframe
        & Hhs2 & Hhe2 & Hds2 & Hinit2 & Hpol2 & Hpay2 & Hstart & Hnb2).
  rewrite Hmp. cbv zeta.
  set (start := merged_start hdr (last_tag pre)) in *.
  set (total := merged_size sz (last_tag pre)) in *.
  destruct (release_succeeding s s2 start total _ post Hhs Hal Hsent Hseg Hpre' Hokpre')
    as (s3 & T & Hms & Hwf3 & Hle3 & HT3 & Hsh3 & Hfr3 & Hhs3 & Hinit3 & Hpol3 & Hpay3
        & Hnb3);
    try assumption.
  { rewrite Hsum. exact Hpost. }
  rewrite Hms. exists s3, T. split; [reflexivity|].
  split; [exact Hwf3|]. split; [exact Hle3|]. split; [exact HT3|]. split; [exact Hsh3|].
  split; [exact Hfr3|]. split; [exact Hhs3|]. split; [exact Hinit3|]. split; [exact Hpol3|].
  split.
  - intros a Ha Hlt. unfold hdr in *. rewrite Hpay3 by lia. apply Hpay2. lia.
  - rewrite Hnb3, Hnb2, Hsum. reflexivity.
Qed.

(** ** What a release leaves of the block list *)

Lemma adjacent_free_app l1 l2 :
  adjacent_free (l1 ++ l2)
  = adjacent_free l1 || adjacent_free l2
    || (is_free (last_tag l1) && is_free (first_tag l2)).
Proof.
  induction l1 as [|a l1 IH].
  - simpl. rewrite orb_false_r. reflexivity.
  - destruct l1 as [|a' l1'].
    + destruct l2 as [|b2 l2']; simpl.
      * rewrite andb_false_r. reflexivity.
      * rewrite orb_comm. reflexivity.
    + change ((a :: a' :: l1') ++ l2) with (a :: a' :: (l1' ++ l2)).
      change (adjacent_free (a :: a' :: (l1' ++ l2)))
        with (((b_status a =? FREE) && (b_status a' =? FREE))
              || adjacent_free ((a' :: l1') ++ l2)).
      rewrite IH.
      change (adjacent_free (a :: a' :: l1'))
        with (((b_status a =? FREE) && (b_status a' =? FREE)) || adjacent_free (a' :: l1')).
      change (last_tag (a :: a' :: l1')) with (last_tag (a' :: l1')).
      rewrite !orb_assoc. reflexivity.
Qed.

Lemma coalesced_no_adjacent_free pre post hdr sz T :
  adjacent_free (pre ++ mkBlock hdr sz ALLOC :: post) = false ->
  adjacent_free (coalesced pre post hdr T) = false.
Proof.
  intros H. rewrite adjacent_free_app in H.
  apply orb_false_iff in H. destruct H as [H _].
  apply orb_false_iff in H. destruct H as [Hpre Hpost].
  assert (Hpost0 : adjacent_free post = false
                   /\ forall bn post0, post = bn :: post0 -> b_status bn = FREE ->
                                       is_free (first_tag post0) = false).
  { destruct post as [|bn post0]; [split; [reflexivity | discriminate]|].
    change (adjacent_free ([mkBlock hdr sz ALLOC] ++ bn :: post0) = false) in Hpost.
    rewrite adjacent_free_app in Hpost.
    apply orb_false_iff in Hpost. destruct Hpost as [Hpost _].
    apply orb_false_iff in Hpost. destruct Hpost as [_ Hpost].
    split; [exact Hpost|]. intros bn' post0' E Hfree. injection E as <- <-.
    destruct post0 as [|b1 post1]; [reflexivity|].
    simpl in Hpost. apply orb_false_iff in Hpost. destruct Hpost as [Hpair _].
    simpl. rewrite Hfree in Hpair. simpl in Hpair. exact Hpair. }
  destruct Hpost0 as [Hadjpost Hnext].
  assert (Hpre0 : forall pre0 bp, pre = pre0 ++ [bp] -> b_status bp = FREE ->
                                  adjacent_free pre0 = false
                                  /\ is_free (last_tag pre0) = false).
  { intros pre0 bp -> Hfree. rewrite adjacent_free_app in Hpre.
    apply orb_false_iff in Hpre. destruct Hpre as [Hpre Hpair].
    apply orb_false_iff in Hpre. destruct Hpre as [Hpre _].
    split; [exact Hpre|]. simpl in Hpair. rewrite Hfree in Hpair.
    simpl in Hpair. rewrite andb_true_r in Hpair. exact Hpair. }
  unfold coalesced.
  set (pre' := if is_free (last_tag pre) then removelast pre else pre).
  set (post' := if is_free (first_tag post) then tl post else post).
  assert (Hpre' : adjacent_free pre' = false /\ is_free (last_tag pre') = false).
  { unfold pre'. destruct (is_free (last_tag pre)) eqn:E; [|split; assumption].
    destruct (last_case pre) as [-> | (pre0 & bp & ->)]; [discriminate|].
    rewrite last_tag_app in E. simpl in E. apply Z.eqb_eq in E.
    rewrite removelast_last. apply (Hpre0 pre0 bp eq_refl E). }
  assert (Hpost' : adjacent_free post' = false /\ is_free (first_tag post') = false).
  { unfold post'. destruct (is_free (first_tag post)) eqn:E; [|split; assumption].
    destruct post as [|bn post0]; [discriminate|]. simpl in E. apply Z.eqb_eq in E.
    simpl tl. split; [|apply (Hnext bn post0 eq_refl E)].
    destruct post0 as [|b1 post1]; [reflexivity|].
    simpl in Hadjpost. apply orb_false_iff in Hadjpost. tauto. }
  destruct Hpre' as [Hp1 Hp2]. destruct Hpost' as [Hq1 Hq2].
  rewrite adjacent_free_app, Hp1, Hp2. simpl orb. simpl andb. rewrite orb_false_r.
  change (adjacent_free ([mkBlock (merged_start hdr (last_tag pre)) T FREE] ++ post')
          = false).
  rewrite adjacent_free_app, Hq1, Hq2. reflexivity.
Qed.

Lemma coalesced_length pre post hdr T :
  (length (coalesced pre post hdr T) <= S (length (pre ++ post)))%nat.
Proof.
  unfold coalesced. rewrite !length_app. simpl length.
  assert (H1 : (length (if is_free (last_tag pre) then removelast pre else pre)
                <= length pre)%nat).
  { destruct (is_free (last_tag pre)); [|lia].
    destruct (last_case pre) as [-> | (pre0 & bp & ->)]; [simpl; lia|].
    rewrite removelast_last, length_app. simpl. lia. }
  assert (H2 : (length (if is_free (first_tag post) then tl post else post)
                <= length post)%nat).
  { destruct (is_free (first_tag post)); [|lia]. destruct post; simpl; lia. }
  lia.
Qed.

Lemma coalesced_keeps pre post b :
  In b (pre ++ post) -> b_status b = ALLOC ->
  In b (if is_free (last_tag pre) then removelast pre else pre)
  \/ In b (if is_free (first_tag post) then tl post else post).
Proof.
  intros Hin Hst. apply in_app_or in Hin. destruct Hin as [Hin | Hin]; [left | right].
  - destruct (is_free (last_tag pre)) eqn:E; [|exact Hin].
    destruct (last_case pre) as [-> | (pre0 & bp & ->)]; [destruct Hin|].
    rewrite last_tag_app in E. simpl in E. apply Z.eqb_eq in E.
    rewrite removelast_last. apply in_app_or in Hin.
    destruct Hin as [Hin | [<- | []]]; [exact Hin|].
    rewrite E in Hst. discriminate.
  - destruct (is_free (first_tag post)) eqn:E; [|exact Hin].
    destruct post as [|bn post0]; [destruct Hin|]. simpl in E. apply Z.eqb_eq in E.
    simpl tl. destruct Hin as [<- | Hin]; [|exact Hin].
    rewrite E in Hst. discriminate.
Qed.

(** X10: what a release does to the heap.  On an initialised heap that is
    well-formed (whatever its cursor), releasing the allocated block at
    [ptr - 8] returns and leaves a well-formed heap: the blocks before and
    after are the same, except that a FREE neighbour on either side has
    disappeared, together with the released block, into one FREE block.  That
    block has the sizes of the merged blocks added up, less the bytes by
    which [heap_end] was lowered; [heap_end] is lowered only when the
    following block was FREE and the merged block reaches the end sentinel,
    and then by the excess over [INITCHUNK] rounded down to a multiple of
    [CHUNKSIZE]. *)
Theorem mm_free_coalesces :
  forall (s : state) (ptr sz : Z) (pre post : list block),
    mm_initialized s <> 0 ->
    heap_wf s (pre ++ mkBlock (ptr - TYPE_SIZE) sz ALLOC :: post) ->
    let whole := merged_size sz (last_tag pre) + free_size (first_tag post) in
    exists s' T,
      mm_free ptr s = Ret tt s'
      /\ heap_wf s' (coalesced pre post (ptr - TYPE_SIZE) T)
      /\ heap_blocks (S (S (length (pre ++ post)))) s'
         = Some (coalesced pre post (ptr - TYPE_SIZE) T)
      /\ T = whole - (heap_end s - heap_end s')
      /\ (heap_end s' = heap_end s
          \/ (is_free (first_tag post) = true
              /\ merged_start (ptr - TYPE_SIZE) (last_tag pre) + whole = heap_end s
              /\ INITCHUNK + CHUNKSIZE <= whole
              /\ heap_end s - heap_end s' = (whole - INITCHUNK) / CHUNKSIZE * CHUNKSIZE)).
Proof.
  intros s ptr sz pre post Hinit Hwf whole. unfold TYPE_SIZE in *.
  destruct (mm_free_wf s ptr sz pre post Hinit Hwf)
    as (s' & T & Hcall & Hwf' & Hle & HT & Hshrink & _).
  exists s', T. split; [exact Hcall|]. split; [exact Hwf'|].
  split; [|split; [exact HT | exact Hshrink]].
  destruct Hwf' as (Ht & Hok & _ & _ & _ & _ & Hseg).
  pose proof (segment_ok_spec s' Hseg) as (_ & _ & _ & Hher).
  unfold heap_blocks. apply tiled_heap_walk; try assumption.
  - pose proof (coalesced_length pre post (ptr - 8) T). lia.
  - unfold modulus. lia.
Qed.

Lemma mm_free_coalesces_witness :
  let pre := [mkBlock 65568 32 FREE] in
  let post := [mkBlock 65632 32 ALLOC; mkBlock 65664 65376 FREE] in
  let whole := merged_size 32 (last_tag pre) + free_size (first_tag post) in
  exists s' T,
    mm_free 65608 first_released = Ret tt s'
    /\ heap_wf s' (coalesced pre post (65608 - TYPE_SIZE) T)
    /\ heap_blocks (S (S (length (pre ++ post)))) s'
       = Some (coalesced pre post (65608 - TYPE_SIZE) T)
    /\ T = whole - (heap_end first_released - heap_end s')
    /\ (heap_end s' = heap_end first_released
        \/ (is_free (first_tag post) = true
            /\ merged_start (65608 - TYPE_SIZE) (last_tag pre) + whole
               = heap_end first_released
            /\ INITCHUNK + CHUNKSIZE <= whole
            /\ heap_end first_released - heap_end s'
               = (whole - INITCHUNK) / CHUNKSIZE * CHUNKSIZE)).
Proof.
  apply (mm_free_coalesces first_released 65608 32).
  - vm_compute. discriminate.
  - repeat split; vm_compute; try reflexivity; discriminate.
Defined.

(** X11: a release does not touch live blocks.  Under the same conditions
    every other allocated block is still a block of the heap after the
    release, and none of its bytes is changed. *)
Theorem mm_free_live_blocks :
  forall (s : state) (ptr sz : Z) (pre post : list block),
    mm_initialized s <> 0 ->
    heap_wf s (pre ++ mkBlock (ptr - TYPE_SIZE) sz ALLOC :: post) ->
    exists s' T,
      mm_free ptr s = Ret tt s'
      /\ forall b, In b (pre ++ post) -> b_status b = ALLOC ->
           In b (coalesced pre post (ptr - TYPE_SIZE) T)
           /\ forall a, in_block b a -> memory s' a = memory s a.
Proof.
  intros s ptr sz pre post Hinit Hwf. unfold TYPE_SIZE in *.
  destruct (mm_free_wf s ptr sz pre post Hinit Hwf)
    as (s' & T & Hcall & Hwf' & Hle & HT & Hshrink & Hframe & _).
  exists s', T. split; [exact Hcall|].
  intros b Hin Hst. unfold coalesced in *.
  destruct (heap_wf_around _ _ _ _ Hwf') as [Hbefore Hafter].
  destruct (heap_wf_split _ _ _ _ Hwf') as (_ & _ & _ & _ & Hokpost & _).
  simpl b_addr in *. simpl b_size in *.
  destruct (coalesced_keeps pre post b Hin Hst) as [Hk | Hk].
  - split; [apply in_or_app; left; exact Hk|].
    intros a Ha. unfold in_block in Ha. specialize (Hbefore b Hk).
    apply Hframe. lia.
  - split; [apply in_or_app; right; right; exact Hk|].
    intros a Ha. unfold in_block in Ha. specialize (Hafter b Hk).
    pose proof (forallb_In _ _ _ Hokpost Hk) as Hb. apply block_ok_spec in Hb.
    destruct Hb as (Hb32 & _ & _ & _ & Hbend).
    apply Hframe. change INITCHUNK with 65536 in *. change CHUNKSIZE with 4096 in *.
    destruct Hshrink as [He | (_ & He & _)]; lia.
Qed.

Lemma mm_free_live_blocks_witness :
  let pre := [mkBlock 65568 32 ALLOC] in
  let post := [mkBlock 65632 32 ALLOC; mkBlock 65664 65376 FREE] in
  exists s' T,
    mm_free 65608 three_allocated = Ret tt s'
    /\ forall b, In b (pre ++ post) -> b_status b = ALLOC ->
         In b (coalesced pre post (65608 - TYPE_SIZE) T)
         /\ forall a, in_block b a -> memory s' a = memory three_allocated a.
Proof.
  apply (mm_free_live_blocks three_allocated 65608 32).
  - vm_compute. discriminate.
  - repeat split; vm_compute; try reflexivity; discriminate.
Defined.

(** X12: a release leaves no two FREE neighbours.  If no two neighbouring
    blocks of a well-formed heap are both FREE, the same holds of the
    well-formed heap that the release of an allocated block leaves. *)
Theorem mm_free_no_adjacent_free :
  forall (s : state) (ptr sz : Z) (pre post : list block),
    mm_initialized s <> 0 ->
    heap_wf s (pre ++ mkBlock (ptr - TYPE_SIZE) sz ALLOC :: post) ->
    adjacent_free (pre ++ mkBlock (ptr - TYPE_SIZE) sz ALLOC :: post) = false ->
    exists s' bl',
      mm_free ptr s = Ret tt s'
      /\ heap_wf s' bl'
      /\ heap_blocks (S (S (length (pre ++ post)))) s' = Some bl'
      /\ adjacent_free bl' = false.
Proof.
  intros s ptr sz pre post Hinit Hwf Hadj. unfold TYPE_SIZE in *.
  destruct (mm_free_wf s ptr sz pre post Hinit Hwf)
    as (s' & T & Hcall & Hwf' & _).
  exists s', (coalesced pre post (ptr - 8) T).
  split; [exact Hcall|]. split; [exact Hwf'|]. split.
  - destruct Hwf' as (Ht & Hok & _ & _ & _ & _ & Hseg).
    pose proof (segment_ok_spec s' Hseg) as (_ & _ & _ & Hher).
    unfold heap_blocks. apply tiled_heap_walk; try assumption.
    + pose proof (coalesced_length pre post (ptr - 8) T). lia.
    + unfold modulus. lia.
  - apply (coalesced_no_adjacent_free pre post (ptr - 8) sz T Hadj).
Qed.

Lemma mm_free_no_adjacent_free_witness :
  exists s' bl',
    mm_free 65640 first_released = Ret tt s'
    /\ heap_wf s' bl'
    /\ heap_blocks 5 s' = Some bl'
    /\ adjacent_free bl' = false.
Proof.
  apply (mm_free_no_adjacent_free first_released 65640 32
           [mkBlock 65568 32 FREE; mkBlock 65600 32 ALLOC] [mkBlock 65664 65376 FREE]).
  - vm_compute. discriminate.
  - repeat split; vm_compute; try reflexivity; discriminate.
  - vm_compute. reflexivity.
Defined.

(** ** Reallocation in place *)

Lemma free_size_not_free nb : is_free nb = false -> free_size nb = 0.
Proof.
  destruct nb as [[sz st]|]; simpl; [|reflexivity]. intros ->. reflexivity.
Qed.

(** X13: reallocation in place.  The block at [ptr - 8] is an allocated
    block of a well-formed heap, the block before it is not FREE, and the
    block itself together with a FREE block after it has room for the new
    rounded size (and is too small for the release to shrink the heap).  Then
    [mm_realloc] returns [ptr] itself; the payload keeps its bytes up to the
    smaller of the old and the new block; the heap is again well-formed, the
    old block and its FREE successor replaced by the new allocated block and
    what is left over; the allocation policy is the one set before the call;
    and no byte of another allocated block is changed. *)
Theorem mm_realloc_in_place :
  forall (fuel : nat) (s : state) (ptr size sz : Z) (pre post : list block),
    0 <= size -> size + 2 * TYPE_SIZE <= 2 ^ 53 ->
    mm_initialized s <> 0 ->
    heap_wf s (pre ++ mkBlock (ptr - TYPE_SIZE) sz ALLOC :: post) ->
    is_free (last_tag pre) = false ->
    let req := round_up_BS (size + 2 * TYPE_SIZE) in
    let whole := sz + free_size (first_tag post) in
    req <= whole -> whole < INITCHUNK + CHUNKSIZE ->
    exists s',
      mm_realloc (S fuel) ptr size s = Ret ptr s'
      /\ heap_wf s' (pre ++ carved (ptr - TYPE_SIZE) req whole
                         ++ (if is_free (first_tag post) then tl post else post))
      /\ (forall a, ptr <= a < ptr + Z.min sz req - 2 * TYPE_SIZE ->
                    memory s' a = memory s a)
      /\ get_free_block s' = get_free_block s
      /\ (forall b, In b (pre ++ post) -> b_status b = ALLOC ->
                    forall a, in_block b a -> memory s' a = memory s a).
Proof.
  intros fuel s ptr size sz pre post Hsize Hbig Hinit Hwf Hprev req whole Hfit Hsmall.
  pose proof (round_up_BS_spec (size + 2 * TYPE_SIZE)) as [Hr Hrmod].
  fold req in Hr, Hrmod.
  assert (Hreq_def : req_size_of size = Some req) by (apply req_size_of_exact; assumption).
  clearbody req. unfold TYPE_SIZE in *.
  assert (Hmodulus : modulus = 2 ^ 64) by reflexivity.
  assert (Hreq : 32 <= req) by (pose proof (Z.div_mod req 32 ltac:(lia)); lia).
  destruct (heap_wf_split _ _ _ _ Hwf) as (_ & _ & _ & Hokb & _ & _ & _ & Hlo & Hhi & _).
  simpl b_addr in *. simpl b_size in *.
  pose proof Hwf as (_ & _ & Hhs & _ & _ & _ & Hseg). unfold TYPE_SIZE in Hhs.
  pose proof (segment_ok_spec s Hseg) as (_ & _ & _ & Hher).
  pose proof (block_ok_spec _ _ _ Hokb) as (Hsz32 & _). simpl b_size in Hsz32.
  destruct (mm_free_wf s ptr sz pre post Hinit Hwf)
    as (s1 & T & Hfree & Hwf1 & Hle1 & HT & Hsh & Hfr1 & Hhs1 & Hinit1 & Hpol1 & Hpay1).
  unfold coalesced, merged_start, merged_size in *.
  rewrite Hprev in *. rewrite (free_size_not_free _ Hprev) in *.
  rewrite Z.sub_0_r, Z.add_0_l in *. fold whole in HT, Hsh, Hfr1.
  assert (Hhe1 : heap_end s1 = heap_end s) by (destruct Hsh as [H | (_ & _ & H & _)]; lia).
  assert (HTw : T = whole) by lia. clear HT. subst T.
  set (hdr := ptr - 8) in *.
  set (post' := if is_free (first_tag post) then tl post else post) in *.
  destruct (heap_wf_split _ _ _ _ Hwf1)
    as (_ & _ & _ & Hokm & _ & Hmsz & Hmst & _ & Hmhi & _).
  simpl b_addr in *. simpl b_size in *. simpl b_status in *.
  unfold mm_realloc.
  replace (mm_initialized s =? 0) with false by (symmetry; apply Z.eqb_neq; exact Hinit).
  replace (ptr =? NULL) with false
    by (symmetry; apply Z.eqb_neq; unfold NULL, hdr in *; lia).
  rewrite Hfree. cbn [bind].
  rewrite (PREV_PTR_small ptr) by (unfold hdr in *; lia). fold hdr.
  set (s1' := set_next_block hdr (set_get_free_block (Some next_fit) s1)).
  unfold mm_malloc.
  change (mm_initialized s1') with (mm_initialized s1). rewrite Hinit1.
  replace (mm_initialized s =? 0) with false by (symmetry; apply Z.eqb_neq; exact Hinit).
  rewrite Hreq_def.
  unfold call_get_free_block. change (get_free_block s1') with (Some next_fit).
  unfold nf_get_free_block.
  change (mm_initialized s1') with (mm_initialized s1). rewrite Hinit1.
  replace (mm_initialized s =? 0) with false by (symmetry; apply Z.eqb_neq; exact Hinit).
  change (memory s1') with (memory s1). change (next_block s1') with hdr.
  change (heap_start s1') with (heap_start s1).
  cbn [nf_scan]. rewrite <- Hmst, <- Hmsz.
  change (FREE =? FREE) with true.
  replace (req <=? whole) with true by (symmetry; apply Z.leb_le; exact Hfit).
  cbn [andb]. rewrite Z.eqb_refl. rewrite <- Hmst, <- Hmsz.
  change (FREE =? ALLOC) with false.
  replace (whole <? req) with false by (symmetry; apply Z.ltb_ge; exact Hfit).
  cbn [andb orb bind].
  replace (hdr =? NULL) with false
    by (symmetry; apply Z.eqb_neq; unfold NULL; lia).
  cbn [bind].
  assert (Hwf1' : heap_wf (set_next_block hdr s1') (pre ++ mkBlock hdr whole FREE :: post'))
    by exact Hwf1.
  destruct (place_wf (set_next_block hdr s1') hdr req whole pre post' Hwf1'
              ltac:(lia) Hrmod) as (m' & Hplace & Hwf' & Hout & Hpay & _).
  rewrite Hplace. cbn [bind].
  replace (hdr + 8) with ptr by (unfold hdr; lia). rewrite Z.eqb_refl.
  eexists. split; [reflexivity|].
  split; [exact Hwf'|].
  cbn [memory get_free_block set_next_block set_get_free_block set_memory].
  cbn [memory set_next_block set_get_free_block set_memory s1'] in Hout, Hpay.
  split.
  { intros a Ha. rewrite Hpay by (unfold hdr; lia). apply Hpay1; unfold hdr in *; lia. }
  split; [exact Hpol1|].
  intros b Hin Hst a Ha. unfold in_block in Ha.
  destruct (heap_wf_around _ _ _ _ Hwf1) as [Hbefore Hafter].
  destruct (heap_wf_split _ _ _ _ Hwf1) as (_ & _ & _ & _ & Hokpost' & _).
  simpl b_addr in *. simpl b_size in *.
  destruct (coalesced_keeps pre post b Hin Hst) as [Hk | Hk].
  - rewrite Hprev in Hk. specialize (Hbefore b Hk).
    rewrite Hout by lia. apply Hfr1. lia.
  - fold post' in Hk. specialize (Hafter b Hk).
    pose proof (forallb_In _ _ _ Hokpost' Hk) as Hb. apply block_ok_spec in Hb.
    destruct Hb as (_ & _ & _ & _ & Hbend).
    rewrite Hout by lia. apply Hfr1. lia.
Qed.

Lemma mm_realloc_in_place_witness :
  let pre := [mkBlock 65568 32 ALLOC; mkBlock 65600 32 ALLOC] in
  let post := [mkBlock 65664 65376 FREE] in
  let req := round_up_BS (100 + 2 * TYPE_SIZE) in
  let whole := 32 + free_size (first_tag post) in
  exists s',
    mm_realloc 1 65640 100 three_allocated = Ret 65640 s'
    /\ heap_wf s' (pre ++ carved (65640 - TYPE_SIZE) req whole
                       ++ (if is_free (first_tag post) then tl post else post))
    /\ (forall a, 65640 <= a < 65640 + Z.min 32 req - 2 * TYPE_SIZE ->
                  memory s' a = memory three_allocated a)
    /\ get_free_block s' = get_free_block three_allocated
    /\ (forall b, In b (pre ++ post) -> b_status b = ALLOC ->
                  forall a, in_block b a -> memory s' a = memory three_allocated a).
Proof.
  apply (mm_realloc_in_place 0 three_allocated 65640 100 32).
  - lia.
  - vm_compute. discriminate.
  - vm_compute. discriminate.
  - repeat split; vm_compute; try reflexivity; discriminate.
  - reflexivity.
  - vm_compute. discriminate.
  - vm_compute. reflexivity.
Defined.

(** ** Initialisation on a provider without room *)



(** ** Initialising twice *)

(** X15: a second initialisation is fatal.  [mm_init] carries no check of
    [mm_initialized]; but once it has succeeded the provider's break is no
    longer at its base, and a second call, with any valid policy, stops with
    "Heap not clean." *)
Theorem mm_init_twice :
  forall (ap ap' : AllocationPolicy) (m : mem) (d : dataseg),
    (forall n, ap <> ap_invalid n) -> (forall n, ap' <> ap_invalid n) ->
    0 < ds_base d -> ds_cur d = ds_base d -> ds_pagesize d <> 0 ->
    ds_base d + INITCHUNK <= ds_max d -> ds_base d + INITCHUNK < 2 ^ 63 ->
    exists s,
      mm_init ap (boot m d) = Ret tt s
      /\ mm_init ap' s = Panicked "mm_init" "Heap not clean.".
Proof.
  intros ap ap' m d Hap Hap' Hbase Hclean Hpage Hroom Hsmall.
  assert (Hmodulus : modulus = 2 ^ 64) by reflexivity.
  change INITCHUNK with 65536 in *.
  assert (Hpol : forall a, (forall n, a <> ap_invalid n) ->
                           exists f, match a with
                                     | ap_FirstFit => Some first_fit
                                     | ap_NextFit => Some next_fit
                                     | ap_BestFit => Some best_fit
                                     | ap_invalid _ => None
                                     end = Some f).
  { intros a Ha. destruct a; try (eexists; reflexivity). exfalso. exact (Ha n eq_refl). }
  destruct (Hpol ap Hap) as (f & Hf). destruct (Hpol ap' Hap') as (f' & Hf').
  unfold mm_init at 1. rewrite Hf.
  change (dseg (set_get_free_block (Some f) (boot m d))) with d.
  unfold ds_heap_stat, ds_getpagesize.
  rewrite Hclean.
  replace (ds_base d =? NULL) with false by (symmetry; apply Z.eqb_neq; unfold NULL; lia).
  rewrite Z.eqb_refl. cbn [negb].
  replace (ds_pagesize d =? 0) with false by (symmetry; apply Z.eqb_neq; exact Hpage).
  match goal with |- context [move_break ?i ?s0] =>
    destruct (move_break_spec s0 i) as
      (brk & s1 & Hmb & Hmem & _ & _ & _ & _ & _ & Hcur1 & Hbase1 & Hmax1 & Hin & _ & Hgrant)
  end.
  { cbn. lia. }
  change (dseg (set_get_free_block (Some f) (boot m d))) with d in *.
  change (to_signed INITCHUNK) with 65536 in Hgrant.
  rewrite Hclean in Hgrant. specialize (Hgrant ltac:(lia)).
  rewrite Hmb.
  replace (brk =? SBRK_FAILED) with false
    by (symmetry; apply Z.eqb_neq; unfold SBRK_FAILED; lia).
  eexists. split; [reflexivity|].
  unfold mm_init. rewrite Hf'. cbn [dseg set_get_free_block].
  unfold ds_heap_stat. rewrite Hbase1, Hcur1.
  replace (ds_base d =? NULL) with false by (symmetry; apply Z.eqb_neq; unfold NULL; lia).
  replace (ds_base d =? brk) with false by (symmetry; apply Z.eqb_neq; lia).
  reflexivity.
Qed.

Lemma mm_init_twice_witness :
  exists s,
    mm_init ap_BestFit (boot zero_memory (sample_dataseg 65536)) = Ret tt s
    /\ mm_init ap_FirstFit s = Panicked "mm_init" "Heap not clean.".
Proof.
  apply (mm_init_twice ap_BestFit ap_FirstFit zero_memory (sample_dataseg 65536)).
  - intros n. discriminate.
  - intros n. discriminate.
  - vm_compute. reflexivity.
  - reflexivity.
  - vm_compute. discriminate.
  - vm_compute. discriminate.
  - vm_compute. reflexivity.
Defined.

(** ** The consistency report on a well-formed heap *)

Lemma walk_end_tiled m e :
  forall bl p, tiled m p bl e -> walk_end p bl = e.
Proof.
  induction bl as [|b bl IH]; intros p Ht; simpl in *.
  - exact Ht.
  - destruct Ht as (_ & _ & _ & Hrest). apply IH. exact Hrest.
Qed.

Lemma tag_symmetric_ok m e :
  forall bl p,
    tiled m p bl e -> forallb (block_ok m e) bl = true ->
    forallb (tag_symmetric m) bl = true.
Proof.
  induction bl as [|b bl IH]; intros p Ht Hok; [reflexivity|].
  simpl in Ht. destruct Ht as (Ha & Hs & Hst & Hrest).
  simpl in Hok. apply andb_true_iff in Hok. destruct Hok as [Hb Hok].
  pose proof (block_ok_spec _ _ _ Hb) as (_ & _ & _ & Hftr & _).
  simpl. rewrite (IH _ Hrest Hok), andb_true_r.
  unfold tag_symmetric, GET_SIZE, GET_STATUS, TYPE_SIZE. rewrite Hftr, Ha.
  fold (GET_SIZE m p). fold (GET_STATUS m p). rewrite <- Hs, <- Hst, !Z.eqb_refl.
  reflexivity.
Qed.

(** X16: the consistency report accepts every well-formed heap.  On an
    initialised, well-formed heap [mm_check] returns without changing the
    state, lists the blocks without any error entry, does not abort, and
    reports the block structure coherent. *)
Theorem mm_check_accepts :
  forall (fuel : nat) (s : state) (bl : list block),
    mm_initialized s <> 0 ->
    heap_ok fuel s = true -> heap_blocks fuel s = Some bl ->
    exists rep,
      mm_check fuel s = Ret rep s
      /\ report_coherent rep = true
      /\ report_aborted rep = false
      /\ map line_addr (report_lines rep) = map b_addr bl
      /\ (forall l, In l (report_lines rep) -> line_error l = None).
Proof.
  intros fuel s bl Hinit Hok Hwalk.
  destruct (heap_ok_wf _ _ _ Hok Hwalk) as ((Ht & Hbok & Hhs & _) & _ & _).
  unfold TYPE_SIZE in Hhs. unfold heap_blocks in Hwalk.
  pose proof (tag_symmetric_ok _ _ _ _ Ht Hbok) as Hsym.
  unfold mm_check.
  replace (mm_initialized s =? 0) with false by (symmetry; apply Z.eqb_neq; exact Hinit).
  rewrite (check_walk_spec fuel (memory s) (heap_end s) (heap_start s) 0 [] bl
             ltac:(lia) Hwalk).
  eexists. split; [reflexivity|]. cbn [report_lines report_aborted report_coherent].
  rewrite app_nil_r, rev_involutive, (walk_end_tiled _ _ _ _ Ht), Z.eqb_refl.
  split.
  { clear - Hsym. induction bl as [|b bl IH]; [reflexivity|].
    simpl in Hsym. apply andb_true_iff in Hsym. destruct Hsym as [Hb Hsym].
    simpl. rewrite Hb. simpl. apply IH. exact Hsym. }
  split; [reflexivity|]. split.
  { rewrite map_map. apply map_ext. intros b. reflexivity. }
  intros l Hin. apply in_map_iff in Hin. destruct Hin as (b & <- & Hb).
  unfold line_of_block. cbn [line_error].
  rewrite (forallb_In _ _ _ Hsym Hb). reflexivity.
Qed.

Lemma mm_check_accepts_witness :
  exists rep,
    mm_check 8 three_allocated = Ret rep three_allocated
    /\ report_coherent rep = true
    /\ report_aborted rep = false
    /\ map line_addr (report_lines rep)
       = map b_addr [mkBlock 65568 32 ALLOC; mkBlock 65600 32 ALLOC;
                     mkBlock 65632 32 ALLOC; mkBlock 65664 65376 FREE]
    /\ (forall l, In l (report_lines rep) -> line_error l = None).
Proof.
  apply (mm_check_accepts 8 three_allocated).
  - vm_compute. discriminate.
  - vm_compute. reflexivity.
  - vm_compute. reflexivity.
Defined.

(** ** Allocation followed by release *)

(** X17: releasing what was just allocated restores the heap.  The heap is
    initialised and well-formed with the blocks [bl], no two neighbours of
    which are both FREE and none of which is large enough for a release to
    shrink the heap.  Then [mm_malloc] returns a pointer, and if it did not
    grow the heap, [mm_free] of that pointer returns and leaves a well-formed
    heap with exactly the blocks [bl] and the same [heap_end]; the bytes of
    the allocated blocks are the same as before the two calls. *)
Theorem mm_malloc_free_round_trip :
  forall (fuel : nat) (s : state) (size : Z) (bl : list block),
    0 <= size -> size + 2 * TYPE_SIZE <= 2 ^ 53 ->
    mm_initialized s <> 0 -> get_free_block s <> None ->
    heap_ok fuel s = true -> heap_blocks fuel s = Some bl ->
    adjacent_free bl = false ->
    (forall b, In b bl -> b_size b < INITCHUNK + CHUNKSIZE) ->
    ds_cur (dseg s) + size + 2 * INITCHUNK <= ds_max (dseg s) ->
    ds_max (dseg s) <= 2 ^ 63 ->
    exists p s1,
      mm_malloc fuel size s = Ret p s1
      /\ (heap_end s1 = heap_end s ->
          exists s2,
            mm_free p s1 = Ret tt s2
            /\ heap_wf s2 bl
            /\ heap_blocks fuel s2 = Some bl
            /\ heap_end s2 = heap_end s
            /\ (forall b, In b bl -> b_status b = ALLOC ->
                          forall a, in_block b a -> memory s2 a = memory s a)).
Proof.
  intros fuel s size bl Hsize Hbig Hinit Hpol Hok Hwalk Hadj Hsmall Hroom Hmax.
  destruct (heap_ok_wf _ _ _ Hok Hwalk) as (Hwf & Hlen & _).
  destruct (mm_malloc_wf fuel s size bl Hsize Hbig Hinit Hpol Hok Hwalk Hroom Hmax)
    as (start & prev & pre & post & sA & m' & Hcall & HwfA & Hwf1 & Hreq & _ & _
        & Hkeep & _ & HmemA & Hout & _ & HinitA & _ & _ & _ & _ & Hbl & _).
  set (req := round_up_BS (size + 2 * TYPE_SIZE)) in *.
  exists (start + 8), (set_memory m' sA). split; [exact Hcall|].
  cbn [heap_end set_memory]. intros Hhe. specialize (Hbl Hhe). subst bl.
  (* the neighbours of the block that was carved *)
  rewrite adjacent_free_app in Hadj.
  apply orb_false_iff in Hadj. destruct Hadj as [Hadj Hpair].
  apply orb_false_iff in Hadj. destruct Hadj as [_ Hadjpost].
  simpl in Hpair. rewrite andb_true_r in Hpair.
  change (adjacent_free ([mkBlock start prev FREE] ++ post) = false) in Hadjpost.
  rewrite adjacent_free_app in Hadjpost.
  apply orb_false_iff in Hadjpost. destruct Hadjpost as [_ Hnext].
  simpl in Hnext.
  assert (Hprev_small : prev < INITCHUNK + CHUNKSIZE).
  { apply (Hsmall (mkBlock start prev FREE)). apply in_or_app. right. left. reflexivity. }
  unfold carved in Hwf1.
  set (rest := (if prev - req =? 0 then []
                else [mkBlock (start + req) (prev - req) FREE]) ++ post) in *.
  assert (Hinit1 : mm_initialized (set_memory m' sA) <> 0)
    by (cbn [mm_initialized set_memory]; rewrite HinitA; exact Hinit).
  assert (Hwf1' : heap_wf (set_memory m' sA)
                    (pre ++ mkBlock (start + 8 - 8) req ALLOC :: rest)).
  { replace (start + 8 - 8) with start by lia. exact Hwf1. }
  destruct (mm_free_wf (set_memory m' sA) (start + 8) req pre rest Hinit1 Hwf1')
    as (s2 & T & Hfree & Hwf2 & Hle2 & HT & Hsh & Hfr2 & _).
  unfold coalesced, merged_start, merged_size in *.
  rewrite Hpair in *. rewrite (free_size_not_free _ Hpair) in *.
  replace (start + 8 - 8 - 0) with start in * by lia.
  cbn [heap_end set_memory] in *.
  assert (Hrest : free_size (first_tag rest) = prev - req
                  /\ (if is_free (first_tag rest) then tl rest else rest) = post
                  /\ (is_free (first_tag rest) = true -> prev - req <> 0)).
  { unfold rest. destruct (prev - req =? 0) eqn:E.
    - apply Z.eqb_eq in E. simpl app. rewrite Hnext.
      rewrite (free_size_not_free _ Hnext). repeat split; [lia | discriminate].
    - apply Z.eqb_neq in E. simpl. repeat split. intros _. exact E. }
  destruct Hrest as (Hfs & Hpost' & _). rewrite Hfs, Hpost' in *.
  change INITCHUNK with 65536 in *. change CHUNKSIZE with 4096 in *.
  assert (Hhe2 : heap_end s2 = heap_end s) by (destruct Hsh as [H | (_ & _ & H & _)]; lia).
  assert (HTp : T = prev) by lia. rewrite HTp in *. clear HTp HT.
  exists s2. split; [exact Hfree|]. split; [exact Hwf2|].
  split.
  { pose proof Hwf2 as (Ht2 & Hok2 & _ & _ & _ & _ & Hseg2).
    pose proof (segment_ok_spec s2 Hseg2) as (_ & _ & _ & Hher).
    unfold heap_blocks. apply tiled_heap_walk; try assumption. unfold modulus. lia. }
  split; [exact Hhe2|].
  intros b Hin Hst a Ha. specialize (Hkeep b Hin Hst).
  destruct (heap_wf_around _ _ _ _ HwfA) as [Hbefore Hafter].
  destruct (heap_wf_split _ _ _ _ HwfA) as (_ & _ & _ & _ & Hokpost & _).
  simpl b_addr in *. simpl b_size in *.
  assert (Hside : b_addr b + b_size b <= start
                  \/ (start + prev <= b_addr b /\ b_addr b + b_size b <= heap_end sA)).
  { apply in_app_or in Hkeep. destruct Hkeep as [H | H]; [left; auto | right].
    split; [auto|].
    pose proof (forallb_In _ _ _ Hokpost H) as Hb. apply block_ok_spec in Hb. tauto. }
  unfold in_block in Ha.
  rewrite Hfr2 by lia. cbn [memory set_memory]. rewrite Hout by lia.
  apply (HmemA b a Hkeep). exact Ha.
Qed.

Lemma mm_malloc_free_round_trip_witness :
  let bl := [mkBlock 65568 32 FREE; mkBlock 65600 32 ALLOC; mkBlock 65632 32 ALLOC;
             mkBlock 65664 65376 FREE] in
  exists p s1,
    mm_malloc 8 16 first_released = Ret p s1
    /\ (heap_end s1 = heap_end first_released ->
        exists s2,
          mm_free p s1 = Ret tt s2
          /\ heap_wf s2 bl
          /\ heap_blocks 8 s2 = Some bl
          /\ heap_end s2 = heap_end first_released
          /\ (forall b, In b bl -> b_status b = ALLOC ->
                        forall a, in_block b a -> memory s2 a = memory first_released a)).
Proof.
  apply (mm_malloc_free_round_trip 8 first_released 16).
  - lia.
  - vm_compute. discriminate.
  - vm_compute. discriminate.
  - vm_compute. discriminate.
  - vm_compute. reflexivity.
  - vm_compute. reflexivity.
  - vm_compute. reflexivity.
  - intros b Hin. simpl in Hin.
    destruct Hin as [<- | [<- | [<- | [<- | []]]]]; vm_compute; reflexivity.
  - vm_compute. discriminate.
  - vm_compute. discriminate.
Defined.

(** ** Release and the cursor *)

(** X18: when a release keeps the heap well-formed, cursor included.  On an
    initialised, well-formed heap, the release of an allocated block whose
    following block is not FREE, or is FREE and the last block of the heap,
    returns and leaves a heap that is well-formed again: the cursor is the
    header of one of its blocks.  (A merge with a FREE following block in the
    middle of the heap leaves the cursor on the header that was absorbed.) *)
Theorem mm_free_heap_ok :
  forall (fuel : nat) (s : state) (ptr sz : Z) (pre post : list block),
    mm_initialized s <> 0 ->
    heap_ok fuel s = true ->
    heap_blocks fuel s = Some (pre ++ mkBlock (ptr - TYPE_SIZE) sz ALLOC :: post) ->
    (is_free (first_tag post) = true -> tl post = []) ->
    exists s' T,
      mm_free ptr s = Ret tt s'
      /\ heap_blocks fuel s' = Some (coalesced pre post (ptr - TYPE_SIZE) T)
      /\ heap_ok fuel s' = true.
Proof.
  intros fuel s ptr sz pre post Hinit Hok Hwalk Hlast. unfold TYPE_SIZE in *.
  destruct (heap_ok_wf _ _ _ Hok Hwalk) as (Hwf & Hlen & Hcur).
  destruct (mm_free_wf s ptr sz pre post Hinit Hwf)
    as (s' & T & Hcall & Hwf' & _ & _ & _ & _ & _ & _ & _ & _ & Hnb).
  destruct (heap_wf_split _ _ _ _ Hwf) as (_ & Hpost & _ & _ & Hokpost & _).
  simpl b_addr in *. simpl b_size in *.
  exists s', T. split; [exact Hcall|].
  apply (wf_heap_ok fuel s' _ Hwf').
  { pose proof (coalesced_length pre post (ptr - 8) T) as Hl.
    rewrite !length_app in *. simpl length in Hlen. lia. }
  unfold coalesced in *. unfold merged_start, merged_size in Hnb.
  set (start := ptr - 8 - free_size (last_tag pre)) in *.
  assert (Hmerged : forall l1 l2, In (mkBlock start T FREE)
                                     (l1 ++ mkBlock start T FREE :: l2))
    by (intros l1 l2; apply in_or_app; right; left; reflexivity).
  destruct (is_free (first_tag post)) eqn:Enext.
  - (* the following block is FREE and the last one *)
    specialize (Hlast eq_refl).
    destruct post as [|bn post0]; [discriminate|]. simpl in Hlast. subst post0.
    simpl in Enext. simpl in Hpost. destruct Hpost as (_ & _ & _ & Hend).
    simpl free_size in Hnb. rewrite Enext in Hnb.
    replace (start + (free_size (last_tag pre) + sz + b_size bn) =? heap_end s)
      with true in Hnb by (symmetry; apply Z.eqb_eq; unfold start; lia).
    apply (cursor_in_intro _ _ (mkBlock start T FREE)); [apply Hmerged|].
    symmetry. exact Hnb.
  - destruct (is_free (last_tag pre)) eqn:Eprev.
    + apply (cursor_in_intro _ _ (mkBlock start T FREE)); [apply Hmerged|].
      symmetry. exact Hnb.
    + apply cursor_in_elim in Hcur. destruct Hcur as (b & Hin & Hb).
      rewrite <- Hnb in Hb.
      apply in_app_or in Hin. destruct Hin as [Hin | [<- | Hin]].
      * apply (cursor_in_intro _ _ b); [|exact Hb]. apply in_or_app. left. exact Hin.
      * apply (cursor_in_intro _ _ (mkBlock start T FREE)); [apply Hmerged|].
        rewrite <- Hb. unfold start. rewrite (free_size_not_free _ Eprev). simpl. lia.
      * apply (cursor_in_intro _ _ b); [|exact Hb].
        apply in_or_app. right. right. exact Hin.
Qed.

Lemma mm_free_heap_ok_witness :
  exists s' T,
    mm_free 65640 three_allocated = Ret tt s'
    /\ heap_blocks 8 s'
       = Some (coalesced [mkBlock 65568 32 ALLOC; mkBlock 65600 32 ALLOC]
                 [mkBlock 65664 65376 FREE] (65640 - TYPE_SIZE) T)
    /\ heap_ok 8 s' = true.
Proof.
  apply (mm_free_heap_ok 8 three_allocated 65640 32).
  - vm_compute. discriminate.
  - vm_compute. reflexivity.
  - vm_compute. reflexivity.
  - reflexivity.
Defined.

(** ** How much the heap grows *)

(** X19: growth of the heap in an allocation.  On an initialised,
    well-formed heap whose provider has room, [mm_malloc] either leaves
    [heap_end] and the provider's break where they were, or the last block of
    the heap had no room for the request and the heap grows: by at least
    [INITCHUNK], by a multiple of [CHUNKSIZE], by no more than the larger of
    [INITCHUNK] and the rounded size less the part of the new block below the
    old [heap_end] plus one [CHUNKSIZE]; the break moves by the same
    amount. *)
Theorem mm_malloc_growth :
  forall (fuel : nat) (s : state) (size : Z) (bl : list block),
    0 <= size -> size + 2 * TYPE_SIZE <= 2 ^ 53 ->
    mm_initialized s <> 0 -> get_free_block s <> None ->
    heap_ok fuel s = true -> heap_blocks fuel s = Some bl ->
    ds_cur (dseg s) + size + 2 * INITCHUNK <= ds_max (dseg s) ->
    ds_max (dseg s) <= 2 ^ 63 ->
    let req := round_up_BS (size + 2 * TYPE_SIZE) in
    exists p s',
      mm_malloc fuel size s = Ret p s'
      /\ let grown := heap_end s' - heap_end s in
         (grown = 0 /\ dseg s' = dseg s)
         \/ ((forall pre b, bl = pre ++ [b] -> ~ fits req b)
             /\ INITCHUNK <= grown
             /\ grown mod CHUNKSIZE = 0
             /\ grown <= Z.max INITCHUNK
                           (req - (heap_end s - (p - TYPE_SIZE)) + CHUNKSIZE)
             /\ ds_cur (dseg s') = ds_cur (dseg s) + grown).
Proof.
  intros fuel s size bl Hsize Hbig Hinit Hpol Hok Hwalk Hroom Hmax req.
  destruct (mm_malloc_wf fuel s size bl Hsize Hbig Hinit Hpol Hok Hwalk Hroom Hmax)
    as (start & prev & pre & post & s2 & m' & Hcall & _ & _ & _ & _ & _ & _ & _ & _ & _ & _
        & _ & _ & _ & _ & _ & _ & Hgrow).
  fold req in Hgrow.
  exists (start + 8), (set_memory m' s2). split; [exact Hcall|].
  cbv zeta. cbn [heap_end dseg set_memory]. unfold TYPE_SIZE.
  replace (start + 8 - 8) with start by lia.
  destruct Hgrow as [[He Hd] | Hg]; [left | right; exact Hg].
  split; [lia | exact Hd].
Qed.

Lemma mm_malloc_growth_witness :
  let bl := [mkBlock 65568 32 ALLOC; mkBlock 65600 32 ALLOC; mkBlock 65632 32 ALLOC;
             mkBlock 65664 65376 FREE] in
  let req := round_up_BS (100000 + 2 * TYPE_SIZE) in
  exists p s',
    mm_malloc 8 100000 three_allocated = Ret p s'
    /\ let grown := heap_end s' - heap_end three_allocated in
       (grown = 0 /\ dseg s' = dseg three_allocated)
       \/ ((forall pre b, bl = pre ++ [b] -> ~ fits req b)
           /\ INITCHUNK <= grown
           /\ grown mod CHUNKSIZE = 0
           /\ grown <= Z.max INITCHUNK
                         (req - (heap_end three_allocated - (p - TYPE_SIZE)) + CHUNKSIZE)
           /\ ds_cur (dseg s') = ds_cur (dseg three_allocated) + grown).
Proof.
  apply (mm_malloc_growth 8 three_allocated 100000).
  - lia.
  - vm_compute. discriminate.
  - vm_compute. discriminate.
  - vm_compute. discriminate.
  - vm_compute. reflexivity.
  - vm_compute. reflexivity.
  - vm_compute. discriminate.
  - vm_compute. discriminate.
Defined.
